(** * DOTS: a shallow embedding of the dot-splitting simulation

    The development follows the three source modules:
    - [config.py]      : module [Config];
    - [dot.py]         : the [Dot] record and its methods;
    - [simulation.py]  : boundary construction, the collision engine
                         [handle_collisions], the input handler and the
                         per-tick [update].

    Python floats are idealised as real numbers ([R]); Python ints are [Z].
    The two sources of non-determinism of the program, the millisecond clock
    [pygame.time.get_ticks] and the module [random], are oracles carried by a
    [World] that is threaded through the effectful code by a small state
    monad. *)

From Stdlib Require Import Reals Lra Lia ZArith List String Bool.
Import ListNotations.

Open Scope R_scope.

(* ================================================================= *)
(** ** Decidable comparisons on reals, as booleans *)

Definition Rltb (x y : R) : bool := if Rlt_dec x y then true else false.
Definition Rleb (x y : R) : bool := if Rle_dec x y then true else false.

Infix "<?" := Rltb (at level 70, no associativity) : R_scope.
Infix "<=?" := Rleb (at level 70, no associativity) : R_scope.

(* ================================================================= *)
(** ** config.py *)

Module Config.

Definition WIDTH : Z := 1080.
Definition HEIGHT : Z := 1080.
Definition CENTER_X : Z := WIDTH / 2.
Definition CENTER_Y : Z := HEIGHT / 2.
Definition FPS : Z := 60.

Definition CENTER_DOT_RADIUS : R := 5.
(** [BOUNDARY_FACTOR = 0.9] *)
Definition BOUNDARY_FACTOR : R := 9 / 10.
Definition BOUNDARY_THICKNESS : R := 5.
Definition DOT_RADIUS : R := 5.
Definition INITIAL_DOT_SPEED : R := 200.

(** [REGULAR_SPAWN_INTERVAL = 10.0] seconds; the code only uses
    [REGULAR_SPAWN_INTERVAL * 1000], compared with a difference of
    millisecond ticks. *)
Definition REGULAR_SPAWN_INTERVAL_MS : Z := 10 * 1000.
Definition SPLIT_DELAY : Z := 50.

Definition SPLIT_ANGLE_RANGE : R := 90.
Definition INITIAL_DOT_LIMIT : Z := 10000.

Definition AVAILABLE_SHAPES : list string :=
  ["Circle"; "Square"; "Triangle"; "Parallelogram"; "Ameba"]%string.

(** [COLLISION_BOUNDS_INWARD_OFFSET], a dict used through
    [.get(name, 0.0)]. *)
Definition COLLISION_BOUNDS_INWARD_OFFSET : list (string * R) :=
  [ ("Circle", 0); ("Square", -10); ("Triangle", -10);
    ("Parallelogram", -10); ("Ameba", -0) ]%string.

Fixpoint dict_get (d : list (string * R)) (k : string) (default : R) : R :=
  match d with
  | [] => default
  | (k', v) :: d' => if String.eqb k k' then v else dict_get d' k default
  end.

End Config.

(* ================================================================= *)
(** ** pygame.math.Vector2 *)

Record Vector2 : Type := mkVec { vx : R; vy : R }.

Declare Scope vec_scope.
Delimit Scope vec_scope with vec.
Bind Scope vec_scope with Vector2.

Definition vadd (a b : Vector2) : Vector2 := mkVec (vx a + vx b) (vy a + vy b).
Definition vsub (a b : Vector2) : Vector2 := mkVec (vx a - vx b) (vy a - vy b).
Definition vneg (a : Vector2) : Vector2 := mkVec (- vx a) (- vy a).
Definition vscale (a : Vector2) (k : R) : Vector2 := mkVec (vx a * k) (vy a * k).
Definition vdot (a b : Vector2) : R := vx a * vx b + vy a * vy b.

Infix "+v" := vadd (at level 50, left associativity) : vec_scope.
Infix "-v" := vsub (at level 50, left associativity) : vec_scope.
Infix "*v" := vscale (at level 40, left associativity) : vec_scope.

Definition length_squared (a : Vector2) : R := vdot a a.
Definition length (a : Vector2) : R := sqrt (length_squared a).

(** [Vector2.normalize()]. pygame raises [ValueError] on a vector of length
    zero; every call in the program is guarded by a test on the length, so
    the embedding keeps the function total. *)
Definition normalize (a : Vector2) : Vector2 :=
  mkVec (vx a / length a) (vy a / length a).

(** [Vector2.reflect(normal)]: pygame first normalises the normal it is
    given (leaving it alone when its squared length is exactly 1), then
    returns [v - 2 (v . n) n]. *)
Definition reflect (v normal : Vector2) : Vector2 :=
  let n := normalize normal in
  let dot_product := vdot v n in
  mkVec (vx v - 2 * vx n * dot_product) (vy v - 2 * vy n * dot_product).

Definition radians (deg : R) : R := deg * PI / 180.
Definition degrees (rad : R) : R := rad * 180 / PI.

(** [Vector2.from_polar((r, phi))], [phi] in degrees. *)
Definition from_polar (r phi : R) : Vector2 :=
  mkVec (r * cos (radians phi)) (r * sin (radians phi)).

(** [Vector2.rotate(angle)], counter-clockwise by [angle] degrees. *)
Definition rotate (a : Vector2) (angle : R) : Vector2 :=
  let c := cos (radians angle) in
  let s := sin (radians angle) in
  mkVec (vx a * c - vy a * s) (vx a * s + vy a * c).

(** C's [atan2], on which [Vector2.angle_to] is built. *)
Definition atan2 (y x : R) : R :=
  if 0 <? x then atan (y / x)
  else if x <? 0 then
         (if 0 <=? y then atan (y / x) + PI else atan (y / x) - PI)
       else if 0 <? y then PI / 2
            else if y <? 0 then - (PI / 2)
                 else 0.

(** [self.angle_to(other)], in degrees. *)
Definition angle_to (self other : Vector2) : R :=
  degrees (atan2 (vy other) (vx other) - atan2 (vy self) (vx self)).

(* ================================================================= *)
(** ** The outside world: clock and random generator *)

(** [clock k] is the value of the [k]-th call of [pygame.time.get_ticks];
    [rand k] the [k]-th sample of [random.random()], and [randi k] the
    [k]-th raw integer behind [random.randint].  The counters record how
    many calls were made. *)
Record World : Type := mkWorld {
  clock : nat -> Z;
  clock_calls : nat;
  rand : nat -> R;
  rand_calls : nat;
  randi : nat -> Z;
  randi_calls : nat
}.

Definition M (A : Type) : Type := World -> A * World.

Definition ret {A} (a : A) : M A := fun w => (a, w).
Definition bind {A B} (m : M A) (k : A -> M B) : M B :=
  fun w => let (a, w') := m w in k a w'.

Declare Scope m_scope.
Delimit Scope m_scope with m.
Notation "x <- m ;; k" := (bind m (fun x => k))
  (at level 61, m at next level, right associativity) : m_scope.
Notation "m ;;; k" := (bind m (fun _ => k))
  (at level 61, right associativity) : m_scope.

(** [pygame.time.get_ticks()] *)
Definition get_ticks : M Z :=
  fun w => (clock w (clock_calls w),
            mkWorld (clock w) (S (clock_calls w)) (rand w) (rand_calls w)
                    (randi w) (randi_calls w)).

(** [random.uniform(a, b)] is [a + (b - a) * random()]. *)
Definition uniform (a b : R) : M R :=
  fun w => (a + (b - a) * rand w (rand_calls w),
            mkWorld (clock w) (clock_calls w) (rand w) (S (rand_calls w))
                    (randi w) (randi_calls w)).

(** [random.randint(a, b)]: some integer of [a .. b]. *)
Definition randint (a b : Z) : M Z :=
  fun w => ((a + (randi w (randi_calls w)) mod (b - a + 1))%Z,
            mkWorld (clock w) (clock_calls w) (rand w) (rand_calls w)
                    (randi w) (S (randi_calls w))).

(* ================================================================= *)
(** ** dot.py *)

Definition Color : Type := (Z * Z * Z)%type.

Definition random_color : M Color :=
  (r <- randint 50 255 ;;
   g <- randint 50 255 ;;
   b <- randint 50 255 ;;
   ret (r, g, b))%m.

Record Dot : Type := mkDot {
  pos : Vector2;
  vel : Vector2;
  color : Color;
  needs_split : bool;
  split_timer_start : Z;
  last_collision_normal : option Vector2
}.

(** [Dot.__init__] *)
Definition Dot_init (x y vx0 vy0 : R) (c : Color) : Dot :=
  mkDot (mkVec x y) (mkVec vx0 vy0) c false 0%Z None.

(** [Dot.move] *)
Definition move (d : Dot) (dt : R) : Dot :=
  mkDot (pos d +v vel d *v dt)%vec (vel d) (color d) (needs_split d)
        (split_timer_start d) (last_collision_normal d).

Definition set_pos (d : Dot) (p : Vector2) : Dot :=
  mkDot p (vel d) (color d) (needs_split d) (split_timer_start d)
        (last_collision_normal d).

Definition set_vel (d : Dot) (v : Vector2) : Dot :=
  mkDot (pos d) v (color d) (needs_split d) (split_timer_start d)
        (last_collision_normal d).

Definition set_needs_split (d : Dot) (b : bool) : Dot :=
  mkDot (pos d) (vel d) (color d) b (split_timer_start d)
        (last_collision_normal d).

(** [Dot.mark_for_split] *)
Definition mark_for_split (d : Dot) (inward_collision_normal : Vector2) : M Dot :=
  if negb (needs_split d) then
    (now <- get_ticks ;;
     ret (mkDot (pos d) (vel d) (color d) true now
            (Some (if 1 / 1000000000 <? length_squared inward_collision_normal
                   then normalize inward_collision_normal
                   else mkVec 0 (-1)))))%m
  else ret d.

(** [Dot.should_split] *)
Definition should_split (d : Dot) : M bool :=
  if needs_split d then
    (now <- get_ticks ;;
     ret (Config.SPLIT_DELAY <=? now - split_timer_start d)%Z)%m
  else ret false.

(** The value [random.uniform(-SPLIT_ANGLE_RANGE / 2, SPLIT_ANGLE_RANGE / 2)]
    takes on the sample [u] of [random.random()]. *)
Definition child_offset (u : R) : R :=
  - Config.SPLIT_ANGLE_RANGE / 2
  + (Config.SPLIT_ANGLE_RANGE / 2 - - Config.SPLIT_ANGLE_RANGE / 2) * u.

(** [Dot.split].  Returns the mutated parent (flag reset, normal cleared)
    and the list [new_dots].  The [except ValueError] branch of the source is
    not reachable ([angle_to] does not raise), and neither is the [else]
    branch of [current_speed > 0] for the configured speed; the latter is
    kept as the polar vector it was meant to build. *)
Definition split_child (parent_pos : Vector2) (stored_normal_angle : R) : M Dot :=
  (random_offset <- uniform (- Config.SPLIT_ANGLE_RANGE / 2)
                            (Config.SPLIT_ANGLE_RANGE / 2) ;;
   let split_angle_deg := stored_normal_angle + random_offset in
   let current_speed := Config.INITIAL_DOT_SPEED in
   let new_vel := from_polar current_speed split_angle_deg in
   let offset_vec :=
     if 0 <? current_speed
     then (normalize new_vel *v (Config.DOT_RADIUS * (11 / 10)))%vec
     else from_polar (Config.DOT_RADIUS * (11 / 10)) split_angle_deg in
   let new_pos := (parent_pos +v offset_vec)%vec in
   c <- random_color ;;
   ret (Dot_init (vx new_pos) (vy new_pos) (vx new_vel) (vy new_vel) c))%m.

Definition split_normal (d : Dot) : Vector2 :=
  match last_collision_normal d with
  | Some n => n
  | None =>
      let center_fallback :=
        mkVec (IZR Config.CENTER_X) (IZR Config.CENTER_Y) in
      let vec_to_center := (center_fallback -v pos d)%vec in
      if 1 / 1000000000 <? length_squared vec_to_center
      then normalize vec_to_center
      else mkVec 0 (-1)
  end.

Definition split (d : Dot) : M (Dot * list Dot) :=
  (let parent_pos := pos d in
   let normal := split_normal d in
   let angle_from_angle_to := angle_to normal (mkVec 1 0) in
   let angle_to_use_deg := - angle_from_angle_to in
   let stored_normal_angle := angle_to_use_deg in
   let d' := mkDot (pos d) (vel d) (color d) false (split_timer_start d) None in
   c1 <- split_child parent_pos stored_normal_angle ;;
   c2 <- split_child parent_pos stored_normal_angle ;;
   ret (d', [c1; c2]))%m.

(* ================================================================= *)
(** ** simulation.py: geometry helper and boundary construction *)

Definition find_closest_point_on_segment
    (point_vec seg_start_vec seg_end_vec : Vector2) : Vector2 :=
  let segment_vec := (seg_end_vec -v seg_start_vec)%vec in
  let seg_len_sq := length_squared segment_vec in
  if seg_len_sq <? 1 / 1000000000 then seg_start_vec
  else
    let start_to_point_vec := (point_vec -v seg_start_vec)%vec in
    let t := vdot start_to_point_vec segment_vec / seg_len_sq in
    let t := Rmax 0 (Rmin 1 t) in
    (seg_start_vec +v segment_vec *v t)%vec.

(** One entry of [data['segments']]: the tuple
    [(v_start, v_end, segment_vector, segment_len_sq, normal_outward)]. *)
Record Segment : Type := mkSeg {
  v_start : Vector2;
  v_end : Vector2;
  seg_vec : Vector2;
  seg_len_sq : R;
  seg_normal_outward : Vector2
}.

(** The dictionaries [{'type': 'circle', 'radius': r}] and
    [{'type': 'polygon', 'vertices': vs, 'segments': ss}]. *)
Inductive ShapeData : Type :=
| CircleShape (radius : R)
| PolygonShape (vertices : list Vector2) (segments : list Segment).

Definition center_pos : Vector2 :=
  mkVec (IZR Config.CENTER_X) (IZR Config.CENTER_Y).

(** [int(min(WIDTH, HEIGHT) * BOUNDARY_FACTOR / 2)] *)
Definition max_extent_radius_int : Z :=
  (Z.min Config.WIDTH Config.HEIGHT * 9 / 20)%Z.

Definition max_extent_radius : R := IZR max_extent_radius_int.

(** The segment loop run over every polygon at the end of [define_shapes]. *)
Definition build_segment (verts : list Vector2) (i : nat) : list Segment :=
  let num_verts := List.length verts in
  let v_start := nth i verts (mkVec 0 0) in
  let v_end := nth (Nat.modulo (i + 1) num_verts) verts (mkVec 0 0) in
  let segment_vector := (v_end -v v_start)%vec in
  let segment_len_sq := length_squared segment_vector in
  if segment_len_sq <? 1 / 1000000000 then []
  else [ mkSeg v_start v_end segment_vector segment_len_sq
               (normalize (rotate segment_vector (-90))) ].

Definition build_segments (verts : list Vector2) : list Segment :=
  flat_map (build_segment verts) (seq 0 (List.length verts)).

Definition polygon (verts : list Vector2) : ShapeData :=
  PolygonShape verts (build_segments verts).

(** *** The noise-perturbed polygon ('Ameba') *)

Module Ameba.

Definition num_vertices_ameba : nat := 360.
Definition noise_frequency : R := 3.
Definition noise_amplitude_factor : R := 4 / 10.
Definition base_r_factor : R := 55 / 100.
Definition base_r : R := base_r_factor * max_extent_radius.
Definition amplitude : R := noise_amplitude_factor * base_r.

Definition theta (i : nat) : R :=
  (INR i / INR num_vertices_ameba) * 2 * PI.

Section WithNoise.

(** [simplex.noise2], for the seed drawn by [define_shapes]. *)
Variable noise2 : R -> R -> R.

Definition noise_val (i : nat) : R :=
  noise2 (cos (theta i) * noise_frequency) (sin (theta i) * noise_frequency).

(** First loop: the entry appended to [generated_radii_factors]. *)
Definition generated_radius (i : nat) : R :=
  Rmax (base_r * (1 / 10)) (base_r + amplitude * noise_val i).

Definition generated_radii_factors : list R :=
  map (fun i => generated_radius i / max_extent_radius)
      (seq 0 num_vertices_ameba).

(** Python's [max] of a list, with the [else] value for the empty list. *)
Definition max_or (l : list R) (default : R) : R :=
  match l with
  | [] => default
  | x :: xs => fold_left Rmax xs x
  end.

Definition max_gen_r_factor : R :=
  let m := max_or generated_radii_factors base_r_factor in
  if m <=? 1 / 1000000 then base_r_factor else m.

Definition scale_factor : R := 1 / max_gen_r_factor.

(** Second loop. *)
Definition current_radius_unscaled (i : nat) : R :=
  Rmax (base_r * (2 / 10)) (base_r + amplitude * noise_val i).

Definition ameba_radius (i : nat) : R :=
  Rmin (current_radius_unscaled i * scale_factor) max_extent_radius.

Definition ameba_vertex (i : nat) : Vector2 :=
  mkVec (IZR Config.CENTER_X + ameba_radius i * cos (theta i))
        (IZR Config.CENTER_Y + ameba_radius i * sin (theta i)).

Definition ameba_vertices : list Vector2 :=
  map ameba_vertex (seq 0 num_vertices_ameba).

End WithNoise.

End Ameba.

(** [define_shapes].  [noise2 seed] is the noise function of
    [OpenSimplex(seed)]. *)
Definition define_shapes (noise2 : Z -> R -> R -> R)
  : M (list (string * ShapeData)) :=
  (let cx := IZR Config.CENTER_X in
   let cy := IZR Config.CENTER_Y in
   let half_diagonal := max_extent_radius in
   let half_side := half_diagonal / sqrt 2 in
   let square :=
     [ mkVec (cx - half_side) (cy - half_side);
       mkVec (cx + half_side) (cy - half_side);
       mkVec (cx + half_side) (cy + half_side);
       mkVec (cx - half_side) (cy + half_side) ] in
   let top := mkVec 0 (- max_extent_radius) in
   let triangle :=
     [ (center_pos +v rotate top 0)%vec;
       (center_pos +v rotate top 120)%vec;
       (center_pos +v rotate top 240)%vec ] in
   let width_factor := 16 / 10 in
   let height_factor := 1 in
   let p_width := max_extent_radius * width_factor in
   let p_height := max_extent_radius * height_factor in
   let angle_deg := 30 in
   let offset_x := (p_height / 2) / tan (radians angle_deg) in
   let half_width_base := p_width / 2 in
   let parallelogram :=
     [ mkVec (cx - half_width_base + offset_x) (cy - p_height / 2);
       mkVec (cx + half_width_base + offset_x) (cy - p_height / 2);
       mkVec (cx + half_width_base - offset_x) (cy + p_height / 2);
       mkVec (cx - half_width_base - offset_x) (cy + p_height / 2) ] in
   noise_seed <- randint 0 10000 ;;
   ret [ ("Circle", CircleShape max_extent_radius);
         ("Square", polygon square);
         ("Triangle", polygon triangle);
         ("Parallelogram", polygon parallelogram);
         ("Ameba", polygon (Ameba.ameba_vertices (noise2 noise_seed))) ]%string)%m.

(* ================================================================= *)
(** ** simulation.py: the simulation state *)

Record Simulation : Type := mkSim {
  shape_definitions : list (string * ShapeData);
  current_shape_name : string;
  current_shape_data : ShapeData;
  dots : list Dot;
  paused : bool;
  running : bool;
  dot_limit : Z;
  last_spawn_time : Z;
  limit_reached_paused : bool;
  first_unpause : bool
}.

Fixpoint shape_lookup (defs : list (string * ShapeData)) (k : string)
  : option ShapeData :=
  match defs with
  | [] => None
  | (k', v) :: defs' => if String.eqb k k' then Some v else shape_lookup defs' k
  end.

(** [Simulation.reset] *)
Definition reset (s : Simulation) : M Simulation :=
  (now <- get_ticks ;;
   ret (mkSim (shape_definitions s) (current_shape_name s)
              (current_shape_data s)
              [] true true Config.INITIAL_DOT_LIMIT now false true))%m.

(** [Simulation.__init__], without the window, font and GUI set-up. *)
Definition Simulation_init (noise2 : Z -> R -> R -> R) : M Simulation :=
  (defs <- define_shapes noise2 ;;
   let name0 := hd ""%string Config.AVAILABLE_SHAPES in
   let name :=
     match shape_lookup defs name0 with
     | Some _ => name0
     | None => hd ""%string (map fst defs)
     end in
   let data :=
     match shape_lookup defs name with
     | Some d => d
     | None => CircleShape 0
     end in
   reset (mkSim defs name data [] true true 0%Z 0%Z false true))%m.

(** [Simulation.spawn_dot] *)
Definition spawn_dot (s : Simulation) : M Simulation :=
  (angle <- uniform 0 (2 * PI) ;;
   let v := from_polar Config.INITIAL_DOT_SPEED (degrees angle) in
   c <- random_color ;;
   let d := Dot_init (IZR Config.CENTER_X) (IZR Config.CENTER_Y) (vx v) (vy v) c in
   ret (mkSim (shape_definitions s) (current_shape_name s)
              (current_shape_data s)
              (dots s ++ [d]) (paused s) (running s) (dot_limit s)
              (last_spawn_time s) (limit_reached_paused s) (first_unpause s)))%m.

(** *** Input events *)

Inductive Key : Type := K_ESCAPE | K_SPACE | K_r | K_other.

Inductive Event : Type :=
| QUIT
| KEYDOWN (key : Key)
| UI_DROP_DOWN_MENU_CHANGED (text : string)
| OtherEvent.

Definition set_running (s : Simulation) (b : bool) : Simulation :=
  mkSim (shape_definitions s) (current_shape_name s) (current_shape_data s)
        (dots s) (paused s) b (dot_limit s) (last_spawn_time s)
        (limit_reached_paused s) (first_unpause s).

Definition set_paused (s : Simulation) (b : bool) : Simulation :=
  mkSim (shape_definitions s) (current_shape_name s) (current_shape_data s)
        (dots s) b (running s) (dot_limit s) (last_spawn_time s)
        (limit_reached_paused s) (first_unpause s).

Definition set_shape (s : Simulation) (name : string) (data : ShapeData)
  : Simulation :=
  mkSim (shape_definitions s) name data
        (dots s) (paused s) (running s) (dot_limit s) (last_spawn_time s)
        (limit_reached_paused s) (first_unpause s).

(** The [if self.first_unpause:] block of the space-bar branch. *)
Definition first_unpause_block (s : Simulation) : M Simulation :=
  if first_unpause s then
    (s1 <- (if ((0 <? dot_limit s)%Z && (List.length (dots s) =? 0)%nat)%bool
            then spawn_dot s else ret s) ;;
     now <- get_ticks ;;
     ret (mkSim (shape_definitions s1) (current_shape_name s1)
                (current_shape_data s1)
                (dots s1) (paused s1) (running s1) (dot_limit s1)
                now (limit_reached_paused s1) false))%m
  else ret s.

(** The [if self.limit_reached_paused:] block of the space-bar branch. *)
Definition limit_increase_block (s : Simulation) : Simulation :=
  if limit_reached_paused s then
    mkSim (shape_definitions s) (current_shape_name s) (current_shape_data s)
          (dots s) (paused s) (running s)
          (dot_limit s + Config.INITIAL_DOT_LIMIT)%Z
          (last_spawn_time s) false (first_unpause s)
  else s.

(** The [K_SPACE] branch: unpause when paused, pause otherwise. *)
Definition press_space (s : Simulation) : M Simulation :=
  if paused s then
    (s1 <- first_unpause_block s ;;
     ret (set_paused (limit_increase_block s1) false))%m
  else ret (set_paused s true).

(** The dropdown branch; the program has a single dropdown, so the test
    [event.ui_element == self.shape_dropdown] holds. *)
Definition shape_changed (s : Simulation) (new_shape_name : string)
  : M Simulation :=
  if negb (String.eqb new_shape_name (current_shape_name s)) then
    match shape_lookup (shape_definitions s) new_shape_name with
    | Some data => reset (set_shape s new_shape_name data)
    | None =>
        ret (set_shape s (hd ""%string Config.AVAILABLE_SHAPES)
                       (current_shape_data s))
    end
  else ret s.

Definition handle_event (s : Simulation) (e : Event) : M Simulation :=
  match e with
  | QUIT => ret (set_running s false)
  | KEYDOWN K_ESCAPE => ret (set_running s false)
  | KEYDOWN K_SPACE => press_space s
  | KEYDOWN K_r => reset s
  | KEYDOWN K_other => ret s
  | UI_DROP_DOWN_MENU_CHANGED text => shape_changed s text
  | OtherEvent => ret s
  end.

(** [Simulation.handle_input]: the events of [pygame.event.get()], in order. *)
Fixpoint handle_input (s : Simulation) (events : list Event) : M Simulation :=
  match events with
  | [] => ret s
  | e :: es => (s' <- handle_event s e ;; handle_input s' es)%m
  end.

(* ================================================================= *)
(** ** simulation.py: the collision engine *)

Definition epsilon : R := 1 / 1000000.

(** The expression
    [(p - v_start).dot(seg_normal_outward) - (BOUNDARY_THICKNESS / 2.0)
       - manual_offset - DOT_RADIUS],
    which the source evaluates at the current position, at the collision
    point and at the next position. *)
Definition signed_overlap (p : Vector2) (seg : Segment) (manual_offset : R) : R :=
  vdot (p -v v_start seg)%vec (seg_normal_outward seg)
  - Config.BOUNDARY_THICKNESS / 2 - manual_offset - Config.DOT_RADIUS.

(** [if dot.vel.length_squared() > epsilon: dot.vel = dot.vel.reflect(n)] *)
Definition reflect_vel (d : Dot) (n : Vector2) : Dot :=
  if epsilon <? length_squared (vel d) then set_vel d (reflect (vel d) n) else d.

(** The ['circle'] branch. *)
Definition collide_circle (radius manual_offset : R) (d : Dot) (dt : R)
  : M (bool * Dot) :=
  let inner_boundary_edge_radius := radius - Config.BOUNDARY_THICKNESS / 2 in
  let collision_distance :=
    Rmax 0 (inner_boundary_edge_radius - manual_offset - Config.DOT_RADIUS) in
  let next_pos := (pos d +v vel d *v dt)%vec in
  let vec_to_center := (center_pos -v next_pos)%vec in
  let dist_sq := length_squared vec_to_center in
  if collision_distance * collision_distance - epsilon <=? dist_sq then
    let dist := if 0 <? dist_sq then sqrt dist_sq else 0 in
    let normal_to_center :=
      if epsilon <? dist then normalize vec_to_center else mkVec 0 1 in
    let d1 :=
      set_pos d (center_pos -v normal_to_center *v (collision_distance - epsilon))%vec in
    let reflection_normal := vneg normal_to_center in
    let d2 := reflect_vel d1 reflection_normal in
    (d3 <- mark_for_split d2 normal_to_center ;; ret (true, d3))%m
  else ret (false, d).

(** State of the predictive loop: [None] stands for
    [min_collision_dt = inf, colliding_segment_data = None]; [Some (t, seg, p)]
    for [min_collision_dt = t], [colliding_segment_data = seg] and
    [final_collision_point = p]. *)
Definition Hit : Type := (R * Segment * Vector2)%type.

Definition below_min (t : R) (best : option Hit) : bool :=
  match best with
  | None => true
  | Some (min_collision_dt, _, _) => t <? min_collision_dt
  end.

Definition time_to_hit_line (d : Dot) (manual_offset : R) (seg : Segment) : R :=
  signed_overlap (pos d) seg manual_offset / vdot (vel d) (seg_normal_outward seg).

(** One iteration of the predictive check. *)
Definition sweep_step (d : Dot) (manual_offset : R)
    (best : option Hit) (segment_data : Segment) : option Hit :=
  let p_closest :=
    find_closest_point_on_segment (pos d) (v_start segment_data) (v_end segment_data) in
  let vec_to_closest := (p_closest -v pos d)%vec in
  let moving_towards_segment_point := - epsilon <? vdot (vel d) vec_to_closest in
  let moving_towards_wall_line :=
    epsilon <? vdot (vel d) (seg_normal_outward segment_data) in
  if negb (moving_towards_segment_point && moving_towards_wall_line) then best
  else
    let vel_dot_normal_positive := vdot (vel d) (seg_normal_outward segment_data) in
    if Rabs vel_dot_normal_positive <? epsilon then best
    else
      let t := time_to_hit_line d manual_offset segment_data in
      if (0 - epsilon <=? t) && below_min t best then
        let collision_point_on_line := (pos d +v vel d *v t)%vec in
        let vec_start_to_collision :=
          (collision_point_on_line -v v_start segment_data)%vec in
        let proj_on_segment_sq := vdot vec_start_to_collision (seg_vec segment_data) in
        if (- epsilon <=? proj_on_segment_sq)
           && (proj_on_segment_sq <=? seg_len_sq segment_data + epsilon)
        then Some (t, segment_data, collision_point_on_line)
        else best
      else best.

Definition predictive_sweep (d : Dot) (manual_offset : R) (segments : list Segment)
  : option Hit :=
  fold_left (sweep_step d manual_offset) segments None.

(** "Process Predictive Collision" *)
Definition resolve_predicted (d : Dot) (manual_offset : R) (hit : Hit) : M (bool * Dot) :=
  let '(_, seg, final_collision_point) := hit in
  let d1 := set_pos d final_collision_point in
  let overlap_at_collision := signed_overlap (pos d1) seg manual_offset in
  let d2 :=
    if - epsilon <? overlap_at_collision
    then set_pos d1 (pos d1 -v seg_normal_outward seg *v (overlap_at_collision + epsilon))%vec
    else d1 in
  let d3 := reflect_vel d2 (seg_normal_outward seg) in
  (d4 <- mark_for_split d3 (vneg (seg_normal_outward seg)) ;; ret (true, d4))%m.

Definition proximity_threshold_sq : R := (Config.DOT_RADIUS * 3) * (Config.DOT_RADIUS * 3).

(** One iteration of the safety-net loop; [None] stands for
    [max_overlap = -inf, overlapping_segment_data = None]. *)
Definition safety_step (next_pos : Vector2) (manual_offset : R)
    (best : option (R * Segment)) (segment_data : Segment) : option (R * Segment) :=
  let p_closest_to_next :=
    find_closest_point_on_segment next_pos (v_start segment_data) (v_end segment_data) in
  let dist_sq_to_segment := length_squared (next_pos -v p_closest_to_next)%vec in
  if proximity_threshold_sq <? dist_sq_to_segment then best
  else
    let overlap := signed_overlap next_pos segment_data manual_offset in
    if match best with
       | None => true
       | Some (max_overlap, _) => max_overlap <? overlap
       end
    then Some (overlap, segment_data)
    else best.

Definition safety_net (d : Dot) (manual_offset dt : R) (segments : list Segment)
  : M (bool * Dot) :=
  let next_pos := (pos d +v vel d *v dt)%vec in
  match fold_left (safety_step next_pos manual_offset) segments None with
  | Some (max_overlap, seg) =>
      if epsilon <? max_overlap then
        if epsilon <? vdot (vel d) (seg_normal_outward seg) then
          let d1 :=
            set_pos d (next_pos -v seg_normal_outward seg *v (max_overlap + epsilon))%vec in
          let d2 := reflect_vel d1 (seg_normal_outward seg) in
          (d3 <- mark_for_split d2 (vneg (seg_normal_outward seg)) ;; ret (true, d3))%m
        else ret (false, d)
      else ret (false, d)
  | None => ret (false, d)
  end.

Definition collide_polygon (segments : list Segment) (manual_offset : R)
    (d : Dot) (dt : R) : M (bool * Dot) :=
  match predictive_sweep d manual_offset segments with
  | Some hit => resolve_predicted d manual_offset hit
  | None => safety_net d manual_offset dt segments
  end.

(** [Simulation.handle_collisions]: the returned boolean is [collided], the
    returned dot is the dot after the mutations of the call. *)
Definition handle_collisions (s : Simulation) (d : Dot) (dt : R) : M (bool * Dot) :=
  let manual_offset :=
    Config.dict_get Config.COLLISION_BOUNDS_INWARD_OFFSET (current_shape_name s) 0 in
  match current_shape_data s with
  | CircleShape radius => collide_circle radius manual_offset d dt
  | PolygonShape _ segments => collide_polygon segments manual_offset d dt
  end.

(* ================================================================= *)
(** ** simulation.py: the per-tick update *)

(** Loop state of the scan over [self.dots].  Objects are compared by
    identity in [d not in dots_to_remove], and a dot enters
    [dots_to_remove] in its own iteration only, so the list comprehension
    that follows the loop keeps exactly the dots collected in [survivors]. *)
Record Scan : Type := mkScan {
  survivors : list Dot;
  dots_to_add : list Dot;
  dots_to_remove : list Dot
}.

(** The collide-or-move statement of the loop body. *)
Definition collide_or_move (s : Simulation) (dt : R) (d : Dot) : M Dot :=
  (r <- handle_collisions s d dt ;;
   let '(collision_occurred, d1) := r in
   ret (if negb collision_occurred then move d1 dt else d1))%m.

(** The loop body; [n] is [len(self.dots)], constant during the scan. *)
Definition scan_dot (s : Simulation) (dt : R) (n : nat) (acc : Scan) (d : Dot)
  : M Scan :=
  (d2 <- collide_or_move s dt d ;;
   sp <- should_split d2 ;;
   if sp : bool then
     if (Z.of_nat n + Z.of_nat (List.length (dots_to_add acc))
         - Z.of_nat (List.length (dots_to_remove acc)) <? dot_limit s)%Z
     then
       (r <- split d2 ;;
        let '(d3, new_splits) := r in
        ret (mkScan (survivors acc) (dots_to_add acc ++ new_splits)
                    (dots_to_remove acc ++ [d3])))
     else
       ret (mkScan (survivors acc ++ [set_needs_split d2 false])
                   (dots_to_add acc) (dots_to_remove acc))
   else
     ret (mkScan (survivors acc ++ [d2]) (dots_to_add acc) (dots_to_remove acc)))%m.

Fixpoint scan_dots (s : Simulation) (dt : R) (n : nat) (acc : Scan) (ds : list Dot)
  : M Scan :=
  match ds with
  | [] => ret acc
  | d :: ds' => (acc' <- scan_dot s dt n acc d ;; scan_dots s dt n acc' ds')%m
  end.

(** The spawn block at the head of [update]. *)
Definition spawn_block (s : Simulation) (current_time : Z) : M Simulation :=
  if (negb (first_unpause s)
      && (Config.REGULAR_SPAWN_INTERVAL_MS <=? current_time - last_spawn_time s)%Z)%bool
  then
    (s1 <- (if (Z.of_nat (List.length (dots s)) <? dot_limit s)%Z
            then spawn_dot s else ret s) ;;
     ret (mkSim (shape_definitions s1) (current_shape_name s1)
                (current_shape_data s1)
                (dots s1) (paused s1) (running s1) (dot_limit s1)
                current_time (limit_reached_paused s1) (first_unpause s1)))%m
  else ret s.

(** The "Limit check" at the end of [update]. *)
Definition limit_check (s : Simulation) : Simulation :=
  if ((dot_limit s <=? Z.of_nat (List.length (dots s)))%Z
      && negb (limit_reached_paused s))%bool
  then mkSim (shape_definitions s) (current_shape_name s) (current_shape_data s)
             (dots s) true (running s) (dot_limit s) (last_spawn_time s)
             true (first_unpause s)
  else s.

Definition set_dots (s : Simulation) (ds : list Dot) : Simulation :=
  mkSim (shape_definitions s) (current_shape_name s) (current_shape_data s)
        ds (paused s) (running s) (dot_limit s) (last_spawn_time s)
        (limit_reached_paused s) (first_unpause s).

(** [Simulation.update] *)
Definition update (s : Simulation) (dt : R) : M Simulation :=
  if paused s then ret s
  else
    (current_time <- get_ticks ;;
     s1 <- spawn_block s current_time ;;
     acc <- scan_dots s1 dt (List.length (dots s1)) (mkScan [] [] []) (dots s1) ;;
     ret (limit_check (set_dots s1 (survivors acc ++ dots_to_add acc))))%m.

(** One iteration of the loop of [Simulation.run]: the frame time is clamped
    to 0.1 s, the pending events are handled, and the state is updated
    unless the simulation was stopped. *)
Definition tick (s : Simulation) (frame : list Event * R) : M Simulation :=
  let '(events, dt_raw) := frame in
  let dt := if 1 / 10 <? dt_raw then 1 / 10 else dt_raw in
  (s1 <- handle_input s events ;;
   if running s1 then update s1 dt else ret s1)%m.

Fixpoint run_ticks (s : Simulation) (frames : list (list Event * R)) : M Simulation :=
  match frames with
  | [] => ret s
  | f :: fs => (s' <- tick s f ;; run_ticks s' fs)%m
  end.

(** The program from start-up through the given frames:
    [Simulation().run()] cut after finitely many iterations of its loop. *)
Definition run (noise2 : Z -> R -> R -> R) (frames : list (list Event * R))
  : M Simulation :=
  (s0 <- Simulation_init noise2 ;; run_ticks s0 frames)%m.

(* ================================================================= *)
(** ** The blob radii as the specification words them *)

(** One pass computes [radius = clamp(base_radius + amplitude * noise,
    base_radius * 0.2, inf)] for each of the 360 angles; the radii are then
    rescaled by [1 / max(generated_factor)], a factor being a radius
    relative to the target extent, and clamped to the extent. *)
Module AmebaSpec.

Definition radius (noise2 : R -> R -> R) (i : nat) : R :=
  Rmax (Ameba.base_r * (2 / 10))
       (Ameba.base_r + Ameba.amplitude * Ameba.noise_val noise2 i).



End AmebaSpec.

(* ================================================================= *)
(** ** Predicates used in the statements *)

(** [resolved d w d' w']: the dot [d'] is [d] after a collision was
    resolved, that is with its position set to some corrected point [p], its
    velocity reflected about some normal [n] (unless negligible) and
    [mark_for_split] called with some normal [m]. *)
Definition resolved (d : Dot) (w : World) (d' : Dot) (w' : World) : Prop :=
  exists p n m, mark_for_split (reflect_vel (set_pos d p) n) m w = (d', w').

(** What a branch of the engine returns: either "no collision" with the
    dot and the world untouched, or "collision" with the dot resolved. *)
Definition engine_outcome (d : Dot) (w : World) (r : bool * Dot * World) : Prop :=
  (r = (false, d, w))
  \/ (fst (fst r) = true /\ resolved d w (snd (fst r)) (snd r)).

(** An edge is a candidate of the predictive check when the loop body
    accepts it while nothing is selected yet. *)
Definition edge_candidate (d : Dot) (manual_offset : R) (seg : Segment) : bool :=
  match sweep_step d manual_offset None seg with
  | Some _ => true
  | None => false
  end.

(** The time component of a selection. *)
Definition hit_time (h : Hit) : R := fst (fst h).

(** The projection that the loop body compares with the segment length. *)
Definition proj_on_segment (d : Dot) (manual_offset : R) (seg : Segment) : R :=
  vdot ((pos d +v vel d *v time_to_hit_line d manual_offset seg) -v v_start seg)%vec
       (seg_vec seg).

(** A dot marked for split carries a unit normal. *)
Definition unit_when_marked (d : Dot) : Prop :=
  needs_split d = true ->
  exists n, last_collision_normal d = Some n /\ length n = 1.

(** The stored normal is not cleared on the way from [d] to [d']. *)
Definition keeps_normal (d d' : Dot) : Prop :=
  last_collision_normal d <> None -> last_collision_normal d' <> None.

(** The population is within the cap, and the cap-reached flag is only set
    while the simulation is paused. *)
Definition count (s : Simulation) : Z := Z.of_nat (List.length (dots s)).

Definition cap_inv (s : Simulation) : Prop :=
  (count s <= dot_limit s)%Z
  /\ (limit_reached_paused s = true -> paused s = true).

(** The three ways in which one iteration of the scan, for a dot that
    left the collide-or-move statement as [d2], extends the loop state:
    the split is executed, the split is blocked by the cap, or no split is
    due. *)
Definition queued (n : nat) (acc : Scan) : Z :=
  (Z.of_nat n + Z.of_nat (List.length (dots_to_add acc))
   - Z.of_nat (List.length (dots_to_remove acc)))%Z.

Definition split_executed (s : Simulation) (n : nat) (acc acc' : Scan) (d2 : Dot)
  : Prop :=
  needs_split d2 = true
  /\ (queued n acc < dot_limit s)%Z
  /\ survivors acc' = survivors acc
  /\ exists c1 c2 parent,
       dots_to_add acc' = dots_to_add acc ++ [c1; c2]
       /\ dots_to_remove acc' = dots_to_remove acc ++ [parent]
       /\ needs_split c1 = false /\ needs_split c2 = false
       /\ needs_split parent = false /\ last_collision_normal parent = None.

Definition split_blocked (s : Simulation) (n : nat) (acc acc' : Scan) (d2 : Dot)
  : Prop :=
  needs_split d2 = true
  /\ (dot_limit s <= queued n acc)%Z
  /\ survivors acc' = survivors acc ++ [set_needs_split d2 false]
  /\ dots_to_add acc' = dots_to_add acc
  /\ dots_to_remove acc' = dots_to_remove acc.

Definition split_not_due (acc acc' : Scan) (d2 : Dot) : Prop :=
  survivors acc' = survivors acc ++ [d2]
  /\ dots_to_add acc' = dots_to_add acc
  /\ dots_to_remove acc' = dots_to_remove acc.

Definition dots_unit (s : Simulation) : Prop :=
  Forall unit_when_marked (dots s).

(* ================================================================= *)
(** ** Concrete data used by the examples below *)

(** A world whose clock always reads [t] and whose random samples are all
    [u] (reals) and [0] (integers). *)
Definition const_world (t : Z) (u : R) : World :=
  mkWorld (fun _ => t) 0 (fun _ => u) 0 (fun _ => 0%Z) 0.

Definition white : Color := (255, 255, 255)%Z.

(** A dot that was marked for split at time 0 with the normal [(1, 0)]. *)
Definition marked_dot : Dot :=
  mkDot (mkVec 0 0) (mkVec 3 4) white true 0%Z (Some (mkVec 1 0)).

(** The state in which the population cap was reached for the second
    time: 20000 dots under a cap that was already raised once. *)
Definition second_cap_reached : Simulation :=
  mkSim [] "Circle" (CircleShape max_extent_radius)
        (repeat marked_dot (Z.to_nat 20000)) true true 20000%Z 0%Z true false.

(** A vertical wall from (100, 0) to (100, 10) with outward normal (1, 0),
    as [define_shapes] builds it from these two vertices, and a dot one
    pixel inside of it that drifts towards it at one pixel per second. *)
Definition wall_segment : Segment :=
  mkSeg (mkVec 100 0) (mkVec 100 10) (mkVec 0 10) 100 (mkVec 1 0).

Definition slow_dot : Dot :=
  mkDot (mkVec 99 5) (mkVec 1 0) white false 0%Z None.

(** The state right after a reset, and a first frame in which the space
    bar starts the simulation. *)
Definition fresh_sim : Simulation :=
  mkSim [] "Circle" (CircleShape max_extent_radius)
        [] true true Config.INITIAL_DOT_LIMIT 0%Z false true.

Definition start_frames : list (list Event * R) :=
  [ ([KEYDOWN K_SPACE], 1 / 60) ].

(** A running simulation one dot short of its cap, and the loop state of
    its scan after one split was executed: two children queued, one parent
    queued for removal. *)
Definition nearly_full_sim : Simulation :=
  mkSim [] "Circle" (CircleShape max_extent_radius)
        (repeat marked_dot (Z.to_nat 9999)) false true Config.INITIAL_DOT_LIMIT
        0%Z false false.

Definition child_dot : Dot := Dot_init 0 0 200 0 white.

Definition one_split_queued : Scan :=
  mkScan [] [child_dot; child_dot]
         [mkDot (mkVec 0 0) (mkVec 3 4) white false 0%Z None].

(** A dot that is half a millionth of a pixel short of the collision line
    of that wall. *)
Definition grazing_dot : Dot :=
  mkDot (mkVec (975 / 10 - 1 / 2000000) 5) (mkVec 1 0) white false 0%Z None.

(** A simulation whose active boundary is a 'Square' polygon holding that
    wall (inward offset -10), with the slow dot as only particle. *)
Definition wall_sim : Simulation :=
  mkSim [] "Square" (PolygonShape [mkVec 100 0; mkVec 100 10] [wall_segment])
        [slow_dot] false true Config.INITIAL_DOT_LIMIT 0%Z false false.

(* ================================================================= *)
(** ** Well-formed boundaries *)

(** A segment record whose outward normal has length one, and a shape all
    of whose segments are such. *)
Definition segment_ok (seg : Segment) : Prop :=
  length_squared (seg_normal_outward seg) = 1.

Definition shape_ok (shape : ShapeData) : Prop :=
  match shape with
  | CircleShape _ => True
  | PolygonShape _ segments => Forall segment_ok segments
  end.

(** The distance from the centre at which the ['circle'] branch holds a
    dot: [collision_distance] in [handle_collisions]. *)
Definition collision_distance (radius manual_offset : R) : R :=
  Rmax 0 (radius - Config.BOUNDARY_THICKNESS / 2 - manual_offset - Config.DOT_RADIUS).

(** The edge picked by the safety-net loop of [handle_collisions], with its
    overlap. *)
Definition safety_choice (d : Dot) (manual_offset dt : R) (segments : list Segment)
  : option (R * Segment) :=
  fold_left (safety_step (pos d +v vel d *v dt)%vec manual_offset) segments None.

(** The proximity test of the safety-net loop. *)
Definition near_edge (next_pos : Vector2) (seg : Segment) : bool :=
  negb (proximity_threshold_sq
        <? length_squared
             (next_pos -v find_closest_point_on_segment next_pos (v_start seg) (v_end seg))%vec).

(** All boundaries of a simulation are well formed, and every dot moves at
    the configured speed. *)
Definition speed_inv (s : Simulation) : Prop :=
  shape_ok (current_shape_data s)
  /\ Forall (fun entry => shape_ok (snd entry)) (shape_definitions s)
  /\ Forall (fun d => length (vel d) = Config.INITIAL_DOT_SPEED) (dots s).

(** A dot three pixels short of that wall that crosses the collision line
    within one step of 15 ms. *)
Definition fast_dot : Dot :=
  mkDot (mkVec 97 5) (mkVec 200 0) white false 0%Z None.

(** The recorded shape name and the active boundary data agree. *)
Definition shape_consistent (s : Simulation) : Prop :=
  shape_lookup (shape_definitions s) (current_shape_name s)
  = Some (current_shape_data s).

(** The dropdown is built with [options_list=config.AVAILABLE_SHAPES]: its
    change events carry one of these names. *)
Definition event_from_dropdown (e : Event) : Prop :=
  match e with
  | UI_DROP_DOWN_MENU_CHANGED text => In text Config.AVAILABLE_SHAPES
  | _ => True
  end.

(** The vertex list of the 'Square' entry of [define_shapes], for a centre
    [(cx, cy)] and a half side [h]. *)
Definition square_vertices (cx cy h : R) : list Vector2 :=
  [ mkVec (cx - h) (cy - h); mkVec (cx + h) (cy - h);
    mkVec (cx + h) (cy + h); mkVec (cx - h) (cy + h) ].

Definition half_side : R := max_extent_radius / sqrt 2.

(* ================================================================= *)
(** ** The outcome of [handle_collisions] in closed form *)

(** The inward offset that [handle_collisions] looks up for the active
    shape. *)
Definition active_offset (s : Simulation) : R :=
  Config.dict_get Config.COLLISION_BOUNDS_INWARD_OFFSET (current_shape_name s) 0.

(** [hit_resolution s d dt p n]: a call [handle_collisions(dot, dt)] finds a
    collision, puts the dot at [p] and reflects its velocity about the
    outward normal [n].

    On a circle the next position is at the collision distance from the
    centre or beyond it (up to [epsilon]); [n] is the opposite of the unit
    vector from the next position to the centre (of [(0, 1)] when the next
    position is within [epsilon] of the centre), and [p] lies on the ray
    from the centre through the next position, at the collision distance
    less [epsilon].

    On a polygon, either the predictive check selected an edge: then [n] is
    the normal of that edge, towards which the dot moves, and [p] is the
    collision point, pushed back along [n] to [epsilon] behind the
    collision line unless it is already that far behind it.  Or the
    predictive check selected nothing and the safety net picked an edge
    near the next position that the next position overlaps by more than
    [epsilon] while the dot moves towards it: then [n] is the normal of
    that edge and [p] the next position pushed back along [n] by the
    overlap plus [epsilon]. *)
Definition hit_resolution (s : Simulation) (d : Dot) (dt : R) (p n : Vector2) : Prop :=
  let off := active_offset s in
  let next_pos := (pos d +v vel d *v dt)%vec in
  match current_shape_data s with
  | CircleShape radius =>
      let cd := collision_distance radius off in
      let vec_to_center := (center_pos -v next_pos)%vec in
      cd * cd - epsilon <= length_squared vec_to_center
      /\ exists normal_to_center,
           (epsilon < length vec_to_center ->
            normal_to_center = normalize vec_to_center)
           /\ (length vec_to_center <= epsilon -> normal_to_center = mkVec 0 1)
           /\ length_squared normal_to_center = 1
           /\ n = vneg normal_to_center
           /\ p = (center_pos -v normal_to_center *v (cd - epsilon))%vec
  | PolygonShape _ segments =>
      (exists t seg,
         let hit_point := (pos d +v vel d *v t)%vec in
         predictive_sweep d off segments = Some (t, seg, hit_point)
         /\ In seg segments
         /\ t = time_to_hit_line d off seg
         /\ n = seg_normal_outward seg
         /\ epsilon < vdot (vel d) n
         /\ (- epsilon < signed_overlap hit_point seg off ->
             p = (hit_point -v n *v (signed_overlap hit_point seg off + epsilon))%vec)
         /\ (signed_overlap hit_point seg off <= - epsilon -> p = hit_point))
      \/ (predictive_sweep d off segments = None
          /\ exists m seg,
               safety_choice d off dt segments = Some (m, seg)
               /\ In seg segments
               /\ near_edge next_pos seg = true
               /\ m = signed_overlap next_pos seg off
               /\ epsilon < m
               /\ n = seg_normal_outward seg
               /\ epsilon < vdot (vel d) n
               /\ p = (next_pos -v n *v (m + epsilon))%vec)
  end.

(** [no_hit s d dt]: a call [handle_collisions(dot, dt)] finds no
    collision.  On a circle the next position is closer to the centre than
    the collision distance (by more than [epsilon] in the squares).  On a
    polygon the predictive check selects no edge, and the safety net picks
    no edge, or one that the next position overlaps by at most [epsilon], or
    one that the dot does not move towards. *)
Definition no_hit (s : Simulation) (d : Dot) (dt : R) : Prop :=
  let off := active_offset s in
  let next_pos := (pos d +v vel d *v dt)%vec in
  match current_shape_data s with
  | CircleShape radius =>
      length_squared (center_pos -v next_pos)%vec
      < collision_distance radius off * collision_distance radius off - epsilon
  | PolygonShape _ segments =>
      predictive_sweep d off segments = None
      /\ match safety_choice d off dt segments with
         | Some (m, seg) =>
             m <= epsilon \/ vdot (vel d) (seg_normal_outward seg) <= epsilon
         | None => True
         end
  end.

(* ================================================================= *)
(** ** The parts of one update pass *)

(** The state and the world in which the scan of an update pass starts:
    [self] after [current_time = pygame.time.get_ticks()] and the spawn
    block, for a pass that starts in the world [w]. *)
Definition after_spawn (s : Simulation) (w : World) : Simulation * World :=
  (current_time <- get_ticks ;; spawn_block s current_time)%m w.

(** The loop state in which the scan of that pass ends. *)
Definition pass_scan (s : Simulation) (dt : R) (w : World) : Scan :=
  let s1 := fst (after_spawn s w) in
  fst (scan_dots s1 dt (List.length (dots s1)) (mkScan [] [] []) (dots s1)
         (snd (after_spawn s w))).

(** The number of dots that the spawn block of that pass appends: one when
    the simulation was started before, the spawn interval has elapsed on
    the clock reading of the pass, and the population is below the cap;
    none otherwise. *)
Definition spawned (s : Simulation) (w : World) : nat :=
  if (negb (first_unpause s)
      && (Config.REGULAR_SPAWN_INTERVAL_MS
          <=? clock w (clock_calls w) - last_spawn_time s)%Z
      && (count s <? dot_limit s)%Z)%bool
  then 1%nat else 0%nat.

(** Whether the iteration of the scan for the dot [d], entered with the
    loop state [acc] in the world [w], executes a split: the dot, after the
    collide-or-move statement, is due ([should_split] answers [True]), and
    the population with the splits queued so far is below the cap. *)
Definition executes_split (s : Simulation) (dt : R) (n : nat) (acc : Scan)
    (d : Dot) (w : World) : bool :=
  let r := collide_or_move s dt d w in
  (fst (should_split (fst r) (snd r)) && (queued n acc <? dot_limit s)%Z)%bool.

(** The number of iterations of the scan over [ds] that execute a split,
    the loop state and the world being threaded through the iterations as
    [scan_dots] does. *)
Fixpoint count_splits (s : Simulation) (dt : R) (n : nat) (acc : Scan)
    (ds : list Dot) (w : World) : nat :=
  match ds with
  | [] => 0%nat
  | d :: ds' =>
      ((if executes_split s dt n acc d w then 1 else 0)
       + count_splits s dt n (fst (scan_dot s dt n acc d w)) ds'
           (snd (scan_dot s dt n acc d w)))%nat
  end.

(** The number of splits executed in the scan of an update pass. *)
Definition splits_executed (s : Simulation) (dt : R) (w : World) : nat :=
  let s1 := fst (after_spawn s w) in
  count_splits s1 dt (List.length (dots s1)) (mkScan [] [] []) (dots s1)
    (snd (after_spawn s w)).

(* ================================================================= *)
(** * Properties *)

(** ** Booleans of real comparisons *)

Lemma Rltb_true_iff (x y : R) : (x <? y) = true <-> x < y.
Proof. unfold Rltb. destruct (Rlt_dec x y); split; intros; try easy. Qed.

Lemma Rltb_false_iff (x y : R) : (x <? y) = false <-> y <= x.
Proof.
  unfold Rltb. destruct (Rlt_dec x y); split; intros; try easy; lra.
Qed.

Lemma Rleb_true_iff (x y : R) : (x <=? y) = true <-> x <= y.
Proof. unfold Rleb. destruct (Rle_dec x y); split; intros; try easy. Qed.

Lemma Rleb_false_iff (x y : R) : (x <=? y) = false <-> y < x.
Proof.
  unfold Rleb. destruct (Rle_dec x y); split; intros; try easy; lra.
Qed.

(** Decide every comparison of the goal whose outcome [lra] can settle. *)
Ltac rcmp :=
  repeat match goal with
    | |- context [ ?a <? ?b ] =>
        first [ rewrite (proj2 (Rltb_true_iff a b)) by lra
              | rewrite (proj2 (Rltb_false_iff a b)) by lra ]
    | |- context [ ?a <=? ?b ] =>
        first [ rewrite (proj2 (Rleb_true_iff a b)) by lra
              | rewrite (proj2 (Rleb_false_iff a b)) by lra ]
    end.

(** ** Vectors *)

Lemma vec_eq (a b : Vector2) : vx a = vx b -> vy a = vy b -> a = b.
Proof. destruct a, b; simpl; intros; subst; reflexivity. Qed.

Lemma length_squared_nonneg (a : Vector2) : 0 <= length_squared a.
Proof. unfold length_squared, vdot. nra. Qed.

Lemma length_unit (n : Vector2) : length_squared n = 1 -> length n = 1.
Proof. unfold length. intros ->. apply sqrt_1. Qed.

Lemma normalize_unit (n : Vector2) : length_squared n = 1 -> normalize n = n.
Proof.
  intros H. unfold normalize. rewrite (length_unit n H).
  apply vec_eq; simpl; field.
Qed.

Lemma normalize_length_squared (a : Vector2) :
  0 < length_squared a -> length_squared (normalize a) = 1.
Proof.
  intros H. unfold normalize, length.
  assert (Hs : 0 < sqrt (length_squared a)) by (apply sqrt_lt_R0; exact H).
  assert (Hq : sqrt (length_squared a) * sqrt (length_squared a) = length_squared a)
    by (apply sqrt_sqrt; lra).
  unfold length_squared, vdot in *. simpl.
  set (r := sqrt (vx a * vx a + vy a * vy a)) in *.
  replace (vx a / r * (vx a / r) + vy a / r * (vy a / r))
    with ((vx a * vx a + vy a * vy a) / (r * r)) by (field; lra).
  rewrite Hq. field. lra.
Qed.

(** Mirror reflection about a unit normal is the textbook formula and keeps
    the squared length. *)
Lemma reflect_unit_formula (v n : Vector2) :
  length_squared n = 1 ->
  reflect v n = (v -v n *v (2 * vdot v n))%vec.
Proof.
  intros H. unfold reflect. rewrite (normalize_unit n H).
  apply vec_eq; simpl; ring.
Qed.

Lemma reflect_length_squared (v n : Vector2) :
  length_squared n = 1 -> length_squared (reflect v n) = length_squared v.
Proof.
  intros H. rewrite (reflect_unit_formula v n H).
  unfold length_squared, vdot in *. simpl. 
  set (a := vx n) in *. set (b := vy n) in *.
  set (x := vx v). set (y := vy v).
  replace ((x - a * (2 * (x * a + y * b))) * (x - a * (2 * (x * a + y * b))) +
           (y - b * (2 * (x * a + y * b))) * (y - b * (2 * (x * a + y * b))))
    with (x * x + y * y + 4 * (x * a + y * b) * (x * a + y * b) * ((a * a + b * b) - 1))
    by ring.
  rewrite H. ring.
Qed.

(** C9 — On collision the velocity of a dot whose squared speed exceeds
    [epsilon] is replaced by its reflection [v - 2 (v . n) n] about the unit
    normal [n], and the reflected velocity has the same length as [v]: the
    speed is preserved (exactly, over the reals). *)
Theorem reflection_preserves_speed (d : Dot) (n : Vector2) :
  epsilon < length_squared (vel d) ->
  length_squared n = 1 ->
  vel (reflect_vel d n) = (vel d -v n *v (2 * vdot (vel d) n))%vec
  /\ length (vel (reflect_vel d n)) = length (vel d).
Proof.
  intros Hv Hn. unfold reflect_vel.
  rewrite (proj2 (Rltb_true_iff _ _) Hv). simpl.
  split.
  - apply reflect_unit_formula; exact Hn.
  - unfold length. rewrite reflect_length_squared by exact Hn. reflexivity.
Qed.

Lemma reflection_preserves_speed_witness :
  epsilon < length_squared (vel marked_dot)
  /\ length_squared (mkVec 1 0) = 1
  /\ length (vel (reflect_vel marked_dot (mkVec 1 0))) = length (vel marked_dot).
Proof.
  assert (H1 : epsilon < length_squared (vel marked_dot))
    by (unfold epsilon, length_squared, vdot; simpl; lra).
  assert (H2 : length_squared (mkVec 1 0) = 1)
    by (unfold length_squared, vdot; simpl; lra).
  split; [exact H1 | split; [exact H2 |]].
  exact (proj2 (reflection_preserves_speed marked_dot (mkVec 1 0) H1 H2)).
Defined.

(** ** dot.py: [mark_for_split] *)

(** C10 — A call of [mark_for_split] on a dot whose [needs_split] flag is
    already set changes nothing: the dot (flag, timer start, stored normal
    and all other fields) is returned as it was, and the clock is not read. *)
Theorem mark_for_split_pending_noop (d : Dot) (n : Vector2) (w : World) :
  needs_split d = true ->
  mark_for_split d n w = (d, w)
  /\ needs_split (fst (mark_for_split d n w)) = needs_split d
  /\ split_timer_start (fst (mark_for_split d n w)) = split_timer_start d
  /\ last_collision_normal (fst (mark_for_split d n w)) = last_collision_normal d.
Proof.
  intros H. unfold mark_for_split. rewrite H. simpl. auto.
Qed.

Lemma mark_for_split_pending_noop_witness :
  needs_split marked_dot = true
  /\ mark_for_split marked_dot (mkVec 0 1) (const_world 70 0)
     = (marked_dot, const_world 70 0).
Proof.
  split; [reflexivity |].
  exact (proj1 (mark_for_split_pending_noop marked_dot (mkVec 0 1)
                  (const_world 70 0) eq_refl)).
Defined.

(** ** simulation.py: the space bar *)

Lemma spawn_dot_fields (s : Simulation) (w : World) :
  let s' := fst (spawn_dot s w) in
  dot_limit s' = dot_limit s
  /\ paused s' = paused s
  /\ limit_reached_paused s' = limit_reached_paused s
  /\ first_unpause s' = first_unpause s
  /\ List.length (dots s') = S (List.length (dots s)).
Proof.
  simpl. repeat split; try reflexivity.
  rewrite length_app. simpl. lia.
Qed.

Lemma first_unpause_block_fields (s : Simulation) (w : World) :
  let s' := fst (first_unpause_block s w) in
  dot_limit s' = dot_limit s
  /\ paused s' = paused s
  /\ limit_reached_paused s' = limit_reached_paused s.
Proof.
  unfold first_unpause_block.
  destruct (first_unpause s); [| simpl; auto].
  destruct ((0 <? dot_limit s)%Z && (List.length (dots s) =? 0)%nat)%bool;
    simpl; auto.
Qed.

(** C2 (as the code has it) — Unpausing while the cap-reached flag is set
    adds the configured initial cap to the population cap, clears the flag
    and leaves the simulation running; the new cap is twice the old one
    exactly when the old cap still was the initial cap. *)
Theorem unpause_adds_initial_limit (s : Simulation) (w : World) :
  paused s = true ->
  limit_reached_paused s = true ->
  let s' := fst (press_space s w) in
  dot_limit s' = (dot_limit s + Config.INITIAL_DOT_LIMIT)%Z
  /\ limit_reached_paused s' = false
  /\ paused s' = false
  /\ (dot_limit s' = (2 * dot_limit s)%Z <-> dot_limit s = Config.INITIAL_DOT_LIMIT).
Proof.
  intros Hp Hf. unfold press_space. rewrite Hp.
  pose proof (first_unpause_block_fields s w) as Hb.
  unfold bind. destruct (first_unpause_block s w) as [s1 w1]. simpl in Hb.
  destruct Hb as (Hl & _ & Hf1). rewrite Hf in Hf1.
  unfold limit_increase_block. rewrite Hf1.
  cbn [ret fst set_paused dot_limit limit_reached_paused paused].
  rewrite Hl. unfold Config.INITIAL_DOT_LIMIT.
  repeat split; try reflexivity; intros; lia.
Qed.

Lemma unpause_adds_initial_limit_witness :
  paused second_cap_reached = true
  /\ limit_reached_paused second_cap_reached = true
  /\ dot_limit (fst (press_space second_cap_reached (const_world 0 0))) = 30000%Z.
Proof.
  split; [reflexivity | split; [reflexivity |]].
  exact (proj1 (unpause_adds_initial_limit second_cap_reached (const_world 0 0)
                  eq_refl eq_refl)).
Defined.

(** C2, refuted as stated: at the second cap-reach event (cap 20000, flag
    set, paused) unpausing yields the cap 30000, not the double 40000. *)
Lemma unpause_does_not_double :
  paused second_cap_reached = true
  /\ limit_reached_paused second_cap_reached = true
  /\ dot_limit (fst (press_space second_cap_reached (const_world 0 0)))
     <> (2 * dot_limit second_cap_reached)%Z.
Proof.
  split; [reflexivity | split; [reflexivity |]].
  simpl. discriminate.
Qed.

(** ** Polar coordinates and [atan2] *)

Lemma sin_cos_sq (a : R) : cos a * cos a + sin a * sin a = 1.
Proof. pose proof (sin2_cos2 a) as H. unfold Rsqr in H. lra. Qed.

Lemma from_polar_length_squared (r phi : R) :
  length_squared (from_polar r phi) = r * r.
Proof.
  unfold length_squared, vdot, from_polar. simpl.
  pose proof (sin_cos_sq (radians phi)) as H.
  replace (r * cos (radians phi) * (r * cos (radians phi)) +
           r * sin (radians phi) * (r * sin (radians phi)))
    with (r * r * (cos (radians phi) * cos (radians phi)
                   + sin (radians phi) * sin (radians phi))) by ring.
  rewrite H. ring.
Qed.

Lemma from_polar_length (r phi : R) : 0 <= r -> length (from_polar r phi) = r.
Proof.
  intros H. unfold length. rewrite from_polar_length_squared.
  apply sqrt_square; exact H.
Qed.

Lemma normalize_from_polar (r phi : R) :
  0 < r -> normalize (from_polar r phi) = from_polar 1 phi.
Proof.
  intros H. unfold normalize. rewrite from_polar_length by lra.
  unfold from_polar. apply vec_eq; simpl; field; lra.
Qed.

Lemma radians_degrees (a : R) : radians (degrees a) = a.
Proof.
  unfold radians, degrees. pose proof PI_RGT_0. field. lra.
Qed.

Lemma sqrt_inv_sq (x : R) : 0 < x -> sqrt (1 / (x * x)) = 1 / x.
Proof.
  intros H. replace (1 / (x * x)) with ((1 / x) * (1 / x)) by (field; lra).
  apply sqrt_square. apply Rlt_le. apply Rdiv_lt_0_compat; lra.
Qed.

Lemma one_plus_ratio_sq (x y : R) :
  x <> 0 -> x * x + y * y = 1 -> 1 + (y / x)² = 1 / (x * x).
Proof. intros Hx H. unfold Rsqr. field_simplify_eq; [lra | exact Hx]. Qed.

(** On the unit circle [atan2 y x] is an angle of the point [(x, y)]. *)
Lemma atan2_unit (x y : R) :
  x * x + y * y = 1 -> cos (atan2 y x) = x /\ sin (atan2 y x) = y.
Proof.
  intros H. unfold atan2.
  destruct (Rlt_dec 0 x) as [Hx | Hx].
  - rewrite (proj2 (Rltb_true_iff _ _) Hx).
    rewrite cos_atan, sin_atan, one_plus_ratio_sq by lra.
    rewrite sqrt_inv_sq by lra. split; field; lra.
  - rewrite (proj2 (Rltb_false_iff 0 x)) by lra.
    destruct (Rlt_dec x 0) as [Hx' | Hx'].
    + rewrite (proj2 (Rltb_true_iff _ _) Hx').
      assert (Hc : cos (atan (y / x)) = - x /\ sin (atan (y / x)) = - y).
      { rewrite cos_atan, sin_atan, one_plus_ratio_sq by lra.
        replace (x * x) with ((- x) * (- x)) by ring.
        rewrite sqrt_inv_sq by lra. split; field; lra. }
      destruct Hc as [Hc Hs].
      destruct (0 <=? y).
      * rewrite neg_cos, neg_sin, Hc, Hs. split; ring.
      * unfold Rminus. rewrite cos_plus, sin_plus, cos_neg, sin_neg,
          cos_PI, sin_PI, Hc, Hs. split; ring.
    + rewrite (proj2 (Rltb_false_iff x 0)) by lra.
      assert (x = 0) by lra. subst x.
      destruct (Rlt_dec 0 y) as [Hy | Hy].
      * rewrite (proj2 (Rltb_true_iff _ _) Hy).
        rewrite cos_PI2, sin_PI2. split; nra.
      * rewrite (proj2 (Rltb_false_iff 0 y)) by lra.
        assert (Hy' : y < 0) by nra.
        rewrite (proj2 (Rltb_true_iff _ _) Hy').
        rewrite cos_neg, sin_neg, cos_PI2, sin_PI2. split; nra.
Qed.

Lemma atan2_0_1 : atan2 0 1 = 0.
Proof.
  unfold atan2. rewrite (proj2 (Rltb_true_iff 0 1)) by lra.
  replace (0 / 1) with 0 by field. apply atan_0.
Qed.

(** The angle, in degrees, that [split] derives from a stored normal. *)
Lemma stored_normal_angle_eq (n : Vector2) :
  - angle_to n (mkVec 1 0) = degrees (atan2 (vy n) (vx n)).
Proof.
  unfold angle_to. simpl. rewrite atan2_0_1. unfold degrees.
  unfold Rdiv. ring.
Qed.

Lemma from_polar_normal_angle (n : Vector2) :
  length_squared n = 1 -> from_polar 1 (degrees (atan2 (vy n) (vx n))) = n.
Proof.
  intros H. unfold from_polar. rewrite radians_degrees.
  destruct (atan2_unit (vx n) (vy n) H) as [Hc Hs].
  apply vec_eq; simpl; lra.
Qed.

(** ** dot.py: [split] *)

Lemma child_offset_range (u : R) :
  0 <= u <= 1 -> Rabs (child_offset u) <= Config.SPLIT_ANGLE_RANGE / 2.
Proof.
  intros H. unfold child_offset, Config.SPLIT_ANGLE_RANGE.
  apply Rabs_le. lra.
Qed.

Lemma split_child_spec (p : Vector2) (a : R) (w : World) :
  let c := fst (split_child p a w) in
  let w' := snd (split_child p a w) in
  vel c = from_polar Config.INITIAL_DOT_SPEED (a + child_offset (rand w (rand_calls w)))
  /\ pos c = (p +v normalize (vel c) *v (Config.DOT_RADIUS * (11 / 10)))%vec
  /\ needs_split c = false
  /\ last_collision_normal c = None
  /\ rand w' = rand w
  /\ rand_calls w' = S (rand_calls w).
Proof.
  unfold split_child, bind, uniform, random_color, randint, bind, ret, child_offset.
  simpl.
  rewrite (proj2 (Rltb_true_iff 0 Config.INITIAL_DOT_SPEED))
    by (unfold Config.INITIAL_DOT_SPEED; lra).
  simpl. repeat split; reflexivity.
Qed.

Lemma split_children (d : Dot) (w : World) :
  let a := - angle_to (split_normal d) (mkVec 1 0) in
  let w1 := snd (split_child (pos d) a w) in
  split d w =
    ((mkDot (pos d) (vel d) (color d) false (split_timer_start d) None,
      [fst (split_child (pos d) a w); fst (split_child (pos d) a w1)]),
     snd (split_child (pos d) a w1)).
Proof.
  cbv zeta. unfold split, bind, ret.
  set (a := - angle_to (split_normal d) (mkVec 1 0)).
  destruct (split_child (pos d) a w) as [c1 w1]. simpl.
  destruct (split_child (pos d) a w1) as [c2 w2]. reflexivity.
Qed.

Lemma speed_nonneg : 0 <= Config.INITIAL_DOT_SPEED.
Proof. unfold Config.INITIAL_DOT_SPEED. lra. Qed.

(** C5 (as the code has it) — [split] returns exactly two children and
    each of them moves at the configured initial speed, whatever the
    parent's velocity; the sum of the two speeds is therefore twice the
    configured initial speed. *)
Theorem split_children_speed (d : Dot) (w : World) :
  exists c1 c2,
    snd (fst (split d w)) = [c1; c2]
    /\ length (vel c1) = Config.INITIAL_DOT_SPEED
    /\ length (vel c2) = Config.INITIAL_DOT_SPEED
    /\ length (vel c1) + length (vel c2) = 2 * Config.INITIAL_DOT_SPEED.
Proof.
  rewrite split_children. cbv zeta. cbn [fst snd].
  set (a := - angle_to (split_normal d) (mkVec 1 0)).
  set (w1 := snd (split_child (pos d) a w)).
  destruct (split_child_spec (pos d) a w) as (Hv1 & _).
  destruct (split_child_spec (pos d) a w1) as (Hv2 & _).
  eexists; eexists; split; [reflexivity |].
  rewrite Hv1, Hv2, !from_polar_length by exact speed_nonneg.
  repeat split; lra.
Qed.

(** C6 — For a dot whose stored normal is the unit vector [n], [split]
    returns exactly two children.  With [normal_angle] the angle of [n] in
    degrees, each child's velocity is the polar vector of length
    [INITIAL_DOT_SPEED] at an angle within [SPLIT_ANGLE_RANGE / 2] of
    [normal_angle], and each child starts at the parent's position plus the
    unit vector of its velocity scaled by [DOT_RADIUS * 1.1].  The samples
    of [random.random()] lie in the unit interval. *)
Theorem split_geometry (d : Dot) (n : Vector2) (w : World) :
  last_collision_normal d = Some n ->
  length_squared n = 1 ->
  (forall k, 0 <= rand w k <= 1) ->
  let normal_angle := degrees (atan2 (vy n) (vx n)) in
  from_polar 1 normal_angle = n
  /\ exists c1 c2,
       snd (fst (split d w)) = [c1; c2]
       /\ Forall (fun c =>
            length (vel c) = Config.INITIAL_DOT_SPEED
            /\ (exists a,
                  Rabs (a - normal_angle) <= Config.SPLIT_ANGLE_RANGE / 2
                  /\ vel c = from_polar Config.INITIAL_DOT_SPEED a)
            /\ pos c = (pos d +v normalize (vel c) *v (Config.DOT_RADIUS * (11 / 10)))%vec)
          [c1; c2].
Proof.
  intros Hn Hu Hr normal_angle. split.
  - apply from_polar_normal_angle; exact Hu.
  - rewrite split_children. cbv zeta. cbn [fst snd].
    assert (Ha : - angle_to (split_normal d) (mkVec 1 0) = normal_angle).
    { unfold split_normal. rewrite Hn. apply stored_normal_angle_eq. }
    rewrite Ha.
    set (w1 := snd (split_child (pos d) normal_angle w)).
    destruct (split_child_spec (pos d) normal_angle w)
      as (Hv1 & Hp1 & _ & _ & Hr1 & _).
    destruct (split_child_spec (pos d) normal_angle w1) as (Hv2 & Hp2 & _).
    fold w1 in Hr1.
    eexists; eexists; split; [reflexivity |].
    repeat constructor.
    + rewrite Hv1. apply from_polar_length, speed_nonneg.
    + eexists; split; [| exact Hv1].
      replace (normal_angle + child_offset (rand w (rand_calls w)) - normal_angle)
        with (child_offset (rand w (rand_calls w))) by ring.
      apply child_offset_range, Hr.
    + exact Hp1.
    + rewrite Hv2. apply from_polar_length, speed_nonneg.
    + eexists; split; [| exact Hv2].
      replace (normal_angle + child_offset (rand w1 (rand_calls w1)) - normal_angle)
        with (child_offset (rand w1 (rand_calls w1))) by ring.
      apply child_offset_range. rewrite Hr1. apply Hr.
    + exact Hp2.
Qed.

Lemma split_geometry_witness :
  exists c1 c2,
    snd (fst (split marked_dot (const_world 60 (1 / 2)))) = [c1; c2]
    /\ length (vel c1) = Config.INITIAL_DOT_SPEED
    /\ length (vel c2) = Config.INITIAL_DOT_SPEED.
Proof.
  assert (H2 : length_squared (mkVec 1 0) = 1)
    by (unfold length_squared, vdot; simpl; lra).
  assert (H3 : forall k, 0 <= rand (const_world 60 (1 / 2)) k <= 1)
    by (intros k; simpl; lra).
  destruct (split_geometry marked_dot (mkVec 1 0) (const_world 60 (1 / 2))
              eq_refl H2 H3) as [_ (c1 & c2 & He & Hf)].
  exists c1, c2. split; [exact He |].
  split.
  - exact (proj1 (Forall_inv Hf)).
  - exact (proj1 (Forall_inv (Forall_inv_tail Hf))).
Defined.

Lemma from_polar_0 (r : R) : from_polar r 0 = mkVec r 0.
Proof.
  unfold from_polar, radians.
  replace (0 * PI / 180) with 0 by (unfold Rdiv; ring).
  rewrite cos_0, sin_0. apply vec_eq; simpl; ring.
Qed.

(** C5, refuted as stated: the dot marked with the normal [(1, 0)], split
    with both random samples equal to 1/2, has two children of velocity
    [(200, 0)].  Their speeds add up to 400 and their velocities to a vector
    of length 400; neither is the configured initial speed 200. *)
Lemma split_combined_speed_counterexample :
  exists c1 c2,
    snd (fst (split marked_dot (const_world 60 (1 / 2)))) = [c1; c2]
    /\ vel c1 = mkVec 200 0 /\ vel c2 = mkVec 200 0
    /\ length (vel c1) + length (vel c2) <> Config.INITIAL_DOT_SPEED
    /\ length (vel c1 +v vel c2)%vec <> Config.INITIAL_DOT_SPEED.
Proof.
  rewrite split_children. cbv zeta. cbn [fst snd].
  assert (Ha : - angle_to (split_normal marked_dot) (mkVec 1 0) = 0).
  { unfold split_normal. simpl last_collision_normal.
    rewrite stored_normal_angle_eq. simpl. rewrite atan2_0_1.
    unfold degrees, Rdiv. ring. }
  rewrite Ha.
  set (w := const_world 60 (1 / 2)).
  set (w1 := snd (split_child (pos marked_dot) 0 w)).
  destruct (split_child_spec (pos marked_dot) 0 w) as (Hv1 & _ & _ & _ & Hr1 & _).
  destruct (split_child_spec (pos marked_dot) 0 w1) as (Hv2 & _).
  fold w1 in Hr1. rewrite Hr1 in Hv2.
  assert (Ho : forall k, 0 + child_offset (rand w k) = 0).
  { intros k. unfold child_offset, Config.SPLIT_ANGLE_RANGE. simpl. lra. }
  rewrite Ho, from_polar_0 in Hv1. rewrite Ho, from_polar_0 in Hv2.
  unfold Config.INITIAL_DOT_SPEED in *.
  eexists; eexists; split; [reflexivity |].
  rewrite Hv1, Hv2. split; [reflexivity | split; [reflexivity |]].
  assert (Hl : length (mkVec 200 0) = 200).
  { unfold length, length_squared, vdot. simpl.
    replace (200 * 200 + 0 * 0) with (200 * 200) by ring.
    apply sqrt_square. lra. }
  assert (Hl2 : length (mkVec 200 0 +v mkVec 200 0)%vec = 400).
  { unfold length, length_squared, vdot, vadd. simpl.
    replace ((200 + 200) * (200 + 200) + (0 + 0) * (0 + 0)) with (400 * 400) by ring.
    apply sqrt_square. lra. }
  rewrite Hl, Hl2. split; lra.
Qed.

(** ** simulation.py: collide or move *)

Lemma mark_for_split_sets (d : Dot) (n : Vector2) (w : World) :
  needs_split (fst (mark_for_split d n w)) = true.
Proof.
  unfold mark_for_split.
  destruct (needs_split d) eqn:E; simpl; [exact E | reflexivity].
Qed.

Lemma set_pos_set_pos (d : Dot) (p q : Vector2) :
  set_pos (set_pos d p) q = set_pos d q.
Proof. reflexivity. Qed.

Lemma resolved_intro (d : Dot) (w : World) (p n m : Vector2) :
  engine_outcome d w
    (bind (mark_for_split (reflect_vel (set_pos d p) n) m)
          (fun d3 => ret (true, d3)) w).
Proof.
  right. unfold bind, ret.
  destruct (mark_for_split (reflect_vel (set_pos d p) n) m w) as [d' w'] eqn:E.
  simpl. split; [reflexivity |]. exists p, n, m. exact E.
Qed.

Lemma collide_circle_outcome (radius off : R) (d : Dot) (dt : R) (w : World) :
  engine_outcome d w (collide_circle radius off d dt w).
Proof.
  unfold collide_circle.
  match goal with |- context [if ?c then _ else _] => destruct c end.
  - apply resolved_intro.
  - left. reflexivity.
Qed.

Lemma resolve_predicted_outcome (d : Dot) (off : R) (hit : Hit) (w : World) :
  engine_outcome d w (resolve_predicted d off hit w).
Proof.
  destruct hit as [[t seg] p]. unfold resolve_predicted.
  destruct (- epsilon <? signed_overlap (pos (set_pos d p)) seg off).
  - rewrite set_pos_set_pos. apply resolved_intro.
  - apply resolved_intro.
Qed.

Lemma safety_net_outcome (d : Dot) (off dt : R) (segs : list Segment) (w : World) :
  engine_outcome d w (safety_net d off dt segs w).
Proof.
  unfold safety_net.
  destruct (fold_left _ segs None) as [[m seg] |]; [| left; reflexivity].
  destruct (epsilon <? m); [| left; reflexivity].
  destruct (epsilon <? vdot (vel d) (seg_normal_outward seg)); [| left; reflexivity].
  apply resolved_intro.
Qed.

Lemma handle_collisions_outcome (s : Simulation) (d : Dot) (dt : R) (w : World) :
  engine_outcome d w (handle_collisions s d dt w).
Proof.
  unfold handle_collisions.
  destruct (current_shape_data s) as [radius | verts segs].
  - apply collide_circle_outcome.
  - unfold collide_polygon.
    destruct (predictive_sweep d _ segs) as [hit |].
    + apply resolve_predicted_outcome.
    + apply safety_net_outcome.
Qed.

(** ** simulation.py: the predictive check *)

Lemma edge_candidate_iff (d : Dot) (off : R) (seg : Segment) :
  edge_candidate d off seg = true <->
  - epsilon
    < vdot (vel d)
        (find_closest_point_on_segment (pos d) (v_start seg) (v_end seg) -v pos d)%vec
  /\ epsilon < vdot (vel d) (seg_normal_outward seg)
  /\ - epsilon <= time_to_hit_line d off seg
  /\ - epsilon <= proj_on_segment d off seg <= seg_len_sq seg + epsilon.
Proof.
  unfold edge_candidate, sweep_step, proj_on_segment, below_min.
  set (t := time_to_hit_line d off seg).
  set (c := vdot (vel d) (_ -v pos d)%vec).
  set (vn := vdot (vel d) (seg_normal_outward seg)).
  set (pr := vdot _ (seg_vec seg)).
  destruct (Rlt_dec (- epsilon) c) as [Hc | Hc];
    [rewrite (proj2 (Rltb_true_iff _ _) Hc)
    | rewrite (proj2 (Rltb_false_iff (- epsilon) c)) by lra;
      simpl; split; [discriminate | lra]].
  destruct (Rlt_dec epsilon vn) as [Hv | Hv];
    [rewrite (proj2 (Rltb_true_iff _ _) Hv)
    | rewrite (proj2 (Rltb_false_iff epsilon vn)) by lra;
      simpl; split; [discriminate | lra]].
  simpl.
  assert (He : 0 < epsilon) by (unfold epsilon; lra).
  rewrite (proj2 (Rltb_false_iff (Rabs vn) epsilon))
    by (rewrite Rabs_right; lra).
  destruct (Rle_dec (0 - epsilon) t) as [Ht | Ht];
    [rewrite (proj2 (Rleb_true_iff _ _) Ht)
    | rewrite (proj2 (Rleb_false_iff (0 - epsilon) t)) by lra;
      simpl; split; [discriminate | lra]].
  simpl.
  destruct (Rle_dec (- epsilon) pr) as [Hp | Hp];
    [rewrite (proj2 (Rleb_true_iff _ _) Hp)
    | rewrite (proj2 (Rleb_false_iff (- epsilon) pr)) by lra;
      simpl; split; [discriminate | lra]].
  simpl.
  destruct (Rle_dec pr (seg_len_sq seg + epsilon)) as [Hq | Hq];
    [rewrite (proj2 (Rleb_true_iff _ _) Hq)
    | rewrite (proj2 (Rleb_false_iff pr (seg_len_sq seg + epsilon))) by lra;
      split; [discriminate | lra]].
  split; [intros _; lra | reflexivity].
Qed.

(** The loop body, in terms of candidates: a candidate replaces the
    selection when its time is strictly below the selected one. *)
Lemma sweep_step_eq (d : Dot) (off : R) (best : option Hit) (seg : Segment) :
  sweep_step d off best seg =
    if edge_candidate d off seg && below_min (time_to_hit_line d off seg) best
    then Some (time_to_hit_line d off seg, seg,
               (pos d +v vel d *v time_to_hit_line d off seg)%vec)
    else best.
Proof.
  unfold edge_candidate, sweep_step.
  destruct (negb _); [reflexivity |].
  destruct (Rabs _ <? epsilon); [reflexivity |].
  destruct (0 - epsilon <=? time_to_hit_line d off seg); [| reflexivity].
  destruct (below_min (time_to_hit_line d off seg) best) eqn:Hb; simpl.
  - destruct ((_ <=? _) && (_ <=? _)); reflexivity.
  - destruct ((_ <=? _) && (_ <=? _)); reflexivity.
Qed.

(** Invariant of the loop, for any start of the selection. *)
Lemma sweep_fold (d : Dot) (off : R) (segs : list Segment) :
  forall best : option Hit,
    match fold_left (sweep_step d off) segs best with
    | None =>
        best = None /\ forall seg, In seg segs -> edge_candidate d off seg = false
    | Some (t, seg, p) =>
        (best = Some (t, seg, p)
         \/ (In seg segs /\ edge_candidate d off seg = true
             /\ t = time_to_hit_line d off seg
             /\ p = (pos d +v vel d *v t)%vec))
        /\ (forall seg', In seg' segs -> edge_candidate d off seg' = true ->
                         t <= time_to_hit_line d off seg')
        /\ (forall h, best = Some h -> t <= hit_time h)
    end.
Proof.
  induction segs as [| s0 segs IH]; intros best.
  - simpl. destruct best as [[[t seg] p] |].
    + split; [left; reflexivity |]. split; [intros ? [] |].
      intros h Hh. inversion Hh. unfold hit_time. simpl. lra.
    + split; [reflexivity | intros ? []].
  - simpl. specialize (IH (sweep_step d off best s0)).
    rewrite sweep_step_eq in IH |- *.
    destruct (edge_candidate d off s0) eqn:Hc; simpl in IH |- *.
    + destruct (below_min (time_to_hit_line d off s0) best) eqn:Hb.
      * (* the edge is taken *)
        destruct (fold_left _ segs _) as [[[t seg] p] |].
        -- destruct IH as (Hsel & Hmin & Hbest).
           pose proof (Hbest _ eq_refl) as Ht0. unfold hit_time in Ht0. simpl in Ht0.
           split; [| split].
           ++ right. destruct Hsel as [Hsel | (Hi & Hcs & Ht & Hp)].
              ** inversion Hsel; subst. auto.
              ** auto.
           ++ intros seg' [<- | Hi] Hcs; [exact Ht0 | apply Hmin; assumption].
           ++ intros h ->. destruct h as [[m sg] q]. unfold hit_time. simpl.
              simpl in Hb. apply Rltb_true_iff in Hb. lra.
        -- destruct IH as [IH _]. discriminate.
      * (* the edge is not below the selection *)
        destruct best as [[[m sg] q] |]; [| discriminate].
        simpl in Hb. apply Rltb_false_iff in Hb.
        destruct (fold_left _ segs _) as [[[t seg] p] |].
        -- destruct IH as (Hsel & Hmin & Hbest).
           pose proof (Hbest _ eq_refl) as Ht0. unfold hit_time in Ht0. simpl in Ht0.
           split; [| split].
           ++ destruct Hsel as [Hsel | (Hi & Hcs & Ht & Hp)]; [left | right]; auto.
           ++ intros seg' [<- | Hi] Hcs; [lra | apply Hmin; assumption].
           ++ exact Hbest.
        -- destruct IH as [IH _]. discriminate.
    + (* the edge is not a candidate *)
      destruct (fold_left _ segs best) as [[[t seg] p] |].
      * destruct IH as (Hsel & Hmin & Hbest). split; [| split].
        -- destruct Hsel as [Hsel | (Hi & Hcs & Ht & Hp)]; [left | right]; auto.
        -- intros seg' [<- | Hi] Hcs; [congruence | apply Hmin; assumption].
        -- exact Hbest.
      * destruct IH as [IH Hn]. split; [exact IH |].
        intros seg' [<- | Hi]; [exact Hc | apply Hn; assumption].
Qed.

Lemma predictive_sweep_none_iff (d : Dot) (off : R) (segs : list Segment) :
  predictive_sweep d off segs = None <->
  forall seg, In seg segs -> edge_candidate d off seg = false.
Proof.
  unfold predictive_sweep. pose proof (sweep_fold d off segs None) as H.
  destruct (fold_left _ segs None) as [[[t seg] p] |].
  - destruct H as ([H | (Hi & Hc & _)] & _); [discriminate |].
    split; [discriminate |]. intros Hn. rewrite (Hn _ Hi) in Hc. discriminate.
  - destruct H as [_ H]. split; auto.
Qed.

(** Invariant of the loop with the position of the selection: either the
    start selection survives, and no candidate of the list is strictly
    below it, or the selection is an edge of the list that is strictly
    below the start selection and below every candidate before it, and not
    above any candidate after it. *)
Lemma sweep_fold_first (d : Dot) (off : R) (segs : list Segment) :
  forall best : option Hit,
    match fold_left (sweep_step d off) segs best with
    | None =>
        best = None /\ forall seg, In seg segs -> edge_candidate d off seg = false
    | Some (t, seg, p) =>
        (best = Some (t, seg, p)
         /\ forall seg', In seg' segs -> edge_candidate d off seg' = true ->
                         t <= time_to_hit_line d off seg')
        \/ (exists before after,
              segs = before ++ seg :: after
              /\ edge_candidate d off seg = true
              /\ t = time_to_hit_line d off seg
              /\ p = (pos d +v vel d *v t)%vec
              /\ (forall seg', In seg' before -> edge_candidate d off seg' = true ->
                               t < time_to_hit_line d off seg')
              /\ (forall seg', In seg' after -> edge_candidate d off seg' = true ->
                               t <= time_to_hit_line d off seg')
              /\ (forall h, best = Some h -> t < hit_time h))
    end.
Proof.
  induction segs as [| s0 segs IH]; intros best.
  - simpl. destruct best as [[[t seg] p] |].
    + left. split; [reflexivity | intros ? []].
    + split; [reflexivity | intros ? []].
  - simpl. specialize (IH (sweep_step d off best s0)).
    rewrite sweep_step_eq in IH |- *.
    destruct (edge_candidate d off s0) eqn:Hc; cbn [andb] in IH |- *.
    + destruct (below_min (time_to_hit_line d off s0) best) eqn:Hb.
      * (* the edge is taken *)
        destruct (fold_left _ segs _) as [[[t seg] p] |].
        -- right. destruct IH as [[E Hmin] | (bf & af & Es & Hcs & Ht & Hp & Hbf & Haf & Hbest)].
           ++ inversion E; subst t seg p. exists [], segs.
              split; [reflexivity |]. split; [exact Hc |].
              split; [reflexivity |]. split; [reflexivity |].
              split; [intros ? [] |]. split; [exact Hmin |].
              intros h ->. destruct h as [[m sg] q]. unfold hit_time. simpl.
              simpl in Hb. apply Rltb_true_iff in Hb. exact Hb.
           ++ pose proof (Hbest _ eq_refl) as Ht0. unfold hit_time in Ht0. simpl in Ht0.
              exists (s0 :: bf), af.
              split; [rewrite Es; reflexivity |]. split; [exact Hcs |].
              split; [exact Ht |]. split; [exact Hp |].
              split; [intros seg' [<- | Hi] Hcs'; [exact Ht0 | apply Hbf; assumption] |].
              split; [exact Haf |].
              intros h ->. destruct h as [[m sg] q]. unfold hit_time. simpl.
              simpl in Hb. apply Rltb_true_iff in Hb. lra.
        -- destruct IH as [IH _]. discriminate.
      * (* the edge is not below the selection *)
        destruct best as [[[m sg] q] |]; [| discriminate].
        simpl in Hb. apply Rltb_false_iff in Hb.
        destruct (fold_left _ segs _) as [[[t seg] p] |].
        -- destruct IH as [[E Hmin] | (bf & af & Es & Hcs & Ht & Hp & Hbf & Haf & Hbest)].
           ++ left. split; [exact E |]. inversion E; subst t seg p.
              intros seg' [<- | Hi] Hcs'; [exact Hb | apply Hmin; assumption].
           ++ right. pose proof (Hbest _ eq_refl) as Ht0. unfold hit_time in Ht0.
              simpl in Ht0. exists (s0 :: bf), af.
              split; [rewrite Es; reflexivity |]. split; [exact Hcs |].
              split; [exact Ht |]. split; [exact Hp |].
              split; [intros seg' [<- | Hi] Hcs'; [lra | apply Hbf; assumption] |].
              split; [exact Haf | exact Hbest].
        -- destruct IH as [IH _]. discriminate.
    + (* the edge is not a candidate *)
      destruct (fold_left _ segs best) as [[[t seg] p] |].
      * destruct IH as [[E Hmin] | (bf & af & Es & Hcs & Ht & Hp & Hbf & Haf & Hbest)].
        -- left. split; [exact E |].
           intros seg' [<- | Hi] Hcs'; [congruence | apply Hmin; assumption].
        -- right. exists (s0 :: bf), af.
           split; [rewrite Es; reflexivity |]. split; [exact Hcs |].
           split; [exact Ht |]. split; [exact Hp |].
           split; [intros seg' [<- | Hi] Hcs'; [congruence | apply Hbf; assumption] |].
           split; [exact Haf | exact Hbest].
      * destruct IH as [IH Hn]. split; [exact IH |].
        intros seg' [<- | Hi]; [exact Hc | apply Hn; assumption].
Qed.

(** C1 (as the code has it) — The predictive check selects an edge
    exactly when some edge of the boundary is a candidate, that is passes
    the two approach tests, has a [time_to_hit_line] of at least [-epsilon]
    and an intersection point that projects onto the segment up to
    [epsilon].  The selected edge is then such a candidate with the smallest
    [time_to_hit_line], and on ties the first one in iteration order: every
    candidate before it in the list has a strictly larger time, every
    candidate after it a time at least as large.  The collision point is
    the position advanced by that time.  The time is not compared with
    [dt]. *)
Theorem predictive_sweep_selects_earliest
    (d : Dot) (off : R) (segs : list Segment) :
  ((exists seg, In seg segs /\ edge_candidate d off seg = true)
   <-> predictive_sweep d off segs <> None)
  /\ (predictive_sweep d off segs = None <->
      forall seg, In seg segs -> edge_candidate d off seg = false)
  /\ (forall t seg p,
        predictive_sweep d off segs = Some (t, seg, p) ->
        In seg segs
        /\ edge_candidate d off seg = true
        /\ t = time_to_hit_line d off seg
        /\ p = (pos d +v vel d *v t)%vec
        /\ - epsilon <= t
        /\ epsilon < vdot (vel d) (seg_normal_outward seg)
        /\ - epsilon
           < vdot (vel d)
               (find_closest_point_on_segment (pos d) (v_start seg) (v_end seg)
                -v pos d)%vec
        /\ - epsilon <= proj_on_segment d off seg <= seg_len_sq seg + epsilon
        /\ (forall seg', In seg' segs -> edge_candidate d off seg' = true ->
                         t <= time_to_hit_line d off seg')
        /\ exists before after,
             segs = before ++ seg :: after
             /\ (forall seg', In seg' before -> edge_candidate d off seg' = true ->
                              t < time_to_hit_line d off seg')
             /\ (forall seg', In seg' after -> edge_candidate d off seg' = true ->
                              t <= time_to_hit_line d off seg')).
Proof.
  pose proof (predictive_sweep_none_iff d off segs) as Hnone.
  split; [| split; [exact Hnone |]].
  - split.
    + intros (seg & Hi & Hc) Hn. rewrite (proj1 Hnone Hn seg Hi) in Hc. discriminate.
    + intros Hn. unfold predictive_sweep in *.
      pose proof (sweep_fold d off segs None) as Hf.
      destruct (fold_left _ segs None) as [[[t seg] p] |]; [| congruence].
      destruct Hf as ([Hf | (Hi & Hc & _)] & _); [discriminate |].
      exists seg. split; assumption.
  - intros t seg p H. unfold predictive_sweep in H.
    pose proof (sweep_fold_first d off segs None) as Hf. rewrite H in Hf.
    destruct Hf as [[Hf _] | (bf & af & Es & Hc & Ht & Hp & Hbf & Haf & _)];
      [discriminate |].
    pose proof (proj1 (edge_candidate_iff d off seg) Hc) as (Hcl & Hv & Hge & Hpr).
    assert (Hin : In seg segs) by (rewrite Es; apply in_or_app; right; left; reflexivity).
    subst t.
    split; [exact Hin |]. split; [exact Hc |]. split; [reflexivity |].
    split; [exact Hp |]. split; [exact Hge |]. split; [exact Hv |].
    split; [exact Hcl |]. split; [exact Hpr |].
    split.
    + intros seg' Hi Hc'. rewrite Es in Hi. apply in_app_or in Hi.
      destruct Hi as [Hi | [<- | Hi]].
      * apply Rlt_le. apply Hbf; assumption.
      * lra.
      * apply Haf; assumption.
    + exists bf, af. split; [exact Es |]. split; assumption.
Qed.

Lemma slow_dot_closest :
  find_closest_point_on_segment (pos slow_dot) (v_start wall_segment)
    (v_end wall_segment) = mkVec 100 5.
Proof.
  unfold find_closest_point_on_segment, length_squared, vdot, vsub, vadd, vscale.
  simpl. rcmp.
  replace (((99 - 100) * (100 - 100) + (5 - 0) * (10 - 0)) /
           ((100 - 100) * (100 - 100) + (10 - 0) * (10 - 0))) with (1 / 2)
    by (field; lra).
  rewrite Rmin_right by lra. rewrite Rmax_right by lra.
  apply vec_eq; simpl; lra.
Qed.

Lemma slow_dot_time : time_to_hit_line slow_dot (-10) wall_segment = 3 / 2.
Proof.
  unfold time_to_hit_line, signed_overlap, vdot, vsub.
  unfold Config.BOUNDARY_THICKNESS, Config.DOT_RADIUS. simpl. field.
Qed.

Lemma slow_dot_candidate : edge_candidate slow_dot (-10) wall_segment = true.
Proof.
  apply edge_candidate_iff. unfold proj_on_segment.
  rewrite slow_dot_closest, slow_dot_time.
  unfold vdot, vsub, vadd, vscale, epsilon. simpl. lra.
Qed.

Lemma slow_dot_sweep :
  predictive_sweep slow_dot (-10) [wall_segment]
  = Some (time_to_hit_line slow_dot (-10) wall_segment, wall_segment,
          (pos slow_dot +v vel slow_dot *v time_to_hit_line slow_dot (-10) wall_segment)%vec).
Proof.
  unfold predictive_sweep. simpl fold_left.
  rewrite sweep_step_eq, slow_dot_candidate. reflexivity.
Qed.

Lemma predictive_sweep_selects_earliest_witness :
  predictive_sweep slow_dot (-10) [wall_segment] <> None
  /\ - epsilon <= time_to_hit_line slow_dot (-10) wall_segment
  /\ exists before after,
       [wall_segment] = before ++ wall_segment :: after
       /\ (forall seg', In seg' before ->
              edge_candidate slow_dot (-10) seg' = true ->
              time_to_hit_line slow_dot (-10) wall_segment
              < time_to_hit_line slow_dot (-10) seg').
Proof.
  pose proof (predictive_sweep_selects_earliest slow_dot (-10) [wall_segment])
    as (H1 & _ & H3).
  split.
  - apply (proj1 H1). exists wall_segment. split; [left; reflexivity |].
    exact slow_dot_candidate.
  - destruct (H3 _ _ _ slow_dot_sweep)
      as (_ & _ & _ & _ & Hge & _ & _ & _ & _ & bf & af & Es & Hbf & _).
    split; [exact Hge |]. exists bf, af. split; [exact Es | exact Hbf].
Defined.

Lemma grazing_dot_closest :
  find_closest_point_on_segment (pos grazing_dot) (v_start wall_segment)
    (v_end wall_segment) = mkVec 100 5.
Proof.
  unfold find_closest_point_on_segment, length_squared, vdot, vsub, vadd, vscale.
  simpl. rcmp.
  replace (((975 / 10 - 1 / 2000000 - 100) * (100 - 100) + (5 - 0) * (10 - 0)) /
           ((100 - 100) * (100 - 100) + (10 - 0) * (10 - 0))) with (1 / 2)
    by (field; lra).
  rewrite Rmin_right by lra. rewrite Rmax_right by lra.
  apply vec_eq; simpl; lra.
Qed.

Lemma grazing_dot_time :
  time_to_hit_line grazing_dot (-10) wall_segment = - (1 / 2000000).
Proof.
  unfold time_to_hit_line, signed_overlap, vdot, vsub.
  unfold Config.BOUNDARY_THICKNESS, Config.DOT_RADIUS. simpl. field.
Qed.

Lemma grazing_dot_sweep :
  predictive_sweep grazing_dot (-10) [wall_segment]
  = Some (time_to_hit_line grazing_dot (-10) wall_segment, wall_segment,
          (pos grazing_dot
           +v vel grazing_dot *v time_to_hit_line grazing_dot (-10) wall_segment)%vec).
Proof.
  assert (Hc : edge_candidate grazing_dot (-10) wall_segment = true).
  { apply edge_candidate_iff. unfold proj_on_segment.
    rewrite grazing_dot_closest, grazing_dot_time.
    unfold vdot, vsub, vadd, vscale, epsilon. simpl. lra. }
  unfold predictive_sweep. simpl fold_left.
  rewrite sweep_step_eq, Hc. reflexivity.
Qed.

(** C1, refuted as stated, on both bounds.  With a frame time of 0.1 s
    (the largest the main loop passes) the predictive check selects the wall
    for the slow dot although its [time_to_hit_line] is 1.5 s, and the
    engine reports a collision; and it selects the wall for the grazing dot,
    whose [time_to_hit_line] is negative. *)
Lemma predictive_sweep_ignores_dt :
  let dt := 1 / 10 in
  0 < dt
  /\ (exists t p,
        predictive_sweep slow_dot (-10) [wall_segment] = Some (t, wall_segment, p)
        /\ t = 3 / 2
        /\ dt < t
        /\ forall w, fst (fst (handle_collisions wall_sim slow_dot dt w)) = true)
  /\ (exists t p,
        predictive_sweep grazing_dot (-10) [wall_segment] = Some (t, wall_segment, p)
        /\ t < 0).
Proof.
  cbv zeta. split; [lra |]. split.
  - eexists; eexists. split; [exact slow_dot_sweep |].
    split; [exact slow_dot_time |].
    split; [rewrite slow_dot_time; lra |].
    intros w. unfold handle_collisions.
    change (Config.dict_get Config.COLLISION_BOUNDS_INWARD_OFFSET
              (current_shape_name wall_sim) 0) with (-10).
    cbn [current_shape_data wall_sim].
    unfold collide_polygon. rewrite slow_dot_sweep.
    unfold resolve_predicted, bind, ret.
    destruct (mark_for_split _ _ w) as [d4 w4]. reflexivity.
  - eexists; eexists. split; [exact grazing_dot_sweep |].
    rewrite grazing_dot_time. lra.
Qed.

(** ** The stored normal of a dot *)

Lemma mark_for_split_unit (d : Dot) (m : Vector2) (w : World) :
  unit_when_marked d -> unit_when_marked (fst (mark_for_split d m w)).
Proof.
  intros H. unfold mark_for_split.
  destruct (needs_split d) eqn:E; simpl; [exact H |].
  intros _. eexists; split; [reflexivity |].
  apply length_unit.
  destruct (Rlt_dec (1 / 1000000000) (length_squared m)) as [Hm | Hm].
  - rewrite (proj2 (Rltb_true_iff _ _) Hm).
    apply normalize_length_squared. lra.
  - rewrite (proj2 (Rltb_false_iff _ _)) by lra.
    unfold length_squared, vdot. simpl. ring.
Qed.

Lemma mark_for_split_keeps (d : Dot) (m : Vector2) (w : World) :
  keeps_normal d (fst (mark_for_split d m w)).
Proof.
  unfold keeps_normal, mark_for_split.
  destruct (needs_split d); simpl; [auto | discriminate].
Qed.

Lemma reflect_vel_fields (d : Dot) (n : Vector2) :
  needs_split (reflect_vel d n) = needs_split d
  /\ last_collision_normal (reflect_vel d n) = last_collision_normal d
  /\ split_timer_start (reflect_vel d n) = split_timer_start d
  /\ pos (reflect_vel d n) = pos d.
Proof.
  unfold reflect_vel. destruct (epsilon <? _); simpl; auto.
Qed.

Lemma resolved_unit (d d' : Dot) (w w' : World) :
  resolved d w d' w' -> unit_when_marked d -> unit_when_marked d'.
Proof.
  intros (p & n & m & Hm) H.
  replace d' with (fst (mark_for_split (reflect_vel (set_pos d p) n) m w))
    by (rewrite Hm; reflexivity).
  apply mark_for_split_unit.
  unfold unit_when_marked in *.
  destruct (reflect_vel_fields (set_pos d p) n) as (-> & -> & _). exact H.
Qed.

Lemma resolved_keeps (d d' : Dot) (w w' : World) :
  resolved d w d' w' -> keeps_normal d d'.
Proof.
  intros (p & n & m & Hm).
  replace d' with (fst (mark_for_split (reflect_vel (set_pos d p) n) m w))
    by (rewrite Hm; reflexivity).
  intros Hd. apply mark_for_split_keeps.
  destruct (reflect_vel_fields (set_pos d p) n) as (_ & -> & _). exact Hd.
Qed.

(** A dot that is already marked passes through the engine with its split
    state intact, and the clock is not read. *)
Lemma resolved_marked (d d' : Dot) (w w' : World) :
  resolved d w d' w' -> needs_split d = true ->
  w' = w /\ needs_split d' = true
  /\ last_collision_normal d' = last_collision_normal d
  /\ split_timer_start d' = split_timer_start d.
Proof.
  intros (p & n & m & Hm) Hd.
  destruct (reflect_vel_fields (set_pos d p) n) as (Hf & Hn & Ht & _).
  unfold mark_for_split in Hm. rewrite Hf in Hm. simpl in Hm. rewrite Hd in Hm.
  simpl in Hm. inversion Hm; subst. rewrite Hf, Hn, Ht. auto.
Qed.

Lemma collide_or_move_cases (s : Simulation) (dt : R) (d : Dot) (w : World) :
  collide_or_move s dt d w = (move d dt, w)
  \/ exists d' w', collide_or_move s dt d w = (d', w') /\ resolved d w d' w'.
Proof.
  unfold collide_or_move, bind, ret.
  destruct (handle_collisions_outcome s d dt w) as [H | [Hc Hr]].
  - left. rewrite H. reflexivity.
  - right. destruct (handle_collisions s d dt w) as [[b d1] w1].
    simpl in *. subst b. simpl. eauto.
Qed.

Lemma collide_or_move_unit (s : Simulation) (dt : R) (d : Dot) (w : World) :
  unit_when_marked d -> unit_when_marked (fst (collide_or_move s dt d w)).
Proof.
  intros H. destruct (collide_or_move_cases s dt d w) as [E | (d' & w' & E & Hr)];
    rewrite E; simpl.
  - exact H.
  - eapply resolved_unit; eassumption.
Qed.

Lemma collide_or_move_keeps (s : Simulation) (dt : R) (d : Dot) (w : World) :
  keeps_normal d (fst (collide_or_move s dt d w)).
Proof.
  destruct (collide_or_move_cases s dt d w) as [E | (d' & w' & E & Hr)];
    rewrite E; simpl.
  - unfold keeps_normal. auto.
  - eapply resolved_keeps; eassumption.
Qed.

Lemma collide_or_move_marked (s : Simulation) (dt : R) (d : Dot) (w : World) :
  needs_split d = true ->
  snd (collide_or_move s dt d w) = w
  /\ needs_split (fst (collide_or_move s dt d w)) = true
  /\ last_collision_normal (fst (collide_or_move s dt d w)) = last_collision_normal d
  /\ split_timer_start (fst (collide_or_move s dt d w)) = split_timer_start d.
Proof.
  intros Hd. destruct (collide_or_move_cases s dt d w) as [E | (d' & w' & E & Hr)];
    rewrite E; simpl.
  - auto.
  - apply (resolved_marked d d' w w' Hr Hd).
Qed.

(** ** simulation.py: the scan of [update] *)

Lemma should_split_true (d : Dot) (w : World) :
  fst (should_split d w) = true -> needs_split d = true.
Proof.
  unfold should_split. destruct (needs_split d); simpl; auto.
Qed.

Lemma scan_dot_outcome (s : Simulation) (dt : R) (n : nat) (acc : Scan)
    (d : Dot) (w : World) :
  let acc' := fst (scan_dot s dt n acc d w) in
  let d2 := fst (collide_or_move s dt d w) in
  split_executed s n acc acc' d2
  \/ split_blocked s n acc acc' d2
  \/ split_not_due acc acc' d2.
Proof.
  cbv zeta. unfold scan_dot, bind.
  destruct (collide_or_move s dt d w) as [d2 w1]. cbn [fst].
  pose proof (should_split_true d2 w1) as Hs.
  destruct (should_split d2 w1) as [sp w2]. cbn [fst] in Hs.
  destruct sp.
  - specialize (Hs eq_refl). fold (queued n acc).
    destruct (queued n acc <? dot_limit s)%Z eqn:Hq.
    + left. apply Z.ltb_lt in Hq.
      rewrite split_children. cbv zeta. unfold ret. cbn [fst snd].
      set (a := - angle_to (split_normal d2) (mkVec 1 0)).
      set (wa := snd (split_child (pos d2) a w2)).
      destruct (split_child_spec (pos d2) a w2) as (_ & _ & H1 & _).
      destruct (split_child_spec (pos d2) a wa) as (_ & _ & H2 & _).
      cbn [survivors dots_to_add dots_to_remove].
      split; [exact Hs |]. split; [exact Hq |]. split; [reflexivity |].
      do 3 eexists. split; [reflexivity |]. split; [reflexivity |].
      split; [exact H1 |]. split; [exact H2 |]. split; reflexivity.
    + right; left. apply Z.ltb_ge in Hq. unfold ret. cbn [fst].
      repeat split; try assumption; reflexivity.
  - right; right. unfold ret. cbn [fst]. repeat split; reflexivity.
Qed.

Lemma scan_dots_cons (s : Simulation) (dt : R) (n : nat) (acc : Scan)
    (d : Dot) (ds : list Dot) (w : World) :
  scan_dots s dt n acc (d :: ds) w
  = scan_dots s dt n (fst (scan_dot s dt n acc d w)) ds (snd (scan_dot s dt n acc d w)).
Proof.
  simpl. unfold bind. destruct (scan_dot s dt n acc d w). reflexivity.
Qed.

(** Counting: every scanned dot is either kept or queued for removal, and
    the queued population never passes the cap through a split. *)
Lemma scan_dot_count (s : Simulation) (dt : R) (n : nat) (acc : Scan)
    (d : Dot) (w : World) :
  let acc' := fst (scan_dot s dt n acc d w) in
  (List.length (survivors acc') + List.length (dots_to_remove acc')
   = S (List.length (survivors acc) + List.length (dots_to_remove acc)))%nat
  /\ (queued n acc' <= Z.max (dot_limit s) (queued n acc))%Z.
Proof.
  cbv zeta.
  destruct (scan_dot_outcome s dt n acc d w)
    as [(_ & Hq & Hs & c1 & c2 & p & Ha & Hr & _)
       | [(_ & _ & Hs & Ha & Hr) | (Hs & Ha & Hr)]];
    unfold queued in *; rewrite Hs, Ha, Hr; rewrite ?length_app; simpl; lia.
Qed.

Lemma scan_dots_count (s : Simulation) (dt : R) (n : nat) (ds : list Dot) :
  forall (acc : Scan) (w : World),
    let acc' := fst (scan_dots s dt n acc ds w) in
    (List.length (survivors acc') + List.length (dots_to_remove acc')
     = List.length ds + (List.length (survivors acc) + List.length (dots_to_remove acc)))%nat
    /\ (queued n acc' <= Z.max (dot_limit s) (queued n acc))%Z.
Proof.
  induction ds as [| d ds IH]; intros acc w.
  - simpl. lia.
  - cbv zeta. rewrite scan_dots_cons.
    destruct (scan_dot_count s dt n acc d w) as [H1 H2].
    destruct (IH (fst (scan_dot s dt n acc d w)) (snd (scan_dot s dt n acc d w)))
      as [H3 H4].
    simpl List.length. lia.
Qed.

(** The stored normal along the scan. *)
Lemma scan_dot_unit (s : Simulation) (dt : R) (n : nat) (acc : Scan)
    (d : Dot) (w : World) :
  unit_when_marked d ->
  Forall unit_when_marked (survivors acc) ->
  Forall unit_when_marked (dots_to_add acc) ->
  let acc' := fst (scan_dot s dt n acc d w) in
  Forall unit_when_marked (survivors acc')
  /\ Forall unit_when_marked (dots_to_add acc').
Proof.
  intros Hd Hs Ha. cbv zeta.
  pose proof (collide_or_move_unit s dt d w Hd) as H2.
  destruct (scan_dot_outcome s dt n acc d w)
    as [(_ & _ & Es & c1 & c2 & p & Ea & _ & Hc1 & Hc2 & _)
       | [(_ & _ & Es & Ea & _) | (Es & Ea & _)]];
    rewrite Es, Ea; split; try assumption.
  - apply Forall_app. split; [exact Ha |].
    repeat constructor; intros C; congruence.
  - apply Forall_app. split; [exact Hs |].
    repeat constructor. intros C. simpl in C. discriminate.
  - apply Forall_app. split; [exact Hs |]. repeat constructor. exact H2.
Qed.

Lemma scan_dots_unit (s : Simulation) (dt : R) (n : nat) (ds : list Dot) :
  forall (acc : Scan) (w : World),
    Forall unit_when_marked ds ->
    Forall unit_when_marked (survivors acc) ->
    Forall unit_when_marked (dots_to_add acc) ->
    let acc' := fst (scan_dots s dt n acc ds w) in
    Forall unit_when_marked (survivors acc')
    /\ Forall unit_when_marked (dots_to_add acc').
Proof.
  induction ds as [| d ds IH]; intros acc w Hds Hs Ha.
  - simpl. auto.
  - cbv zeta. rewrite scan_dots_cons.
    destruct (scan_dot_unit s dt n acc d w (Forall_inv Hds) Hs Ha) as [H1 H2].
    apply IH; [exact (Forall_inv_tail Hds) | exact H1 | exact H2].
Qed.

(** ** Invariants of the main loop *)

Section Preservation.

Variable P : Simulation -> Prop.
Hypothesis P_event : forall s e w, P s -> P (fst (handle_event s e w)).
Hypothesis P_update : forall s dt w, P s -> P (fst (update s dt w)).

Lemma handle_input_preserves (events : list Event) :
  forall s w, P s -> P (fst (handle_input s events w)).
Proof.
  induction events as [| e es IH]; intros s w H.
  - exact H.
  - simpl. unfold bind.
    pose proof (P_event s e w H) as He.
    destruct (handle_event s e w) as [s' w']. apply IH. exact He.
Qed.

Lemma tick_preserves (s : Simulation) (frame : list Event * R) (w : World) :
  P s -> P (fst (tick s frame w)).
Proof.
  intros H. destruct frame as [events dt_raw]. unfold tick, bind.
  pose proof (handle_input_preserves events s w H) as Hi.
  destruct (handle_input s events w) as [s1 w1]. cbn [fst] in Hi.
  destruct (running s1); [apply P_update; exact Hi | exact Hi].
Qed.

Lemma run_ticks_preserves (frames : list (list Event * R)) :
  forall s w, P s -> P (fst (run_ticks s frames w)).
Proof.
  induction frames as [| f fs IH]; intros s w H.
  - exact H.
  - simpl. unfold bind.
    pose proof (tick_preserves s f w H) as Ht.
    destruct (tick s f w) as [s' w']. apply IH. exact Ht.
Qed.

End Preservation.

Lemma spawn_block_fields (s : Simulation) (t : Z) (w : World) :
  let s' := fst (spawn_block s t w) in
  dot_limit s' = dot_limit s
  /\ paused s' = paused s
  /\ limit_reached_paused s' = limit_reached_paused s
  /\ shape_definitions s' = shape_definitions s
  /\ (dots s' = dots s
      \/ ((count s < dot_limit s)%Z
          /\ exists d, dots s' = dots s ++ [d] /\ needs_split d = false)).
Proof.
  unfold spawn_block.
  destruct (negb (first_unpause s) && _)%bool; [| simpl; auto 6].
  destruct (Z.of_nat (List.length (dots s)) <? dot_limit s)%Z eqn:E.
  - simpl. repeat split; try reflexivity. right.
    apply Z.ltb_lt in E. split; [exact E |]. eexists; split; reflexivity.
  - simpl. auto 6.
Qed.

Lemma limit_check_fields (s : Simulation) :
  dots (limit_check s) = dots s /\ dot_limit (limit_check s) = dot_limit s.
Proof.
  unfold limit_check. destruct (_ && _)%bool; simpl; auto.
Qed.

(** The update pass, once the pause test is passed. *)
Lemma update_running (s : Simulation) (dt : R) (w : World) :
  paused s = false ->
  exists s1 acc,
    fst (update s dt w) = limit_check (set_dots s1 (survivors acc ++ dots_to_add acc))
    /\ dot_limit s1 = dot_limit s
    /\ paused s1 = paused s
    /\ limit_reached_paused s1 = limit_reached_paused s
    /\ (dots s1 = dots s
        \/ ((count s < dot_limit s)%Z
            /\ exists d, dots s1 = dots s ++ [d] /\ needs_split d = false))
    /\ exists w1, acc = fst (scan_dots s1 dt (List.length (dots s1)) (mkScan [] [] [])
                               (dots s1) w1).
Proof.
  intros Hp. unfold update. rewrite Hp. unfold bind.
  destruct (get_ticks w) as [t w0].
  pose proof (spawn_block_fields s t w0) as Hs. cbv zeta in Hs.
  destruct (spawn_block s t w0) as [s1 w1]. cbn [fst] in Hs.
  destruct Hs as (H1 & H2 & H3 & _ & H5).
  exists s1, (fst (scan_dots s1 dt (List.length (dots s1)) (mkScan [] [] []) (dots s1) w1)).
  destruct (scan_dots s1 dt _ _ (dots s1) w1) as [acc w2] eqn:Ea.
  unfold ret. cbn [fst].
  split; [reflexivity |]. split; [exact H1 |]. split; [congruence |].
  split; [exact H3 |]. split; [exact H5 |].
  exists w1. rewrite Ea. reflexivity.
Qed.

Lemma update_paused (s : Simulation) (dt : R) (w : World) :
  paused s = true -> update s dt w = (s, w).
Proof. intros H. unfold update. rewrite H. reflexivity. Qed.

(** *** The population cap *)

Lemma update_count (s : Simulation) (dt : R) (w : World) :
  (count s <= dot_limit s)%Z ->
  (count (fst (update s dt w)) <= dot_limit (fst (update s dt w)))%Z.
Proof.
  intros H. destruct (paused s) eqn:Hp.
  - rewrite update_paused by exact Hp. exact H.
  - destruct (update_running s dt w Hp)
      as (s1 & acc & -> & Hl & _ & _ & Hd & w1 & ->).
    destruct (limit_check_fields
                (set_dots s1 (survivors (fst (scan_dots s1 dt (List.length (dots s1))
                                                (mkScan [] [] []) (dots s1) w1))
                              ++ dots_to_add (fst (scan_dots s1 dt (List.length (dots s1))
                                                     (mkScan [] [] []) (dots s1) w1)))))
      as [E1 E2].
    unfold count. rewrite E1, E2. cbn [set_dots dots dot_limit].
    destruct (scan_dots_count s1 dt (List.length (dots s1)) (dots s1) (mkScan [] [] []) w1)
      as [Hc Hq].
    set (acc := fst (scan_dots s1 dt _ _ (dots s1) w1)) in *.
    unfold queued in Hq. simpl in Hc, Hq. rewrite length_app.
    assert (Hn : (Z.of_nat (List.length (dots s1)) <= dot_limit s)%Z).
    { destruct Hd as [-> | (Hlt & d & -> & _)]; [exact H |].
      unfold count in Hlt. rewrite length_app. simpl. lia. }
    rewrite Hl in Hq. lia.
Qed.

Lemma limit_check_spec (x : Simulation) :
  limit_reached_paused x = false ->
  (limit_reached_paused (limit_check x) = true <-> (dot_limit x <= count x)%Z)
  /\ (limit_reached_paused (limit_check x) = true -> paused (limit_check x) = true)
  /\ (limit_reached_paused (limit_check x) = false ->
      paused (limit_check x) = paused x).
Proof.
  intros Hf. unfold limit_check, count. rewrite Hf.
  destruct (dot_limit x <=? Z.of_nat (List.length (dots x)))%Z eqn:E; simpl.
  - apply Z.leb_le in E. repeat split; auto; discriminate.
  - apply Z.leb_gt in E. rewrite Hf. repeat split; auto; try discriminate.
    intros; lia.
Qed.

(** One update pass on a running simulation: the flag is clear when the
    pass starts, and it is set by the pass, together with the pause, exactly
    when the population has reached the cap. *)
Lemma update_flag (s : Simulation) (dt : R) (w : World) :
  cap_inv s -> paused s = false ->
  let s' := fst (update s dt w) in
  limit_reached_paused s = false
  /\ dot_limit s' = dot_limit s
  /\ (limit_reached_paused s' = true <-> (dot_limit s' <= count s')%Z)
  /\ (limit_reached_paused s' = true -> paused s' = true)
  /\ (limit_reached_paused s' = false -> paused s' = false).
Proof.
  intros [Hc Hi] Hp. cbv zeta.
  assert (Hf : limit_reached_paused s = false).
  { destruct (limit_reached_paused s); [| reflexivity].
    rewrite Hi in Hp by reflexivity. discriminate. }
  split; [exact Hf |].
  destruct (update_running s dt w Hp) as (s1 & acc & E & Hl & Hp1 & Hf1 & _).
  rewrite E.
  set (x := set_dots s1 (survivors acc ++ dots_to_add acc)).
  assert (Hfx : limit_reached_paused x = false) by (unfold x; simpl; congruence).
  destruct (limit_check_spec x Hfx) as (H1 & H2 & H3).
  destruct (limit_check_fields x) as [Ed El].
  assert (Ec : count (limit_check x) = count x) by (unfold count; rewrite Ed; reflexivity).
  rewrite El, Ec.
  split; [unfold x; simpl; exact Hl |].
  split; [exact H1 |]. split; [exact H2 |].
  intros H. rewrite (H3 H). unfold x. simpl. congruence.
Qed.

Lemma update_cap_inv (s : Simulation) (dt : R) (w : World) :
  cap_inv s -> cap_inv (fst (update s dt w)).
Proof.
  intros H. split.
  - apply update_count. exact (proj1 H).
  - destruct (paused s) eqn:Hp.
    + rewrite update_paused by exact Hp. simpl. auto.
    + destruct (update_flag s dt w H Hp) as (_ & _ & _ & H4 & _). exact H4.
Qed.

Lemma reset_cap_inv (s : Simulation) (w : World) : cap_inv (fst (reset s w)).
Proof.
  unfold reset, cap_inv, count, bind, ret. simpl.
  unfold Config.INITIAL_DOT_LIMIT. split; [lia | discriminate].
Qed.

Lemma first_unpause_block_count (s : Simulation) (w : World) :
  (count s <= dot_limit s)%Z ->
  (count (fst (first_unpause_block s w)) <= dot_limit s)%Z.
Proof.
  intros H. unfold first_unpause_block.
  destruct (first_unpause s); [| exact H].
  destruct (0 <? dot_limit s)%Z eqn:E1; simpl; [| exact H].
  destruct (List.length (dots s) =? 0)%nat eqn:E2; simpl; [| exact H].
  apply Z.ltb_lt in E1. apply Nat.eqb_eq in E2.
  unfold count. simpl. rewrite length_app, E2. simpl. lia.
Qed.

Lemma press_space_cap_inv (s : Simulation) (w : World) :
  cap_inv s -> cap_inv (fst (press_space s w)).
Proof.
  intros [Hc Hi]. unfold press_space.
  destruct (paused s) eqn:Hp.
  - unfold bind.
    pose proof (first_unpause_block_fields s w) as Hb.
    pose proof (first_unpause_block_count s w Hc) as Hn.
    destruct (first_unpause_block s w) as [s1 w1]. cbn [fst] in *.
    destruct Hb as (Hl & _ & Hf). unfold ret. cbn [fst].
    unfold limit_increase_block, cap_inv, count in *.
    destruct (limit_reached_paused s1) eqn:E; simpl.
    + unfold Config.INITIAL_DOT_LIMIT. split; [lia | discriminate].
    + rewrite E. split; [lia | discriminate].
  - simpl. split; [exact Hc | reflexivity].
Qed.

Lemma handle_event_cap_inv (s : Simulation) (e : Event) (w : World) :
  cap_inv s -> cap_inv (fst (handle_event s e w)).
Proof.
  intros H. destruct e as [| [] | text |]; simpl; try exact H.
  - apply press_space_cap_inv. exact H.
  - apply reset_cap_inv.
  - unfold shape_changed.
    destruct (negb _); [| exact H].
    destruct (shape_lookup _ _); [apply reset_cap_inv | exact H].
Qed.

Lemma press_space_ends_event (s : Simulation) (w : World) :
  cap_inv s -> limit_reached_paused s = true ->
  let s' := fst (press_space s w) in
  limit_reached_paused s' = false /\ paused s' = false
  /\ (count s' < dot_limit s')%Z.
Proof.
  intros [Hc Hi] Hf. cbv zeta. unfold press_space. rewrite (Hi Hf). unfold bind.
  pose proof (first_unpause_block_fields s w) as Hb.
  pose proof (first_unpause_block_count s w Hc) as Hn.
  destruct (first_unpause_block s w) as [s1 w1]. cbn [fst] in *.
  destruct Hb as (Hl & _ & Hf1). rewrite Hf in Hf1.
  unfold ret. cbn [fst]. unfold limit_increase_block. rewrite Hf1.
  unfold count in *. simpl. unfold Config.INITIAL_DOT_LIMIT.
  repeat split; lia.
Qed.

Lemma Simulation_init_cap_inv (noise2 : Z -> R -> R -> R) (w : World) :
  cap_inv (fst (Simulation_init noise2 w)).
Proof.
  unfold Simulation_init, bind.
  destruct (define_shapes noise2 w) as [defs w1]. apply reset_cap_inv.
Qed.

(** Every state the program reaches from start-up satisfies [cap_inv]. *)
Lemma run_cap_inv (noise2 : Z -> R -> R -> R) (frames : list (list Event * R))
    (w : World) :
  cap_inv (fst (run noise2 frames w)).
Proof.
  unfold run, bind.
  pose proof (Simulation_init_cap_inv noise2 w) as H.
  destruct (Simulation_init noise2 w) as [s0 w0].
  apply (run_ticks_preserves cap_inv handle_event_cap_inv update_cap_inv).
  exact H.
Qed.

Lemma press_space_count (s : Simulation) (w : World) :
  (count s <= dot_limit s)%Z ->
  (count (fst (press_space s w)) <= dot_limit (fst (press_space s w)))%Z.
Proof.
  intros Hc. unfold press_space.
  destruct (paused s) eqn:Hp; [| exact Hc].
  unfold bind.
  pose proof (first_unpause_block_fields s w) as Hb.
  pose proof (first_unpause_block_count s w Hc) as Hn.
  destruct (first_unpause_block s w) as [s1 w1]. cbn [fst] in *.
  destruct Hb as (Hl & _ & _). unfold ret. cbn [fst].
  unfold limit_increase_block, count in *.
  destruct (limit_reached_paused s1); simpl;
    unfold Config.INITIAL_DOT_LIMIT; lia.
Qed.

Lemma handle_event_count (s : Simulation) (e : Event) (w : World) :
  (count s <= dot_limit s)%Z ->
  (count (fst (handle_event s e w)) <= dot_limit (fst (handle_event s e w)))%Z.
Proof.
  intros H. destruct e as [| [] | text |]; simpl; try exact H.
  - apply press_space_count. exact H.
  - apply (proj1 (reset_cap_inv s w)).
  - unfold shape_changed.
    destruct (negb _); [| exact H].
    destruct (shape_lookup _ _) as [data |];
      [apply (proj1 (reset_cap_inv _ w)) | exact H].
Qed.

(** The capacity tests of the update pass: a spawn needs room under the
    cap, and so does every split, counted with the queued additions and
    removals. *)
Lemma spawn_requires_capacity (s : Simulation) (t : Z) (w : World) :
  dots (fst (spawn_block s t w)) <> dots s -> (count s < dot_limit s)%Z.
Proof.
  intros H. destruct (spawn_block_fields s t w) as (_ & _ & _ & _ & [E | [Hc _]]).
  - contradiction.
  - exact Hc.
Qed.

Lemma split_requires_capacity (s : Simulation) (dt : R) (n : nat) (acc : Scan)
    (d : Dot) (w : World) :
  dots_to_add (fst (scan_dot s dt n acc d w)) <> dots_to_add acc ->
  (queued n acc < dot_limit s)%Z.
Proof.
  intros H.
  destruct (scan_dot_outcome s dt n acc d w)
    as [(_ & Hq & _) | [(_ & _ & _ & Ea & _) | (_ & Ea & _)]];
    [exact Hq | contradiction | contradiction].
Qed.

(** C4 — Starting from a state whose population is within the cap, after
    any sequence of ticks ([s1]) and after any further update pass ([s2])
    the population is within the cap, hence never more than one above it;
    a spawn happens only while the count is below the cap and a split only
    while the count plus the queued additions minus the queued removals is
    below it.  If moreover the cap-reached flag of the start state, when
    set, goes with a pause (as in every state the program builds), then an
    update pass that runs starts with the flag clear and sets it, together
    with the pause, exactly when the population has reached the cap; while
    paused, update passes change nothing, so the flag is set once per
    event; and the unpause that follows ([s3]) clears the flag and leaves
    the population strictly below the raised cap. *)
Theorem population_cap_respected
    (s : Simulation) (frames : list (list Event * R)) (dt : R) (w w' w'' : World)
    (t : Z) (n : nat) (acc : Scan) (d : Dot) :
  (count s <= dot_limit s)%Z ->
  let s1 := fst (run_ticks s frames w) in
  let s2 := fst (update s1 dt w') in
  let s3 := fst (press_space s1 w'') in
  (count s1 <= dot_limit s1 + 1)%Z
  /\ (count s2 <= dot_limit s2 + 1)%Z
  /\ (count s1 <= dot_limit s1)%Z
  /\ (count s2 <= dot_limit s2)%Z
  /\ (dots (fst (spawn_block s1 t w')) <> dots s1 -> (count s1 < dot_limit s1)%Z)
  /\ (dots_to_add (fst (scan_dot s1 dt n acc d w')) <> dots_to_add acc ->
      (queued n acc < dot_limit s1)%Z)
  /\ ((limit_reached_paused s = true -> paused s = true) ->
      (paused s1 = false ->
       limit_reached_paused s1 = false
       /\ dot_limit s2 = dot_limit s1
       /\ (limit_reached_paused s2 = true <-> (dot_limit s2 <= count s2)%Z)
       /\ (limit_reached_paused s2 = true -> paused s2 = true)
       /\ (limit_reached_paused s2 = false -> paused s2 = false))
      /\ (paused s1 = true -> update s1 dt w' = (s1, w'))
      /\ (limit_reached_paused s1 = true ->
          paused s1 = true
          /\ limit_reached_paused s3 = false /\ paused s3 = false
          /\ (count s3 < dot_limit s3)%Z)).
Proof.
  intros H. cbv zeta.
  pose proof (run_ticks_preserves (fun x => (count x <= dot_limit x)%Z)
                handle_event_count update_count frames s w H) as Hc1.
  cbv beta in Hc1.
  set (s1 := fst (run_ticks s frames w)) in *.
  pose proof (update_count s1 dt w' Hc1) as Hc2.
  split; [lia |]. split; [lia |]. split; [exact Hc1 |]. split; [exact Hc2 |].
  split; [apply spawn_requires_capacity |].
  split; [apply split_requires_capacity |].
  intros Hi.
  pose proof (run_ticks_preserves cap_inv handle_event_cap_inv update_cap_inv
                frames s w (conj H Hi)) as H1.
  fold s1 in H1. destruct H1 as [_ Hi1].
  split; [| split].
  - intros Hp. exact (update_flag s1 dt w' (conj Hc1 Hi1) Hp).
  - intros Hp. apply update_paused. exact Hp.
  - intros Hf. split; [exact (Hi1 Hf) |].
    exact (press_space_ends_event s1 w'' (conj Hc1 Hi1) Hf).
Qed.

Lemma fresh_sim_count : (count fresh_sim <= dot_limit fresh_sim)%Z.
Proof.
  unfold count. simpl. unfold Config.INITIAL_DOT_LIMIT. lia.
Defined.

Lemma population_cap_respected_witness :
  (count fresh_sim <= dot_limit fresh_sim)%Z
  /\ let s1 := fst (run_ticks fresh_sim start_frames (const_world 0 0)) in
     (count s1 <= dot_limit s1 + 1)%Z
     /\ (count (fst (update s1 (1 / 60) (const_world 20 0)))
         <= dot_limit (fst (update s1 (1 / 60) (const_world 20 0))))%Z.
Proof.
  split; [exact fresh_sim_count |].
  pose proof (population_cap_respected fresh_sim start_frames (1 / 60)
                (const_world 0 0) (const_world 20 0) (const_world 20 0)
                0%Z 0%nat (mkScan [] [] []) marked_dot
                fresh_sim_count) as H.
  cbv zeta in *. split; [exact (proj1 H) |].
  exact (proj1 (proj2 (proj2 (proj2 H)))).
Defined.

(** *** The stored normal *)

Lemma reset_dots (s : Simulation) (w : World) : dots (fst (reset s w)) = [].
Proof. reflexivity. Qed.

Lemma spawned_unit (d : Dot) : needs_split d = false -> unit_when_marked d.
Proof. intros H C. congruence. Qed.

Lemma first_unpause_block_dots (s : Simulation) (w : World) :
  dots (fst (first_unpause_block s w)) = dots s
  \/ exists d, dots (fst (first_unpause_block s w)) = dots s ++ [d]
               /\ needs_split d = false.
Proof.
  unfold first_unpause_block.
  destruct (first_unpause s); [| left; reflexivity].
  destruct ((0 <? dot_limit s)%Z && (List.length (dots s) =? 0)%nat)%bool; simpl.
  - right. eexists; split; reflexivity.
  - left. reflexivity.
Qed.

Lemma limit_increase_block_dots (s : Simulation) :
  dots (limit_increase_block s) = dots s.
Proof. unfold limit_increase_block. destruct (limit_reached_paused s); reflexivity. Qed.

Lemma press_space_dots_unit (s : Simulation) (w : World) :
  dots_unit s -> dots_unit (fst (press_space s w)).
Proof.
  intros H. unfold press_space. destruct (paused s); [| exact H].
  unfold bind. pose proof (first_unpause_block_dots s w) as Hd.
  destruct (first_unpause_block s w) as [s1 w1]. cbn [fst] in Hd.
  unfold ret, dots_unit. cbn [fst set_paused dots].
  rewrite limit_increase_block_dots.
  destruct Hd as [-> | (d & -> & Hn)]; [exact H |].
  apply Forall_app. split; [exact H |].
  repeat constructor. apply spawned_unit. exact Hn.
Qed.

Lemma handle_event_dots_unit (s : Simulation) (e : Event) (w : World) :
  dots_unit s -> dots_unit (fst (handle_event s e w)).
Proof.
  intros H. destruct e as [| [] | text |]; simpl; try exact H.
  - apply press_space_dots_unit. exact H.
  - constructor.
  - unfold shape_changed.
    destruct (negb _); [| exact H].
    destruct (shape_lookup _ _); [constructor | exact H].
Qed.

Lemma update_dots_unit (s : Simulation) (dt : R) (w : World) :
  dots_unit s -> dots_unit (fst (update s dt w)).
Proof.
  intros H. destruct (paused s) eqn:Hp.
  - rewrite update_paused by exact Hp. exact H.
  - destruct (update_running s dt w Hp)
      as (s1 & acc & -> & _ & _ & _ & Hd & w1 & ->).
    unfold dots_unit. rewrite (proj1 (limit_check_fields _)). cbn [set_dots dots].
    assert (H1 : Forall unit_when_marked (dots s1)).
    { destruct Hd as [-> | (_ & d & -> & Hn)]; [exact H |].
      apply Forall_app. split; [exact H |].
      repeat constructor. apply spawned_unit. exact Hn. }
    destruct (scan_dots_unit s1 dt (List.length (dots s1)) (dots s1)
                (mkScan [] [] []) w1 H1 (Forall_nil _) (Forall_nil _)) as [Hs Ha].
    apply Forall_app. split; assumption.
Qed.

Lemma run_dots_unit (noise2 : Z -> R -> R -> R) (frames : list (list Event * R))
    (w : World) :
  dots_unit (fst (run noise2 frames w)).
Proof.
  unfold run, bind.
  assert (H : dots_unit (fst (Simulation_init noise2 w))).
  { unfold Simulation_init, bind.
    destruct (define_shapes noise2 w) as [defs w1]. constructor. }
  destruct (Simulation_init noise2 w) as [s0 w0].
  apply (run_ticks_preserves dots_unit handle_event_dots_unit update_dots_unit).
  exact H.
Qed.

Lemma split_clears (d : Dot) (w : World) :
  needs_split (fst (fst (split d w))) = false
  /\ last_collision_normal (fst (fst (split d w))) = None.
Proof. rewrite split_children. simpl. auto. Qed.

(** The iteration of the scan in which the cap blocks a due split: the
    clock reads 60 ms, the dot was marked at 0 ms. *)
Lemma blocked_example :
  split_blocked nearly_full_sim (Z.to_nat 9999) one_split_queued
    (fst (scan_dot nearly_full_sim (1 / 60) (Z.to_nat 9999) one_split_queued
            marked_dot (const_world 60 0)))
    (fst (collide_or_move nearly_full_sim (1 / 60) marked_dot (const_world 60 0))).
Proof.
  unfold scan_dot, bind.
  destruct (collide_or_move_marked nearly_full_sim (1 / 60) marked_dot
              (const_world 60 0) eq_refl) as (Hw & Hn & _ & Ht).
  destruct (collide_or_move nearly_full_sim (1 / 60) marked_dot (const_world 60 0))
    as [d2 w1]. cbn [fst snd] in *. subst w1.
  unfold should_split, bind, ret, get_ticks. rewrite Hn, Ht. simpl.
  unfold split_blocked, queued. simpl.
  repeat split; try reflexivity; try assumption.
Qed.

Lemma marked_dot_unit : unit_when_marked marked_dot.
Proof.
  intros _. exists (mkVec 1 0). split; [reflexivity |].
  apply length_unit. unfold length_squared, vdot. simpl. ring.
Defined.

(** C3 (as the code has it) — In every state the program reaches, a dot
    whose [needs_split] flag is set stores a unit-length normal.  The stored
    normal is cleared by [split], which also resets the flag, and by nothing
    else: the collide-or-move statement never clears it, and when the cap
    blocks a due split the dot is kept with its flag reset and its stored
    unit normal still in place. *)
Theorem stored_normal_lifecycle
    (noise2 : Z -> R -> R -> R) (frames : list (list Event * R)) (w : World)
    (s : Simulation) (dt : R) (n : nat) (acc : Scan) (d : Dot) (w' : World) :
  let d2 := fst (collide_or_move s dt d w') in
  let acc' := fst (scan_dot s dt n acc d w') in
  Forall unit_when_marked (dots (fst (run noise2 frames w)))
  /\ (needs_split (fst (fst (split d w'))) = false
      /\ last_collision_normal (fst (fst (split d w'))) = None)
  /\ keeps_normal d d2
  /\ (unit_when_marked d ->
      split_blocked s n acc acc' d2 ->
      exists d' m,
        survivors acc' = survivors acc ++ [d']
        /\ needs_split d' = false
        /\ last_collision_normal d' = Some m
        /\ length m = 1).
Proof.
  cbv zeta. split; [apply run_dots_unit |].
  split; [apply split_clears |].
  split; [apply collide_or_move_keeps |].
  intros Hu (Hn & _ & Es & _).
  destruct (collide_or_move_unit s dt d w' Hu Hn) as (m & Hm & Hl).
  exists (set_needs_split (fst (collide_or_move s dt d w')) false), m.
  split; [exact Es |]. split; [reflexivity |]. split; [exact Hm | exact Hl].
Qed.

Lemma stored_normal_lifecycle_witness :
  exists d' m,
    survivors (fst (scan_dot nearly_full_sim (1 / 60) (Z.to_nat 9999)
                      one_split_queued marked_dot (const_world 60 0)))
    = survivors one_split_queued ++ [d']
    /\ needs_split d' = false
    /\ last_collision_normal d' = Some m
    /\ length m = 1.
Proof.
  exact (proj2 (proj2 (proj2
           (stored_normal_lifecycle (fun _ _ _ => 0) [] (const_world 0 0)
              nearly_full_sim (1 / 60) (Z.to_nat 9999) one_split_queued
              marked_dot (const_world 60 0))))
           marked_dot_unit blocked_example).
Defined.

(** **** A blocked split inside a whole update pass *)

Lemma resolved_clock (d d' : Dot) (w w' : World) :
  resolved d w d' w' -> clock w' = clock w.
Proof.
  intros (p & n & m & Hm). unfold mark_for_split in Hm.
  destruct (negb _); unfold bind, get_ticks, ret in Hm;
    inversion Hm; reflexivity.
Qed.

Lemma collide_or_move_clock (s : Simulation) (dt : R) (d : Dot) (w : World) :
  clock (snd (collide_or_move s dt d w)) = clock w.
Proof.
  destruct (collide_or_move_cases s dt d w) as [E | (d' & w' & E & Hr)];
    rewrite E; simpl; [reflexivity | exact (resolved_clock d d' w w' Hr)].
Qed.

Lemma should_split_clock (d : Dot) (w : World) :
  clock (snd (should_split d w)) = clock w.
Proof. unfold should_split. destruct (needs_split d); reflexivity. Qed.

Lemma split_clock (d : Dot) (w : World) : clock (snd (split d w)) = clock w.
Proof. rewrite split_children. reflexivity. Qed.

Lemma scan_dot_clock (s : Simulation) (dt : R) (n : nat) (acc : Scan)
    (d : Dot) (w : World) :
  clock (snd (scan_dot s dt n acc d w)) = clock w.
Proof.
  unfold scan_dot, bind.
  pose proof (collide_or_move_clock s dt d w) as H1.
  destruct (collide_or_move s dt d w) as [d2 w1]. cbn [snd] in H1.
  pose proof (should_split_clock d2 w1) as H2.
  destruct (should_split d2 w1) as [sp w2]. cbn [snd] in H2.
  destruct sp; [destruct (_ <? _)%Z |]; unfold ret; cbn [snd]; try congruence.
  pose proof (split_clock d2 w2) as H3.
  destruct (split d2 w2) as [[d3 new] w3]. cbn [snd] in *. congruence.
Qed.

(** A marked dot whose delay has elapsed on the clock is split when there
    is room under the cap and unmarked otherwise. *)
Lemma scan_dot_due (s : Simulation) (dt : R) (n : nat) (acc : Scan)
    (d : Dot) (w : World) :
  needs_split d = true ->
  (Config.SPLIT_DELAY <=? clock w (clock_calls w) - split_timer_start d)%Z = true ->
  let acc' := fst (scan_dot s dt n acc d w) in
  let d2 := fst (collide_or_move s dt d w) in
  if (queued n acc <? dot_limit s)%Z
  then split_executed s n acc acc' d2
  else split_blocked s n acc acc' d2.
Proof.
  intros Hd Hdue. cbv zeta.
  destruct (scan_dot_outcome s dt n acc d w)
    as [Hx | [Hb | (Es & _)]].
  - pose proof (proj1 (proj2 Hx)) as Hq. apply Z.ltb_lt in Hq. rewrite Hq.
    exact Hx.
  - pose proof (proj1 (proj2 Hb)) as Hq. apply Z.ltb_ge in Hq. rewrite Hq.
    exact Hb.
  - exfalso. revert Es. unfold scan_dot, bind.
    destruct (collide_or_move_marked s dt d w Hd) as (Hw & Hn & _ & Ht).
    destruct (collide_or_move s dt d w) as [d2 w1]. cbn [fst snd] in *. subst w1.
    unfold should_split, bind, get_ticks, ret. rewrite Hn, Ht, Hdue.
    destruct (_ <? _)%Z.
    + rewrite split_children. cbn [fst survivors]. intros Es.
      apply (f_equal (@List.length Dot)) in Es. rewrite length_app in Es.
      simpl in Es. lia.
    + cbn [fst survivors]. intros Es. apply app_inv_head in Es.
      inversion Es as [Es']. rewrite <- Es' in Hn. discriminate.
Qed.

Lemma scan_dots_survivors_prefix (s : Simulation) (dt : R) (n : nat)
    (ds : list Dot) :
  forall (acc : Scan) (w : World),
    exists l, survivors (fst (scan_dots s dt n acc ds w)) = survivors acc ++ l.
Proof.
  induction ds as [| d ds IH]; intros acc w.
  - exists []. simpl. rewrite app_nil_r. reflexivity.
  - rewrite scan_dots_cons.
    destruct (IH (fst (scan_dot s dt n acc d w)) (snd (scan_dot s dt n acc d w)))
      as [l Hl].
    rewrite Hl.
    destruct (scan_dot_outcome s dt n acc d w)
      as [(_ & _ & Es & _) | [(_ & _ & Es & _) | (Es & _)]]; rewrite Es.
    + exists l. reflexivity.
    + eexists. rewrite <- app_assoc. reflexivity.
    + eexists. rewrite <- app_assoc. reflexivity.
Qed.

(** An update pass on a running simulation whose spawn interval has not
    elapsed goes straight to the scan. *)
Lemma update_no_spawn (s : Simulation) (dt : R) (w : World) :
  paused s = false ->
  (negb (first_unpause s)
   && (Config.REGULAR_SPAWN_INTERVAL_MS
       <=? clock w (clock_calls w) - last_spawn_time s)%Z)%bool = false ->
  exists w1,
    clock w1 = clock w
    /\ fst (update s dt w)
       = limit_check
           (set_dots s
              (survivors (fst (scan_dots s dt (List.length (dots s))
                                 (mkScan [] [] []) (dots s) w1))
               ++ dots_to_add (fst (scan_dots s dt (List.length (dots s))
                                      (mkScan [] [] []) (dots s) w1)))).
Proof.
  intros Hp Hs. unfold update. rewrite Hp. unfold bind at 1. unfold get_ticks.
  unfold bind at 1. unfold spawn_block. rewrite Hs. unfold ret at 1.
  unfold bind, ret.
  exists (mkWorld (clock w) (S (clock_calls w)) (rand w) (rand_calls w)
                  (randi w) (randi_calls w)).
  split; [reflexivity |].
  destruct (scan_dots s dt _ _ (dots s) _). reflexivity.
Qed.

(** C3, refuted as stated: a running simulation holds 9999 dots under the
    cap 10000, all marked at 0 ms with the normal (1, 0); the clock reads
    60 ms.  The update pass splits the first dot, which fills the cap, and
    the cap blocks the split of the second one: after the pass that dot
    leads the particle list, unmarked and still storing a normal. *)
Lemma blocked_split_keeps_normal :
  exists d' rest,
    dots (fst (update nearly_full_sim (1 / 60) (const_world 60 0))) = d' :: rest
    /\ needs_split d' = false
    /\ last_collision_normal d' = Some (mkVec 1 0)
    /\ last_collision_normal d' <> None.
Proof.
  set (w0 := const_world 60 0).
  destruct (update_no_spawn nearly_full_sim (1 / 60) w0 eq_refl eq_refl)
    as (w1 & Hw1 & ->).
  rewrite (proj1 (limit_check_fields _)). cbn [set_dots dots].
  set (n := List.length (dots nearly_full_sim)).
  assert (Hn : n = Z.to_nat 9999).
  { unfold n, nearly_full_sim. cbn [dots]. apply repeat_length. }
  clearbody n.
  set (rest := repeat marked_dot (Z.to_nat 9997)).
  assert (Hd : dots nearly_full_sim = marked_dot :: marked_dot :: rest).
  { unfold nearly_full_sim, rest. cbn [dots].
    replace (Z.to_nat 9999) with (S (S (Z.to_nat 9997))) by lia. reflexivity. }
  rewrite Hd. clearbody rest.
  rewrite (scan_dots_cons nearly_full_sim (1 / 60) n (mkScan [] [] []) marked_dot
             (marked_dot :: rest) w1).
  set (a1 := fst (scan_dot nearly_full_sim (1 / 60) n (mkScan [] [] []) marked_dot w1)).
  set (w2 := snd (scan_dot nearly_full_sim (1 / 60) n (mkScan [] [] []) marked_dot w1)).
  rewrite (scan_dots_cons nearly_full_sim (1 / 60) n a1 marked_dot rest w2).
  assert (Hw2 : clock w2 = clock w0).
  { unfold w2. rewrite scan_dot_clock. exact Hw1. }
  (* first dot: the split is executed *)
  pose proof (scan_dot_due nearly_full_sim (1 / 60) n (mkScan [] [] []) marked_dot w1
                eq_refl) as H1.
  rewrite Hw1 in H1. specialize (H1 eq_refl). cbv zeta in H1. fold a1 in H1.
  assert (Hq1 : (queued n (mkScan [] [] []) <? dot_limit nearly_full_sim)%Z = true).
  { unfold queued. rewrite Hn. reflexivity. }
  rewrite Hq1 in H1.
  destruct H1 as (_ & _ & Es1 & c1 & c2 & p & Ea1 & Er1 & _).
  (* second dot: the split is blocked *)
  pose proof (scan_dot_due nearly_full_sim (1 / 60) n a1 marked_dot w2 eq_refl) as H2.
  rewrite Hw2 in H2. specialize (H2 eq_refl). cbv zeta in H2.
  assert (Hq2 : (queued n a1 <? dot_limit nearly_full_sim)%Z = false).
  { unfold queued. rewrite Ea1, Er1, Hn. reflexivity. }
  rewrite Hq2 in H2.
  destruct H2 as (_ & _ & Es2 & _).
  destruct (scan_dots_survivors_prefix nearly_full_sim (1 / 60) n rest
              (fst (scan_dot nearly_full_sim (1 / 60) n a1 marked_dot w2))
              (snd (scan_dot nearly_full_sim (1 / 60) n a1 marked_dot w2)))
    as [l Hl].
  rewrite Hl, Es2, Es1. cbn [survivors app].
  destruct (collide_or_move_marked nearly_full_sim (1 / 60) marked_dot w2 eq_refl)
    as (_ & _ & Hnorm & _).
  eexists; eexists. split; [reflexivity |].
  split; [reflexivity |]. cbn [set_needs_split last_collision_normal].
  rewrite Hnorm.
  split; [reflexivity | discriminate].
Qed.

(** ** simulation.py: the radii of the noise-perturbed polygon *)







Lemma max_extent_radius_eq : max_extent_radius = 486.
Proof. reflexivity. Qed.

Lemma base_r_pos : 0 < Ameba.base_r.
Proof.
  unfold Ameba.base_r, Ameba.base_r_factor. rewrite max_extent_radius_eq. lra.
Qed.




Lemma generated_radius_bounds (noise2 : R -> R -> R) (i : nat) :
  0 < Ameba.generated_radius noise2 i
  /\ Ameba.generated_radius noise2 i <= Ameba.current_radius_unscaled noise2 i
  /\ Ameba.base_r * (2 / 10) <= Ameba.current_radius_unscaled noise2 i
  /\ (Ameba.base_r * (2 / 10) <= Ameba.base_r + Ameba.amplitude * Ameba.noise_val noise2 i ->
      Ameba.generated_radius noise2 i = Ameba.current_radius_unscaled noise2 i).
Proof.
  pose proof base_r_pos as Hb.
  unfold Ameba.generated_radius, Ameba.current_radius_unscaled.
  set (x := Ameba.base_r + Ameba.amplitude * Ameba.noise_val noise2 i).
  unfold Rmax.
  destruct (Rle_dec (Ameba.base_r * (1 / 10)) x);
    destruct (Rle_dec (Ameba.base_r * (2 / 10)) x); repeat split; intros; lra.
Qed.





(** The first loop clamps at [base_r * 0.1] where the second clamps at
    [base_r * 0.2]; the two radii agree as soon as the noise value is at
    least -2, in particular on the range [-1, 1] of the noise function. *)
Lemma generated_radius_agrees (noise2 : R -> R -> R) (i : nat) :
  -2 <= Ameba.noise_val noise2 i ->
  Ameba.generated_radius noise2 i = AmebaSpec.radius noise2 i.
Proof.
  intros H. apply (proj2 (proj2 (proj2 (generated_radius_bounds noise2 i)))).
  unfold Ameba.amplitude, Ameba.noise_amplitude_factor.
  pose proof base_r_pos as Hb. nra.
Qed.



(* ================================================================= *)
(** * Further properties of the code *)

(** ** simulation.py: [find_closest_point_on_segment] *)

Lemma clamp_unit_cases (t0 : R) :
  let t := Rmax 0 (Rmin 1 t0) in
  (t = t0 /\ 0 <= t0 <= 1) \/ (t = 0 /\ t0 <= 0) \/ (t = 1 /\ 1 <= t0).
Proof.
  cbv zeta. unfold Rmax, Rmin.
  destruct (Rle_dec 1 t0); destruct (Rle_dec 0 1); destruct (Rle_dec 0 t0);
    try lra.
Qed.

Lemma segment_distance_gap (ex ey dx dy t u : R) :
  (ex - dx * u) * (ex - dx * u) + (ey - dy * u) * (ey - dy * u)
  - ((ex - dx * t) * (ex - dx * t) + (ey - dy * t) * (ey - dy * t))
  = (u - t) * ((dx * dx + dy * dy) * (u + t) - 2 * (ex * dx + ey * dy)).
Proof. ring. Qed.

(** X1 — The point returned by [find_closest_point_on_segment] lies on
    the segment (it is [a + (b - a) t] for some [t] in [0, 1]), and when the
    segment is not degenerate (squared length at least 1e-9) no point of
    the segment is closer to [p]. *)
Theorem closest_point_is_closest (p a b : Vector2) :
  1 / 1000000000 <= length_squared (b -v a)%vec ->
  let c := find_closest_point_on_segment p a b in
  (exists t, 0 <= t <= 1 /\ c = (a +v (b -v a) *v t)%vec)
  /\ (forall u, 0 <= u <= 1 ->
        length_squared (p -v c)%vec
        <= length_squared (p -v (a +v (b -v a) *v u))%vec).
Proof.
  intros HL. cbv zeta. unfold find_closest_point_on_segment.
  rewrite (proj2 (Rltb_false_iff _ _) HL).
  set (L := length_squared (b -v a)%vec) in *.
  set (t0 := vdot (p -v a)%vec (b -v a)%vec / L).
  assert (HLpos : 0 < L) by lra.
  assert (Ht0 : t0 * L = vdot (p -v a)%vec (b -v a)%vec)
    by (unfold t0; field; lra).
  destruct (clamp_unit_cases t0) as [[Et Hr] | [[Et Hr] | [Et Hr]]];
    cbv zeta in Et; rewrite Et.
  - split; [exists t0; split; [exact Hr | reflexivity] |].
    intros u Hu.
    match goal with |- ?A <= ?B => cut (0 <= B - A); [lra |] end.
    unfold length_squared at 1 2, vdot at 1 2, vsub, vadd, vscale. simpl.
    match goal with |- 0 <= ?e =>
      replace e with ((u - t0) * (L * (u + t0) - 2 * (t0 * L)))
        by (rewrite Ht0; unfold L, length_squared, vdot, vsub; simpl; ring)
    end.
    replace ((u - t0) * (L * (u + t0) - 2 * (t0 * L))) with (L * ((u - t0) * (u - t0))) by ring.
    apply Rmult_le_pos; [lra | exact (Rle_0_sqr (u - t0))].
  - split; [exists 0; split; [lra | reflexivity] |].
    intros u Hu.
    match goal with |- ?A <= ?B => cut (0 <= B - A); [lra |] end.
    unfold length_squared at 1 2, vdot at 1 2, vsub, vadd, vscale. simpl.
    match goal with |- 0 <= ?e =>
      replace e with ((u - 0) * (L * (u + 0) - 2 * (t0 * L)))
        by (rewrite Ht0; unfold L, length_squared, vdot, vsub; simpl; ring)
    end.
    assert (H1 : 0 <= L * u) by (apply Rmult_le_pos; lra).
    assert (H2 : t0 * L <= 0) by nra.
    apply Rmult_le_pos; lra.
  - split; [exists 1; split; [lra | reflexivity] |].
    intros u Hu.
    match goal with |- ?A <= ?B => cut (0 <= B - A); [lra |] end.
    unfold length_squared at 1 2, vdot at 1 2, vsub, vadd, vscale. simpl.
    match goal with |- 0 <= ?e =>
      replace e with ((u - 1) * (L * (u + 1) - 2 * (t0 * L)))
        by (rewrite Ht0; unfold L, length_squared, vdot, vsub; simpl; ring)
    end.
    assert (H1 : L * u <= L) by nra.
    assert (H2 : L <= t0 * L) by nra.
    replace ((u - 1) * (L * (u + 1) - 2 * (t0 * L)))
      with ((1 - u) * (2 * (t0 * L) - L * u - L)) by ring.
    apply Rmult_le_pos; lra.
Qed.

Lemma closest_point_is_closest_witness :
  1 / 1000000000 <= length_squared (mkVec 100 10 -v mkVec 100 0)%vec
  /\ exists t, 0 <= t <= 1
       /\ find_closest_point_on_segment (mkVec 99 5) (mkVec 100 0) (mkVec 100 10)
          = (mkVec 100 0 +v (mkVec 100 10 -v mkVec 100 0) *v t)%vec.
Proof.
  assert (H : 1 / 1000000000 <= length_squared (mkVec 100 10 -v mkVec 100 0)%vec)
    by (unfold length_squared, vdot, vsub; simpl; lra).
  split; [exact H |].
  exact (proj1 (closest_point_is_closest (mkVec 99 5) (mkVec 100 0) (mkVec 100 10) H)).
Defined.

(** ** pygame's [reflect] as the engine uses it *)

(** Reflecting twice about the same unit normal gives the vector
    back; one reflection negates the component along the normal and keeps
    the component along any direction perpendicular to it. *)
Theorem reflect_involution (v n : Vector2) :
  length_squared n = 1 ->
  reflect (reflect v n) n = v
  /\ vdot (reflect v n) n = - vdot v n
  /\ (forall t, vdot t n = 0 -> vdot (reflect v n) t = vdot v t).
Proof.
  intros H. rewrite !(reflect_unit_formula _ n H).
  destruct v as [x y], n as [a b].
  unfold length_squared, vdot, vsub, vscale in *. simpl in *.
  assert (Hk : forall k, k * (a * a + b * b) = k) by (intros k; rewrite H; ring).
  split; [| split].
  - apply vec_eq; simpl.
    + replace (x - a * (2 * (x * a + y * b))
               - a * (2 * ((x - a * (2 * (x * a + y * b))) * a
                           + (y - b * (2 * (x * a + y * b))) * b)))
        with (x - 4 * a * (x * a + y * b)
              + (4 * a * (x * a + y * b)) * (a * a + b * b)) by ring.
      rewrite Hk. ring.
    + replace (y - b * (2 * (x * a + y * b))
               - b * (2 * ((x - a * (2 * (x * a + y * b))) * a
                           + (y - b * (2 * (x * a + y * b))) * b)))
        with (y - 4 * b * (x * a + y * b)
              + (4 * b * (x * a + y * b)) * (a * a + b * b)) by ring.
      rewrite Hk. ring.
  - replace ((x - a * (2 * (x * a + y * b))) * a
             + (y - b * (2 * (x * a + y * b))) * b)
      with ((x * a + y * b) - (2 * (x * a + y * b)) * (a * a + b * b)) by ring.
    rewrite Hk. ring.
  - intros [tx ty] Ht. simpl in *.
    replace ((x - a * (2 * (x * a + y * b))) * tx
             + (y - b * (2 * (x * a + y * b))) * ty)
      with (x * tx + y * ty - 2 * (x * a + y * b) * (tx * a + ty * b)) by ring.
    rewrite Ht. ring.
Qed.

Lemma reflect_involution_witness :
  length_squared (mkVec 0 1) = 1
  /\ reflect (reflect (mkVec 3 4) (mkVec 0 1)) (mkVec 0 1) = mkVec 3 4.
Proof.
  assert (H : length_squared (mkVec 0 1) = 1)
    by (unfold length_squared, vdot; simpl; lra).
  split; [exact H |].
  exact (proj1 (reflect_involution (mkVec 3 4) (mkVec 0 1) H)).
Defined.

(** ** simulation.py: the segments built by [define_shapes] *)

Lemma radians_neg90 : radians (-90) = - (PI / 2).
Proof. unfold radians. field. Qed.

Lemma rotate_neg90 (a : Vector2) : rotate a (-90) = mkVec (vy a) (- vx a).
Proof.
  unfold rotate. rewrite radians_neg90, cos_neg, sin_neg, cos_PI2, sin_PI2.
  apply vec_eq; simpl; ring.
Qed.

Lemma rotate_neg90_length_squared (a : Vector2) :
  length_squared (rotate a (-90)) = length_squared a.
Proof. rewrite rotate_neg90. unfold length_squared, vdot. simpl. ring. Qed.

Lemma build_segment_spec (verts : list Vector2) (i : nat) (seg : Segment) :
  (i < List.length verts)%nat ->
  In seg (build_segment verts i) ->
  v_start seg = nth i verts (mkVec 0 0)
  /\ v_end seg = nth (Nat.modulo (i + 1) (List.length verts)) verts (mkVec 0 0)
  /\ seg_vec seg = (v_end seg -v v_start seg)%vec
  /\ seg_len_sq seg = length_squared (seg_vec seg)
  /\ 1 / 1000000000 <= seg_len_sq seg
  /\ seg_normal_outward seg
     = mkVec (vy (seg_vec seg) / length (seg_vec seg))
             (- vx (seg_vec seg) / length (seg_vec seg)).
Proof.
  intros Hi. unfold build_segment.
  set (a := nth i verts (mkVec 0 0)).
  set (b := nth (Nat.modulo (i + 1) (List.length verts)) verts (mkVec 0 0)).
  destruct (Rlt_dec (length_squared (b -v a)%vec) (1 / 1000000000)) as [Hl | Hl].
  - rewrite (proj2 (Rltb_true_iff _ _) Hl). intros [].
  - rewrite (proj2 (Rltb_false_iff _ _)) by lra.
    intros [<- | []]. simpl.
    repeat split; try reflexivity; try lra.
    unfold normalize. unfold length at 1 2.
    rewrite rotate_neg90_length_squared. rewrite rotate_neg90. reflexivity.
Qed.

Lemma build_segment_normal_unit_aux (verts : list Vector2) (seg : Segment) :
  In seg (build_segments verts) ->
  In (v_start seg) verts /\ In (v_end seg) verts
  /\ seg_vec seg = (v_end seg -v v_start seg)%vec
  /\ seg_len_sq seg = length_squared (seg_vec seg)
  /\ 1 / 1000000000 <= seg_len_sq seg
  /\ length_squared (seg_normal_outward seg) = 1
  /\ vdot (seg_normal_outward seg) (seg_vec seg) = 0
  /\ seg_normal_outward seg
     = mkVec (vy (seg_vec seg) / length (seg_vec seg))
             (- vx (seg_vec seg) / length (seg_vec seg)).
Proof.
  unfold build_segments. intros H. apply in_flat_map in H.
  destruct H as (i & Hi & Hs). apply in_seq in Hi.
  assert (Hlt : (i < List.length verts)%nat) by lia.
  destruct (build_segment_spec verts i seg Hlt Hs) as (Ea & Eb & Ev & El & Hl & En).
  assert (Hpos : 0 < length_squared (seg_vec seg)) by lra.
  assert (Hlen : 0 < length (seg_vec seg)) by (apply sqrt_lt_R0; exact Hpos).
  assert (Hsq : length (seg_vec seg) * length (seg_vec seg) = length_squared (seg_vec seg))
    by (apply sqrt_sqrt; lra).
  split; [rewrite Ea; apply nth_In; exact Hlt |].
  split; [rewrite Eb; apply nth_In; apply Nat.mod_upper_bound; lia |].
  split; [exact Ev |]. split; [exact El |]. split; [exact Hl |].
  split; [| split; [| exact En]].
  - rewrite En. unfold length_squared at 1, vdot. simpl.
    set (r := length (seg_vec seg)) in *.
    replace (vy (seg_vec seg) / r * (vy (seg_vec seg) / r)
             + - vx (seg_vec seg) / r * (- vx (seg_vec seg) / r))
      with ((vx (seg_vec seg) * vx (seg_vec seg) + vy (seg_vec seg) * vy (seg_vec seg))
            / (r * r)) by (field; lra).
    rewrite Hsq. unfold length_squared, vdot. field.
    unfold length_squared, vdot in Hpos. lra.
  - rewrite En. unfold vdot. simpl. field. lra.
Qed.

(** X2 — Every segment that [define_shapes] builds for a polygon joins
    two vertices of the polygon (consecutive ones, wrapping around), is not
    degenerate, records its direction and squared length consistently, and
    carries a unit normal perpendicular to its direction, namely the
    direction turned by a quarter turn, [(y, -x) / length]. *)
Theorem build_segments_wellformed (verts : list Vector2) (seg : Segment) :
  In seg (build_segments verts) ->
  In (v_start seg) verts /\ In (v_end seg) verts
  /\ seg_vec seg = (v_end seg -v v_start seg)%vec
  /\ seg_len_sq seg = length_squared (seg_vec seg)
  /\ 1 / 1000000000 <= seg_len_sq seg
  /\ length_squared (seg_normal_outward seg) = 1
  /\ vdot (seg_normal_outward seg) (seg_vec seg) = 0
  /\ seg_normal_outward seg
     = mkVec (vy (seg_vec seg) / length (seg_vec seg))
             (- vx (seg_vec seg) / length (seg_vec seg)).
Proof. exact (build_segment_normal_unit_aux verts seg). Qed.

Lemma polygon_shape_ok (verts : list Vector2) : shape_ok (polygon verts).
Proof.
  unfold polygon, shape_ok. apply Forall_forall. intros seg H.
  exact (proj1 (proj2 (proj2 (proj2 (proj2 (proj2
           (build_segment_normal_unit_aux verts seg H))))))).
Qed.

Lemma build_segments_wellformed_witness :
  exists seg,
    In seg (build_segments [mkVec 100 0; mkVec 100 10])
    /\ length_squared (seg_normal_outward seg) = 1
    /\ vdot (seg_normal_outward seg) (seg_vec seg) = 0.
Proof.
  assert (H : In (mkSeg (mkVec 100 0) (mkVec 100 10)
                        (mkVec 100 10 -v mkVec 100 0)%vec
                        (length_squared (mkVec 100 10 -v mkVec 100 0)%vec)
                        (normalize (rotate (mkVec 100 10 -v mkVec 100 0)%vec (-90))))
                 (build_segments [mkVec 100 0; mkVec 100 10])).
  { unfold build_segments. simpl. unfold build_segment at 1. simpl.
    rewrite (proj2 (Rltb_false_iff _ _))
      by (unfold length_squared, vdot, vsub; simpl; lra).
    left. reflexivity. }
  eexists. split; [exact H |].
  pose proof (build_segments_wellformed _ _ H) as (_ & _ & _ & _ & _ & H1 & H2 & _).
  split; [exact H1 | exact H2].
Defined.

(** ** simulation.py: the ['circle'] branch of [handle_collisions] *)

Lemma mark_for_split_motion (d : Dot) (m : Vector2) (w : World) :
  pos (fst (mark_for_split d m w)) = pos d
  /\ vel (fst (mark_for_split d m w)) = vel d
  /\ color (fst (mark_for_split d m w)) = color d.
Proof.
  unfold mark_for_split. destruct (negb (needs_split d)); simpl; auto.
Qed.

Lemma normal_to_center_unit (v : Vector2) :
  length_squared
    (if epsilon <? (if 0 <? length_squared v then sqrt (length_squared v) else 0)
     then normalize v else mkVec 0 1) = 1.
Proof.
  assert (He : 0 < epsilon) by (unfold epsilon; lra).
  destruct (Rlt_dec 0 (length_squared v)) as [Hp | Hp].
  - rewrite (proj2 (Rltb_true_iff _ _) Hp).
    destruct (epsilon <? sqrt (length_squared v)).
    + apply normalize_length_squared. exact Hp.
    + unfold length_squared, vdot. simpl. ring.
  - rewrite (proj2 (Rltb_false_iff 0 (length_squared v))) by lra.
    rewrite (proj2 (Rltb_false_iff epsilon 0)) by lra.
    unfold length_squared, vdot. simpl. ring.
Qed.

Lemma scaled_unit_length_squared (n : Vector2) (k : R) (c : Vector2) :
  length_squared n = 1 ->
  length_squared (c -v (c -v n *v k))%vec = k * k.
Proof.
  intros H. unfold length_squared, vdot, vsub, vscale in *. simpl.
  replace ((vx c - (vx c - vx n * k)) * (vx c - (vx c - vx n * k))
           + (vy c - (vy c - vy n * k)) * (vy c - (vy c - vy n * k)))
    with (k * k * (vx n * vx n + vy n * vy n)) by ring.
  rewrite H. ring.
Qed.

Lemma collide_circle_cases (radius off : R) (d : Dot) (dt : R) (w : World) :
  let cd := collision_distance radius off in
  let next_pos := (pos d +v vel d *v dt)%vec in
  let r := collide_circle radius off d dt w in
  (fst (fst r) = true
   /\ cd * cd - epsilon <= length_squared (center_pos -v next_pos)%vec
   /\ exists n, length_squared n = 1
        /\ pos (snd (fst r)) = (center_pos -v n *v (cd - epsilon))%vec
        /\ vel (snd (fst r)) = vel (reflect_vel d (vneg n))
        /\ (epsilon < length (center_pos -v next_pos)%vec ->
            n = normalize (center_pos -v next_pos)%vec))
  \/ (r = (false, d, w)
      /\ length_squared (center_pos -v next_pos)%vec < cd * cd - epsilon).
Proof.
  cbv zeta. unfold collide_circle. fold (collision_distance radius off).
  set (cd := collision_distance radius off).
  set (v := (center_pos -v (pos d +v vel d *v dt))%vec).
  destruct (Rle_dec (cd * cd - epsilon) (length_squared v)) as [Hc | Hc].
  - left. rewrite (proj2 (Rleb_true_iff _ _) Hc).
    set (n := if epsilon <? _ then normalize v else mkVec 0 1).
    pose proof (normal_to_center_unit v) as Hn. fold n in Hn.
    unfold bind, ret.
    destruct (mark_for_split_motion
                (reflect_vel (set_pos d (center_pos -v n *v (cd - epsilon))%vec) (vneg n))
                n w) as (Hp & Hv & _).
    destruct (mark_for_split _ n w) as [d3 w3]. cbn [fst snd] in *.
    split; [reflexivity |]. split; [exact Hc |].
    exists n. split; [exact Hn |].
    destruct (reflect_vel_fields (set_pos d (center_pos -v n *v (cd - epsilon))%vec) (vneg n))
      as (_ & _ & _ & Hp').
    split; [rewrite Hp, Hp'; reflexivity |].
    split.
    + rewrite Hv. unfold reflect_vel. simpl.
      destruct (epsilon <? length_squared (vel d)); reflexivity.
    + intros Hbig. unfold n. unfold length in Hbig.
      assert (He : 0 < epsilon) by (unfold epsilon; lra).
      assert (Hpos : 0 < length_squared v).
      { destruct (Rle_lt_dec (length_squared v) 0) as [H0 | H0]; [| exact H0].
        rewrite (sqrt_neg_0 _ H0) in Hbig. lra. }
      rewrite (proj2 (Rltb_true_iff 0 (length_squared v)) Hpos).
      rewrite (proj2 (Rltb_true_iff _ _) Hbig). reflexivity.
  - right. rewrite (proj2 (Rleb_false_iff _ _)) by lra.
    split; [reflexivity | lra].
Qed.

Lemma handle_collisions_circle (s : Simulation) (radius : R) (d : Dot) (dt : R)
    (w : World) :
  current_shape_data s = CircleShape radius ->
  handle_collisions s d dt w
  = collide_circle radius
      (Config.dict_get Config.COLLISION_BOUNDS_INWARD_OFFSET (current_shape_name s) 0)
      d dt w.
Proof. intros H. unfold handle_collisions. rewrite H. reflexivity. Qed.

Lemma reflect_normal_component (v n : Vector2) :
  length_squared n = 1 -> vdot (reflect v n) n = - vdot v n.
Proof.
  intros H. rewrite (reflect_unit_formula v n H).
  destruct v as [x y], n as [a b].
  unfold length_squared, vdot, vsub, vscale in *. simpl in *.
  replace ((x - a * (2 * (x * a + y * b))) * a
           + (y - b * (2 * (x * a + y * b))) * b)
    with ((x * a + y * b) - (2 * (x * a + y * b)) * (a * a + b * b)) by ring.
  rewrite H. ring.
Qed.

Lemma vneg_unit (n : Vector2) : length_squared n = 1 -> length_squared (vneg n) = 1.
Proof.
  intros H. unfold length_squared, vdot, vneg in *. simpl. rewrite <- H. ring.
Qed.

(** X3 — With a circular boundary whose collision distance exceeds
    [epsilon / 2], every dot leaves the collide-or-move statement strictly
    inside the collision circle, wherever it started: a dot whose next
    position would reach the circle is put at distance
    [collision_distance - epsilon] from the centre, any other dot moves to
    its next position, which is inside. *)
Theorem circle_containment (s : Simulation) (radius : R) (d : Dot) (dt : R)
    (w : World) :
  current_shape_data s = CircleShape radius ->
  let cd :=
    collision_distance radius
      (Config.dict_get Config.COLLISION_BOUNDS_INWARD_OFFSET (current_shape_name s) 0) in
  epsilon < 2 * cd ->
  let collided := fst (fst (handle_collisions s d dt w)) in
  let d' := fst (collide_or_move s dt d w) in
  length_squared (center_pos -v pos d')%vec < cd * cd
  /\ (collided = true ->
      length_squared (center_pos -v pos d')%vec = (cd - epsilon) * (cd - epsilon))
  /\ (collided = false -> pos d' = (pos d +v vel d *v dt)%vec).
Proof.
  intros Hs cd Hcd. cbv zeta. unfold collide_or_move, bind, ret.
  rewrite (handle_collisions_circle s radius d dt w Hs). fold cd.
  assert (He : 0 < epsilon) by (unfold epsilon; lra).
  destruct (collide_circle_cases radius
              (Config.dict_get Config.COLLISION_BOUNDS_INWARD_OFFSET (current_shape_name s) 0)
              d dt w) as [(Hc & _ & n & Hn & Hp & _) | (E & Hlt)];
    cbv zeta in *; fold cd in Hp || fold cd in Hlt.
  - destruct (collide_circle radius _ d dt w) as [[b d1] w1].
    cbn [fst snd] in *. subst b. cbn [negb].
    rewrite Hp, (scaled_unit_length_squared n (cd - epsilon) center_pos Hn).
    split; [nra |]. split; [reflexivity | discriminate].
  - rewrite E. cbn [fst snd negb]. simpl pos.
    split; [lra |]. split; [discriminate | reflexivity].
Qed.

(** X4 — When the ['circle'] branch reports a collision for a dot whose
    squared speed exceeds [epsilon], the velocity is mirrored about the
    unit normal [n] that points from the collision position to the centre:
    its component along [n] changes sign, so a dot that was heading outwards
    heads back towards the centre, and its speed is unchanged. *)
Theorem circle_bounce_turns_inward (radius off : R) (d : Dot) (dt : R) (w : World) :
  fst (fst (collide_circle radius off d dt w)) = true ->
  epsilon < length_squared (vel d) ->
  let d' := snd (fst (collide_circle radius off d dt w)) in
  exists n,
    length_squared n = 1
    /\ pos d' = (center_pos -v n *v (collision_distance radius off - epsilon))%vec
    /\ vdot (vel d') n = - vdot (vel d) n
    /\ length_squared (vel d') = length_squared (vel d).
Proof.
  intros Hc Hv. cbv zeta.
  destruct (collide_circle_cases radius off d dt w)
    as [(_ & _ & n & Hn & Hp & Hvel & _) | (E & _)]; cbv zeta in *.
  - exists n. split; [exact Hn |]. split; [exact Hp |].
    rewrite Hvel. unfold reflect_vel. rewrite (proj2 (Rltb_true_iff _ _) Hv).
    simpl vel.
    pose proof (vneg_unit n Hn) as Hn'.
    split.
    + pose proof (reflect_normal_component (vel d) (vneg n) Hn') as H.
      unfold vdot, vneg in *. simpl in *. lra.
    + apply reflect_length_squared. exact Hn'.
  - rewrite E in Hc. discriminate.
Qed.

Lemma default_circle_distance :
  collision_distance max_extent_radius
    (Config.dict_get Config.COLLISION_BOUNDS_INWARD_OFFSET (current_shape_name fresh_sim) 0)
  = 957 / 2.
Proof.
  change (Config.dict_get Config.COLLISION_BOUNDS_INWARD_OFFSET
            (current_shape_name fresh_sim) 0) with 0.
  unfold collision_distance, Config.BOUNDARY_THICKNESS, Config.DOT_RADIUS.
  rewrite max_extent_radius_eq. rewrite Rmax_right by lra. lra.
Qed.

Lemma circle_containment_witness :
  length_squared
    (center_pos -v pos (fst (collide_or_move fresh_sim (1 / 60) marked_dot (const_world 0 0))))%vec
  < 957 / 2 * (957 / 2).
Proof.
  assert (H : epsilon
              < 2 * collision_distance max_extent_radius
                      (Config.dict_get Config.COLLISION_BOUNDS_INWARD_OFFSET
                         (current_shape_name fresh_sim) 0))
    by (rewrite default_circle_distance; unfold epsilon; lra).
  pose proof (circle_containment fresh_sim max_extent_radius marked_dot (1 / 60)
                (const_world 0 0) eq_refl H) as [H1 _].
  rewrite default_circle_distance in H1. exact H1.
Defined.

Lemma far_dot_collides :
  fst (fst (collide_circle max_extent_radius 0 marked_dot (1 / 60) (const_world 0 0)))
  = true.
Proof.
  destruct (collide_circle_cases max_extent_radius 0 marked_dot (1 / 60) (const_world 0 0))
    as [(Hc & _) | (_ & Hlt)]; cbv zeta in *; [exact Hc | exfalso].
  revert Hlt.
  unfold collision_distance, Config.BOUNDARY_THICKNESS, Config.DOT_RADIUS.
  rewrite max_extent_radius_eq. rewrite Rmax_right by lra.
  unfold center_pos. change (IZR Config.CENTER_X) with 540.
  change (IZR Config.CENTER_Y) with 540.
  unfold length_squared, vdot, vsub, vadd, vscale, epsilon. simpl. lra.
Qed.

Lemma circle_bounce_turns_inward_witness :
  exists n,
    length_squared n = 1
    /\ vdot (vel (snd (fst (collide_circle max_extent_radius 0 marked_dot (1 / 60)
                              (const_world 0 0))))) n
       = - vdot (vel marked_dot) n.
Proof.
  assert (Hv : epsilon < length_squared (vel marked_dot))
    by (unfold epsilon, length_squared, vdot; simpl; lra).
  destruct (circle_bounce_turns_inward max_extent_radius 0 marked_dot (1 / 60)
              (const_world 0 0) far_dot_collides Hv) as (n & Hn & _ & Hd & _).
  exists n. split; [exact Hn | exact Hd].
Defined.

(** ** simulation.py: the polygon branch of [handle_collisions] *)

Lemma safety_step_eq (next_pos : Vector2) (off : R) (best : option (R * Segment))
    (seg : Segment) :
  safety_step next_pos off best seg =
    if near_edge next_pos seg
       && match best with
          | None => true
          | Some (max_overlap, _) => max_overlap <? signed_overlap next_pos seg off
          end
    then Some (signed_overlap next_pos seg off, seg)
    else best.
Proof.
  unfold safety_step, near_edge.
  destruct (proximity_threshold_sq <? _); simpl; [reflexivity |].
  destruct best as [[m sg] |]; reflexivity.
Qed.

(** Invariant of the safety-net loop, for any start of the selection. *)
Lemma safety_fold (next_pos : Vector2) (off : R) (segs : list Segment) :
  forall best : option (R * Segment),
    match fold_left (safety_step next_pos off) segs best with
    | None =>
        best = None /\ forall seg, In seg segs -> near_edge next_pos seg = false
    | Some (m, seg) =>
        (best = Some (m, seg)
         \/ (In seg segs /\ near_edge next_pos seg = true
             /\ m = signed_overlap next_pos seg off))
        /\ (forall seg', In seg' segs -> near_edge next_pos seg' = true ->
                         signed_overlap next_pos seg' off <= m)
        /\ (forall m0 s0, best = Some (m0, s0) -> m0 <= m)
    end.
Proof.
  induction segs as [| s0 segs IH]; intros best.
  - simpl. destruct best as [[m seg] |].
    + split; [left; reflexivity |]. split; [intros ? [] |].
      intros m0 sg Hh. inversion Hh. lra.
    + split; [reflexivity | intros ? []].
  - simpl. specialize (IH (safety_step next_pos off best s0)).
    rewrite safety_step_eq in IH |- *.
    destruct (near_edge next_pos s0) eqn:Hc; simpl in IH |- *.
    + destruct best as [[mb sb] |].
      * destruct (Rlt_dec mb (signed_overlap next_pos s0 off)) as [Hb | Hb].
        -- rewrite (proj2 (Rltb_true_iff _ _) Hb) in IH |- *.
           destruct (fold_left _ segs _) as [[m seg] |].
           ++ destruct IH as (Hsel & Hmax & Hbest).
              pose proof (Hbest _ _ eq_refl) as H0.
              split; [| split].
              ** right. destruct Hsel as [Hsel | (Hi & Hn & Hm)].
                 --- inversion Hsel; subst. auto.
                 --- auto.
              ** intros seg' [<- | Hi] Hn; [exact H0 | apply Hmax; assumption].
              ** intros m0 sg Hh. inversion Hh; subst. lra.
           ++ destruct IH as [IH _]. discriminate.
        -- rewrite (proj2 (Rltb_false_iff _ _)) in IH |- * by lra.
           destruct (fold_left _ segs _) as [[m seg] |].
           ++ destruct IH as (Hsel & Hmax & Hbest).
              pose proof (Hbest _ _ eq_refl) as H0.
              split; [| split].
              ** destruct Hsel as [Hsel | (Hi & Hn & Hm)]; [left | right]; auto.
              ** intros seg' [<- | Hi] Hn; [lra | apply Hmax; assumption].
              ** exact Hbest.
           ++ destruct IH as [IH _]. discriminate.
      * destruct (fold_left _ segs _) as [[m seg] |].
        -- destruct IH as (Hsel & Hmax & Hbest).
           pose proof (Hbest _ _ eq_refl) as H0.
           split; [| split].
           ++ right. destruct Hsel as [Hsel | (Hi & Hn & Hm)].
              ** inversion Hsel; subst. auto.
              ** auto.
           ++ intros seg' [<- | Hi] Hn; [exact H0 | apply Hmax; assumption].
           ++ intros m0 sg Hh. discriminate.
        -- destruct IH as [IH _]. discriminate.
    + destruct (fold_left _ segs best) as [[m seg] |].
      * destruct IH as (Hsel & Hmax & Hbest). split; [| split].
        -- destruct Hsel as [Hsel | (Hi & Hn & Hm)]; [left | right]; auto.
        -- intros seg' [<- | Hi] Hn; [congruence | apply Hmax; assumption].
        -- exact Hbest.
      * destruct IH as [IH Hn]. split; [exact IH |].
        intros seg' [<- | Hi]; [exact Hc | apply Hn; assumption].
Qed.

Lemma safety_net_cases (d : Dot) (off dt : R) (segs : list Segment) (w : World) :
  safety_net d off dt segs w = (false, d, w)
  \/ exists m seg,
       safety_choice d off dt segs = Some (m, seg)
       /\ epsilon < m
       /\ epsilon < vdot (vel d) (seg_normal_outward seg)
       /\ safety_net d off dt segs w
          = bind (mark_for_split
                    (reflect_vel
                       (set_pos d ((pos d +v vel d *v dt)
                                   -v seg_normal_outward seg *v (m + epsilon))%vec)
                       (seg_normal_outward seg))
                    (vneg (seg_normal_outward seg)))
                 (fun d3 => ret (true, d3)) w.
Proof.
  unfold safety_net, safety_choice.
  destruct (fold_left _ segs None) as [[m seg] |]; [| left; reflexivity].
  destruct (Rlt_dec epsilon m) as [Hm | Hm];
    [rewrite (proj2 (Rltb_true_iff _ _) Hm)
    | rewrite (proj2 (Rltb_false_iff _ _)) by lra; left; reflexivity].
  destruct (Rlt_dec epsilon (vdot (vel d) (seg_normal_outward seg))) as [Hv | Hv];
    [rewrite (proj2 (Rltb_true_iff _ _) Hv)
    | rewrite (proj2 (Rltb_false_iff _ _)) by lra; left; reflexivity].
  right. exists m, seg. repeat split; assumption.
Qed.

Lemma resolved_dot_motion (d : Dot) (p n m : Vector2) (w : World) :
  let r := bind (mark_for_split (reflect_vel (set_pos d p) n) m)
                (fun d3 => ret (true, d3)) w in
  fst (fst r) = true
  /\ pos (snd (fst r)) = p
  /\ vel (snd (fst r)) = vel (reflect_vel d n).
Proof.
  cbv zeta. unfold bind, ret.
  destruct (mark_for_split_motion (reflect_vel (set_pos d p) n) m w) as (Hp & Hv & _).
  destruct (mark_for_split _ m w) as [d3 w3]. cbn [fst snd] in *.
  destruct (reflect_vel_fields (set_pos d p) n) as (_ & _ & _ & Hp').
  split; [reflexivity |]. split; [rewrite Hp, Hp'; reflexivity |].
  rewrite Hv. unfold reflect_vel. simpl.
  destruct (epsilon <? length_squared (vel d)); reflexivity.
Qed.

(** X5 — When the safety net reports a collision, the edge it resolves
    against lies within the proximity threshold of the dot's next position,
    overlaps it by more than [epsilon], is approached by the dot, and has
    the largest overlap among all edges within the threshold; the dot is put
    at its next position pushed back along the edge normal by that overlap
    plus [epsilon]. *)
Theorem safety_net_picks_deepest (d : Dot) (off dt : R) (segs : list Segment)
    (w : World) :
  fst (fst (safety_net d off dt segs w)) = true ->
  let next_pos := (pos d +v vel d *v dt)%vec in
  exists m seg,
    safety_choice d off dt segs = Some (m, seg)
    /\ In seg segs
    /\ near_edge next_pos seg = true
    /\ m = signed_overlap next_pos seg off
    /\ epsilon < m
    /\ epsilon < vdot (vel d) (seg_normal_outward seg)
    /\ (forall seg', In seg' segs -> near_edge next_pos seg' = true ->
                     signed_overlap next_pos seg' off <= m)
    /\ pos (snd (fst (safety_net d off dt segs w)))
       = (next_pos -v seg_normal_outward seg *v (m + epsilon))%vec.
Proof.
  intros Hc. cbv zeta.
  destruct (safety_net_cases d off dt segs w) as [E | (m & seg & Ech & Hm & Hv & E)].
  - rewrite E in Hc. discriminate.
  - exists m, seg. split; [exact Ech |].
    pose proof (safety_fold (pos d +v vel d *v dt)%vec off segs None) as Hf.
    unfold safety_choice in Ech. rewrite Ech in Hf.
    destruct Hf as ([Hf | (Hi & Hn & Hmo)] & Hmax & _); [discriminate |].
    repeat split; try assumption.
    rewrite E. apply resolved_dot_motion.
Qed.

Lemma signed_overlap_shift (p : Vector2) (seg : Segment) (off k : R) :
  segment_ok seg ->
  signed_overlap (p -v seg_normal_outward seg *v k)%vec seg off
  = signed_overlap p seg off - k.
Proof.
  unfold segment_ok, signed_overlap, length_squared, vdot, vsub, vscale.
  intros H. simpl.
  set (a := vx (seg_normal_outward seg)) in *.
  set (b := vy (seg_normal_outward seg)) in *.
  replace ((vx p - a * k - vx (v_start seg)) * a + (vy p - b * k - vy (v_start seg)) * b)
    with ((vx p - vx (v_start seg)) * a + (vy p - vy (v_start seg)) * b
          - k * (a * a + b * b)) by ring.
  rewrite H. ring.
Qed.

Lemma reflect_vel_turns (d : Dot) (n : Vector2) :
  length_squared n = 1 ->
  length_squared (vel (reflect_vel d n)) = length_squared (vel d)
  /\ (epsilon < length_squared (vel d) ->
      vdot (vel (reflect_vel d n)) n = - vdot (vel d) n).
Proof.
  intros Hn. unfold reflect_vel.
  destruct (Rlt_dec epsilon (length_squared (vel d))) as [Hv | Hv].
  - rewrite (proj2 (Rltb_true_iff _ _) Hv). simpl.
    split; [apply reflect_length_squared; exact Hn |].
    intros _. apply reflect_normal_component. exact Hn.
  - rewrite (proj2 (Rltb_false_iff _ _)) by lra.
    split; [reflexivity | intros; lra].
Qed.

Lemma collide_polygon_cases (segs : list Segment) (off : R) (d : Dot) (dt : R)
    (w : World) :
  Forall segment_ok segs ->
  let r := collide_polygon segs off d dt w in
  r = (false, d, w)
  \/ (fst (fst r) = true
      /\ exists seg,
           In seg segs
           /\ epsilon < vdot (vel d) (seg_normal_outward seg)
           /\ signed_overlap (pos (snd (fst r))) seg off <= - epsilon
           /\ vel (snd (fst r)) = vel (reflect_vel d (seg_normal_outward seg))).
Proof.
  intros Hok. cbv zeta. unfold collide_polygon.
  pose proof (sweep_fold d off segs None) as Hsw. unfold predictive_sweep.
  destruct (fold_left (sweep_step d off) segs None) as [[[t seg] p] |].
  - right. destruct Hsw as ([Hsw | (Hi & Hc & _)] & _); [discriminate |].
    pose proof (proj1 (edge_candidate_iff d off seg) Hc) as (_ & Hv & _).
    pose proof (proj1 (Forall_forall _ _) Hok seg Hi) as Hseg.
    unfold resolve_predicted.
    set (ov := signed_overlap (pos (set_pos d p)) seg off).
    destruct (Rlt_dec (- epsilon) ov) as [Ho | Ho].
    + rewrite (proj2 (Rltb_true_iff _ _) Ho). rewrite set_pos_set_pos.
      destruct (resolved_dot_motion d
                  (pos (set_pos d p) -v seg_normal_outward seg *v (ov + epsilon))%vec
                  (seg_normal_outward seg) (vneg (seg_normal_outward seg)) w)
        as (H1 & H2 & H3).
      split; [exact H1 |]. exists seg. split; [exact Hi |]. split; [exact Hv |].
      split; [| exact H3].
      rewrite H2, (signed_overlap_shift _ seg off _ Hseg). fold ov. lra.
    + rewrite (proj2 (Rltb_false_iff _ _)) by lra.
      destruct (resolved_dot_motion d p (seg_normal_outward seg)
                  (vneg (seg_normal_outward seg)) w) as (H1 & H2 & H3).
      split; [exact H1 |]. exists seg. split; [exact Hi |]. split; [exact Hv |].
      split; [| exact H3]. rewrite H2. unfold ov in Ho. simpl in Ho. lra.
  - destruct (safety_net_cases d off dt segs w) as [E | (m & seg & Ech & Hm & Hv & E)].
    + left. exact E.
    + right. rewrite E.
      pose proof (safety_fold (pos d +v vel d *v dt)%vec off segs None) as Hf.
      unfold safety_choice in Ech. rewrite Ech in Hf.
      destruct Hf as ([Hf | (Hi & Hn & Hmo)] & _); [discriminate |].
      pose proof (proj1 (Forall_forall _ _) Hok seg Hi) as Hseg.
      destruct (resolved_dot_motion d
                  ((pos d +v vel d *v dt) -v seg_normal_outward seg *v (m + epsilon))%vec
                  (seg_normal_outward seg) (vneg (seg_normal_outward seg)) w)
        as (H1 & H2 & H3).
      split; [exact H1 |]. exists seg. split; [exact Hi |]. split; [exact Hv |].
      split; [| exact H3].
      rewrite H2, (signed_overlap_shift _ seg off _ Hseg). lra.
Qed.

(** X6 — On a polygon whose edge normals have length one, a reported
    collision leaves the dot at least [epsilon] inside the collision line of
    one edge of the boundary, an edge the dot was approaching; its speed is
    unchanged, and unless the speed is negligible its velocity component
    along that edge's outward normal has turned from above [epsilon] to
    below [-epsilon]. *)
Theorem polygon_bounce_inside (segs : list Segment) (off : R) (d : Dot) (dt : R)
    (w : World) :
  Forall segment_ok segs ->
  fst (fst (collide_polygon segs off d dt w)) = true ->
  let d' := snd (fst (collide_polygon segs off d dt w)) in
  exists seg,
    In seg segs
    /\ epsilon < vdot (vel d) (seg_normal_outward seg)
    /\ signed_overlap (pos d') seg off <= - epsilon
    /\ length_squared (vel d') = length_squared (vel d)
    /\ (epsilon < length_squared (vel d) ->
        vdot (vel d') (seg_normal_outward seg) < - epsilon).
Proof.
  intros Hok Hc. cbv zeta.
  destruct (collide_polygon_cases segs off d dt w Hok)
    as [E | (_ & seg & Hi & Hv & Ho & Hvel)]; cbv zeta in *.
  - rewrite E in Hc. discriminate.
  - exists seg. split; [exact Hi |]. split; [exact Hv |]. split; [exact Ho |].
    pose proof (proj1 (Forall_forall _ _) Hok seg Hi) as Hseg.
    destruct (reflect_vel_turns d (seg_normal_outward seg) Hseg) as [H1 H2].
    rewrite Hvel. split; [exact H1 |].
    intros Hs. rewrite (H2 Hs). lra.
Qed.

Lemma wall_segment_ok : Forall segment_ok [wall_segment].
Proof.
  repeat constructor. unfold segment_ok, length_squared, vdot. simpl. ring.
Qed.

Lemma slow_dot_collides (w : World) :
  fst (fst (collide_polygon [wall_segment] (-10) slow_dot (1 / 10) w)) = true.
Proof.
  unfold collide_polygon. rewrite slow_dot_sweep.
  unfold resolve_predicted, bind, ret.
  destruct (mark_for_split _ _ w) as [d4 w4]. reflexivity.
Qed.

Lemma polygon_bounce_inside_witness :
  exists seg,
    In seg [wall_segment]
    /\ signed_overlap
         (pos (snd (fst (collide_polygon [wall_segment] (-10) slow_dot (1 / 10)
                           (const_world 0 0)))))
         seg (-10) <= - epsilon.
Proof.
  destruct (polygon_bounce_inside [wall_segment] (-10) slow_dot (1 / 10)
              (const_world 0 0) wall_segment_ok (slow_dot_collides _))
    as (seg & Hi & _ & Ho & _).
  exists seg. split; [exact Hi | exact Ho].
Defined.

Lemma fast_dot_closest :
  find_closest_point_on_segment (pos fast_dot +v vel fast_dot *v (3 / 200))%vec
    (v_start wall_segment) (v_end wall_segment) = mkVec 100 5.
Proof.
  unfold find_closest_point_on_segment, length_squared, vdot, vsub, vadd, vscale.
  simpl. rcmp.
  replace (((97 + 200 * (3 / 200) - 100) * (100 - 100) + (5 + 0 * (3 / 200) - 0) * (10 - 0)) /
           ((100 - 100) * (100 - 100) + (10 - 0) * (10 - 0))) with (1 / 2)
    by (field; lra).
  rewrite Rmin_right by lra. rewrite Rmax_right by lra.
  apply vec_eq; simpl; lra.
Qed.

Lemma fast_dot_choice :
  safety_choice fast_dot (-10) (3 / 200) [wall_segment]
  = Some (signed_overlap (pos fast_dot +v vel fast_dot *v (3 / 200))%vec
            wall_segment (-10), wall_segment).
Proof.
  unfold safety_choice. cbn [fold_left]. rewrite safety_step_eq.
  unfold near_edge. rewrite fast_dot_closest.
  rewrite (proj2 (Rltb_false_iff _ _)); [reflexivity |].
  unfold proximity_threshold_sq, Config.DOT_RADIUS, length_squared, vdot, vsub, vadd, vscale.
  simpl. lra.
Qed.

Lemma fast_dot_caught (w : World) :
  fst (fst (safety_net fast_dot (-10) (3 / 200) [wall_segment] w)) = true.
Proof.
  unfold safety_net.
  change (fold_left (safety_step (pos fast_dot +v vel fast_dot *v (3 / 200))%vec (-10))
            [wall_segment] None)
    with (safety_choice fast_dot (-10) (3 / 200) [wall_segment]).
  rewrite fast_dot_choice.
  rewrite (proj2 (Rltb_true_iff epsilon _))
    by (unfold signed_overlap, vdot, vsub, vadd, vscale, epsilon,
          Config.BOUNDARY_THICKNESS, Config.DOT_RADIUS; simpl; lra).
  rewrite (proj2 (Rltb_true_iff epsilon _))
    by (unfold vdot, epsilon; simpl; lra).
  unfold bind, ret. destruct (mark_for_split _ _ w) as [d3 w3]. reflexivity.
Qed.

Lemma safety_net_picks_deepest_witness :
  exists m seg,
    safety_choice fast_dot (-10) (3 / 200) [wall_segment] = Some (m, seg)
    /\ In seg [wall_segment]
    /\ epsilon < m.
Proof.
  destruct (safety_net_picks_deepest fast_dot (-10) (3 / 200) [wall_segment]
              (const_world 0 0) (fast_dot_caught _))
    as (m & seg & Hc & Hi & _ & _ & Hm & _).
  exists m, seg. split; [exact Hc |]. split; [exact Hi | exact Hm].
Defined.

(** ** simulation.py: collide or move, in closed form *)

Lemma vneg_vneg (a : Vector2) : vneg (vneg a) = a.
Proof. apply vec_eq; simpl; ring. Qed.

Lemma length_squared_vneg (a : Vector2) : length_squared (vneg a) = length_squared a.
Proof. unfold length_squared, vdot, vneg. simpl. ring. Qed.

(** The fields of a dot after the three mutations of a resolved collision:
    position set to [p], velocity reflected about [n] unless negligible,
    [mark_for_split] called with [m]. *)
Lemma resolution_fields (d : Dot) (p n m : Vector2) (w : World) :
  let r := mark_for_split (reflect_vel (set_pos d p) n) m w in
  pos (fst r) = p
  /\ (epsilon < length_squared (vel d) -> vel (fst r) = reflect (vel d) n)
  /\ (length_squared (vel d) <= epsilon -> vel (fst r) = vel d)
  /\ color (fst r) = color d
  /\ needs_split (fst r) = true
  /\ (needs_split d = false ->
      split_timer_start (fst r) = clock w (clock_calls w)
      /\ last_collision_normal (fst r)
         = Some (if 1 / 1000000000 <? length_squared m
                 then normalize m else mkVec 0 (-1))
      /\ snd r = snd (get_ticks w))
  /\ (needs_split d = true ->
      split_timer_start (fst r) = split_timer_start d
      /\ last_collision_normal (fst r) = last_collision_normal d
      /\ snd r = w).
Proof.
  cbv zeta. unfold mark_for_split, reflect_vel, bind, ret, get_ticks.
  cbn [vel set_pos].
  destruct (Rlt_dec epsilon (length_squared (vel d))) as [Hv | Hv];
    [rewrite (proj2 (Rltb_true_iff _ _) Hv)
    | rewrite (proj2 (Rltb_false_iff epsilon (length_squared (vel d)))) by lra];
    cbn [needs_split set_vel set_pos pos vel color split_timer_start
         last_collision_normal];
    destruct (needs_split d) eqn:Hn; cbn;
    (split; [reflexivity |]);
    (split; [intros; first [reflexivity | lra] |]);
    (split; [intros; first [reflexivity | lra] |]);
    (split; [reflexivity |]);
    (split; [first [reflexivity | exact Hn] |]);
    (split; intros H; [try discriminate | try discriminate]);
    repeat split; reflexivity.
Qed.

(** The vector that the ['circle'] branch takes as [normal_to_center]. *)
Lemma normal_to_center_cases (v : Vector2) :
  let n := if epsilon <? (if 0 <? length_squared v then sqrt (length_squared v) else 0)
           then normalize v else mkVec 0 1 in
  (epsilon < length v -> n = normalize v)
  /\ (length v <= epsilon -> n = mkVec 0 1).
Proof.
  cbv zeta. unfold length.
  assert (He : 0 < epsilon) by (unfold epsilon; lra).
  destruct (Rlt_dec 0 (length_squared v)) as [Hp | Hp].
  - rewrite (proj2 (Rltb_true_iff _ _) Hp). split; intros H.
    + rewrite (proj2 (Rltb_true_iff _ _) H). reflexivity.
    + rewrite (proj2 (Rltb_false_iff epsilon (sqrt (length_squared v)))) by lra.
      reflexivity.
  - rewrite (proj2 (Rltb_false_iff 0 (length_squared v))) by lra.
    rewrite (proj2 (Rltb_false_iff epsilon 0)) by lra.
    split; intros H; [| reflexivity].
    rewrite sqrt_neg_0 in H by lra. lra.
Qed.

(** Every call of [handle_collisions] either finds no collision and
    returns the dot and the world as they were, or finds one and returns
    the dot after the three mutations, at the point and about the normal of
    [hit_resolution]. *)
Lemma handle_collisions_resolution (s : Simulation) (d : Dot) (dt : R) (w : World) :
  (no_hit s d dt /\ handle_collisions s d dt w = (false, d, w))
  \/ (exists p n,
        hit_resolution s d dt p n
        /\ handle_collisions s d dt w
           = (true,
              fst (mark_for_split (reflect_vel (set_pos d p) n) (vneg n) w),
              snd (mark_for_split (reflect_vel (set_pos d p) n) (vneg n) w))).
Proof.
  unfold handle_collisions, no_hit, hit_resolution, active_offset.
  set (off := Config.dict_get _ _ _).
  destruct (current_shape_data s) as [radius | verts segs].
  - (* circle *)
    unfold collide_circle. fold (collision_distance radius off).
    set (cd := collision_distance radius off).
    set (v := (center_pos -v (pos d +v vel d *v dt))%vec).
    destruct (Rle_dec (cd * cd - epsilon) (length_squared v)) as [Hc | Hc].
    + right. rewrite (proj2 (Rleb_true_iff _ _) Hc).
      pose proof (normal_to_center_unit v) as Hu.
      pose proof (normal_to_center_cases v) as [Hbig Hsmall].
      set (nc := if epsilon <? _ then normalize v else mkVec 0 1) in *.
      exists (center_pos -v nc *v (cd - epsilon))%vec, (vneg nc).
      split.
      * cbv zeta. split; [exact Hc |]. exists nc.
        split; [exact Hbig |]. split; [exact Hsmall |]. split; [exact Hu |].
        split; reflexivity.
      * rewrite vneg_vneg. unfold bind, ret.
        destruct (mark_for_split _ nc w) as [d3 w3]. reflexivity.
    + left. rewrite (proj2 (Rleb_false_iff _ _)) by lra.
      split; [lra | reflexivity].
  - (* polygon *)
    unfold collide_polygon.
    pose proof (sweep_fold d off segs None) as Hsw. unfold predictive_sweep in *.
    destruct (fold_left (sweep_step d off) segs None) as [[[t seg] p0] |].
    + (* the predictive check selected an edge *)
      right. destruct Hsw as ([Hsw | (Hi & Hcand & Ht & Hp0)] & _); [discriminate |].
      pose proof (proj1 (edge_candidate_iff d off seg) Hcand) as (_ & Hv & _).
      unfold resolve_predicted. cbn [pos set_pos]. subst p0.
      set (hp := (pos d +v vel d *v t)%vec).
      destruct (Rlt_dec (- epsilon) (signed_overlap hp seg off)) as [Ho | Ho].
      * rewrite (proj2 (Rltb_true_iff _ _) Ho). rewrite set_pos_set_pos.
        exists (hp -v seg_normal_outward seg *v (signed_overlap hp seg off + epsilon))%vec,
               (seg_normal_outward seg).
        split.
        -- left. exists t, seg. cbv zeta. fold hp.
           split; [reflexivity |]. split; [exact Hi |]. split; [exact Ht |].
           split; [reflexivity |]. split; [exact Hv |].
           split; [intros _; reflexivity | intros H; lra].
        -- unfold bind, ret. destruct (mark_for_split _ _ w) as [d3 w3]. reflexivity.
      * rewrite (proj2 (Rltb_false_iff (- epsilon) (signed_overlap hp seg off))) by lra.
        exists hp, (seg_normal_outward seg).
        split.
        -- left. exists t, seg. cbv zeta. fold hp.
           split; [reflexivity |]. split; [exact Hi |]. split; [exact Ht |].
           split; [reflexivity |]. split; [exact Hv |].
           split; [intros H; lra | intros _; reflexivity].
        -- unfold bind, ret. destruct (mark_for_split _ _ w) as [d3 w3]. reflexivity.
    + (* the safety net *)
      unfold safety_net, safety_choice.
      pose proof (safety_fold (pos d +v vel d *v dt)%vec off segs None) as Hf.
      destruct (fold_left (safety_step _ off) segs None) as [[m seg] |];
        [| left; split; [split; [reflexivity | exact I] | reflexivity]].
      destruct Hf as ([Hf | (Hi & Hnear & Hm)] & _); [discriminate |].
      destruct (Rlt_dec epsilon m) as [Hbig | Hbig];
        [rewrite (proj2 (Rltb_true_iff _ _) Hbig)
        | rewrite (proj2 (Rltb_false_iff epsilon m)) by lra;
          left; split; [split; [reflexivity | left; lra] | reflexivity]].
      destruct (Rlt_dec epsilon (vdot (vel d) (seg_normal_outward seg))) as [Hv | Hv];
        [rewrite (proj2 (Rltb_true_iff _ _) Hv)
        | rewrite (proj2 (Rltb_false_iff epsilon (vdot (vel d) (seg_normal_outward seg))))
            by lra;
          left; split; [split; [reflexivity | right; lra] | reflexivity]].
      right.
      exists ((pos d +v vel d *v dt) -v seg_normal_outward seg *v (m + epsilon))%vec,
             (seg_normal_outward seg).
      split.
      * right. split; [reflexivity |]. exists m, seg.
        split; [reflexivity |]. split; [exact Hi |]. split; [exact Hnear |].
        split; [exact Hm |]. split; [exact Hbig |]. split; [reflexivity |].
        split; [exact Hv | reflexivity].
      * unfold bind, ret. destruct (mark_for_split _ _ w) as [d3 w3]. reflexivity.
Qed.

(** C8 — For every dot and every tick exactly one of two things happens.

    Either [handle_collisions] returns [False]: the no-collision condition
    [no_hit] holds, the dot (position, velocity, split state) and the clock
    are untouched, and the controller then moves the dot by [vel * dt].

    Or it returns [True] and the controller does not move the dot.  The dot
    then is the one on which the position was set to the corrected point
    [p] and the velocity reflected about the outward normal [n] of
    [hit_resolution], and which was marked for split with the inward normal
    [-n]: its position is [p]; its velocity is [vel.reflect(n)], that is
    [vel - 2 (vel . n) n] for a unit [n], when the squared speed exceeds
    [epsilon], and unchanged otherwise; its colour is unchanged; its
    [needs_split] flag is set.  If the flag was not set before, the split
    timer holds the clock reading of this call, the stored normal is the
    normalised [-n] (the fallback [(0, -1)] for a negligible [n]) and the
    clock was read once; if it was set, timer and stored normal are
    unchanged and the clock was not read. *)
Theorem collide_or_move_exclusive (s : Simulation) (d : Dot) (dt : R) (w : World) :
  let r := handle_collisions s d dt w in
  let collided := fst (fst r) in
  let d1 := snd (fst r) in
  let after := fst (collide_or_move s dt d w) in
  (collided = false
   /\ no_hit s d dt
   /\ d1 = d /\ snd r = w
   /\ after = move d dt
   /\ snd (collide_or_move s dt d w) = w
   /\ pos after = (pos d +v vel d *v dt)%vec
   /\ vel after = vel d
   /\ color after = color d
   /\ needs_split after = needs_split d
   /\ split_timer_start after = split_timer_start d
   /\ last_collision_normal after = last_collision_normal d)
  \/
  (collided = true
   /\ after = d1
   /\ snd (collide_or_move s dt d w) = snd r
   /\ exists p n,
        hit_resolution s d dt p n
        /\ mark_for_split (reflect_vel (set_pos d p) n) (vneg n) w = (d1, snd r)
        /\ pos d1 = p
        /\ (epsilon < length_squared (vel d) -> vel d1 = reflect (vel d) n)
        /\ (epsilon < length_squared (vel d) -> length_squared n = 1 ->
            vel d1 = (vel d -v n *v (2 * vdot (vel d) n))%vec)
        /\ (length_squared (vel d) <= epsilon -> vel d1 = vel d)
        /\ color d1 = color d
        /\ needs_split d1 = true
        /\ (needs_split d = false ->
            split_timer_start d1 = clock w (clock_calls w)
            /\ (1 / 1000000000 < length_squared n ->
                last_collision_normal d1 = Some (normalize (vneg n)))
            /\ (length_squared n = 1 -> last_collision_normal d1 = Some (vneg n))
            /\ (length_squared n <= 1 / 1000000000 ->
                last_collision_normal d1 = Some (mkVec 0 (-1)))
            /\ snd r = snd (get_ticks w)
            /\ clock_calls (snd r) = S (clock_calls w))
        /\ (needs_split d = true ->
            split_timer_start d1 = split_timer_start d
            /\ last_collision_normal d1 = last_collision_normal d
            /\ snd r = w)).
Proof.
  cbv zeta. unfold collide_or_move, bind, ret.
  destruct (handle_collisions_resolution s d dt w) as [[Hno E] | (p & n & Hres & E)].
  - left. rewrite E. cbn. repeat split; try reflexivity. exact Hno.
  - right. rewrite E. cbn [fst snd negb].
    split; [reflexivity |]. split; [reflexivity |]. split; [reflexivity |].
    exists p, n. split; [exact Hres |].
    pose proof (resolution_fields d p n (vneg n) w)
      as (Hp & Hv1 & Hv2 & Hcol & Hns & Hnew & Hold).
    cbv zeta in Hp, Hv1, Hv2, Hcol, Hns, Hnew, Hold.
    split; [apply surjective_pairing |].
    split; [exact Hp |]. split; [exact Hv1 |].
    split; [intros Hbig Hu; rewrite (Hv1 Hbig); apply reflect_unit_formula; exact Hu |].
    split; [exact Hv2 |]. split; [exact Hcol |]. split; [exact Hns |].
    split; [| exact Hold].
    intros Hn. destruct (Hnew Hn) as (Ht & Hl & Hw).
    rewrite length_squared_vneg in Hl.
    split; [exact Ht |].
    split; [intros H; rewrite Hl, (proj2 (Rltb_true_iff _ _) H); reflexivity |].
    split.
    { intros H. rewrite Hl.
      rewrite (proj2 (Rltb_true_iff (1 / 1000000000) (length_squared n))) by lra.
      rewrite normalize_unit; [reflexivity |].
      rewrite length_squared_vneg. exact H. }
    split.
    { intros H. rewrite Hl.
      rewrite (proj2 (Rltb_false_iff (1 / 1000000000) (length_squared n))) by lra.
      reflexivity. }
    split; [exact Hw |]. rewrite Hw. reflexivity.
Qed.

(** ** The speed of the dots *)

Lemma length_of_squared (u v : Vector2) :
  length_squared u = length_squared v -> length u = length v.
Proof. unfold length. intros ->. reflexivity. Qed.

Lemma handle_collisions_speed (s : Simulation) (d : Dot) (dt : R) (w : World) :
  shape_ok (current_shape_data s) ->
  length_squared (vel (snd (fst (handle_collisions s d dt w))))
  = length_squared (vel d).
Proof.
  intros Hok. unfold handle_collisions.
  destruct (current_shape_data s) as [radius | verts segs].
  - destruct (collide_circle_cases radius
                (Config.dict_get Config.COLLISION_BOUNDS_INWARD_OFFSET
                   (current_shape_name s) 0) d dt w)
      as [(_ & _ & n & Hn & _ & Hv & _) | (E & _)]; cbv zeta in *.
    + rewrite Hv. apply reflect_vel_turns. apply vneg_unit. exact Hn.
    + rewrite E. reflexivity.
  - destruct (collide_polygon_cases segs
                (Config.dict_get Config.COLLISION_BOUNDS_INWARD_OFFSET
                   (current_shape_name s) 0) d dt w Hok)
      as [E | (_ & seg & Hi & _ & _ & Hv)]; cbv zeta in *.
    + rewrite E. reflexivity.
    + rewrite Hv. apply reflect_vel_turns.
      exact (proj1 (Forall_forall _ _) Hok seg Hi).
Qed.

Lemma collide_or_move_speed (s : Simulation) (dt : R) (d : Dot) (w : World) :
  shape_ok (current_shape_data s) ->
  length (vel (fst (collide_or_move s dt d w))) = length (vel d).
Proof.
  intros Hok. apply length_of_squared.
  pose proof (handle_collisions_speed s d dt w Hok) as H.
  unfold collide_or_move, bind, ret.
  destruct (handle_collisions s d dt w) as [[b d1] w1]. cbn [fst snd] in *.
  destruct b; simpl; exact H.
Qed.

Lemma split_children_fast (d : Dot) (w : World) :
  Forall (fun c => length (vel c) = Config.INITIAL_DOT_SPEED) (snd (fst (split d w))).
Proof.
  rewrite split_children. cbv zeta. cbn [fst snd].
  set (a := - angle_to (split_normal d) (mkVec 1 0)).
  set (w1 := snd (split_child (pos d) a w)).
  destruct (split_child_spec (pos d) a w) as (Hv1 & _).
  destruct (split_child_spec (pos d) a w1) as (Hv2 & _).
  repeat constructor.
  - rewrite Hv1. apply from_polar_length, speed_nonneg.
  - rewrite Hv2. apply from_polar_length, speed_nonneg.
Qed.

Lemma scan_dot_speed (s : Simulation) (dt : R) (n : nat) (acc : Scan)
    (d : Dot) (w : World) :
  shape_ok (current_shape_data s) ->
  length (vel d) = Config.INITIAL_DOT_SPEED ->
  Forall (fun c => length (vel c) = Config.INITIAL_DOT_SPEED) (survivors acc) ->
  Forall (fun c => length (vel c) = Config.INITIAL_DOT_SPEED) (dots_to_add acc) ->
  let acc' := fst (scan_dot s dt n acc d w) in
  Forall (fun c => length (vel c) = Config.INITIAL_DOT_SPEED) (survivors acc')
  /\ Forall (fun c => length (vel c) = Config.INITIAL_DOT_SPEED) (dots_to_add acc').
Proof.
  intros Hok Hd Hs Ha. cbv zeta. unfold scan_dot, bind.
  pose proof (collide_or_move_speed s dt d w Hok) as H2.
  destruct (collide_or_move s dt d w) as [d2 w1]. cbn [fst] in H2.
  destruct (should_split d2 w1) as [sp w2].
  destruct sp; [destruct (_ <? _)%Z |].
  - pose proof (split_children_fast d2 w2) as Hc.
    destruct (split d2 w2) as [[d3 new] w3]. unfold ret. cbn [fst snd] in *.
    cbn [survivors dots_to_add]. split; [exact Hs |].
    apply Forall_app. split; assumption.
  - unfold ret. cbn [fst survivors dots_to_add]. split; [| exact Ha].
    apply Forall_app. split; [exact Hs |]. repeat constructor. simpl. congruence.
  - unfold ret. cbn [fst survivors dots_to_add]. split; [| exact Ha].
    apply Forall_app. split; [exact Hs |]. repeat constructor. congruence.
Qed.

Lemma scan_dots_speed (s : Simulation) (dt : R) (n : nat) (ds : list Dot) :
  shape_ok (current_shape_data s) ->
  forall (acc : Scan) (w : World),
    Forall (fun c => length (vel c) = Config.INITIAL_DOT_SPEED) ds ->
    Forall (fun c => length (vel c) = Config.INITIAL_DOT_SPEED) (survivors acc) ->
    Forall (fun c => length (vel c) = Config.INITIAL_DOT_SPEED) (dots_to_add acc) ->
    let acc' := fst (scan_dots s dt n acc ds w) in
    Forall (fun c => length (vel c) = Config.INITIAL_DOT_SPEED) (survivors acc')
    /\ Forall (fun c => length (vel c) = Config.INITIAL_DOT_SPEED) (dots_to_add acc').
Proof.
  intros Hok. induction ds as [| d ds IH]; intros acc w Hds Hs Ha.
  - simpl. auto.
  - cbv zeta. rewrite scan_dots_cons.
    destruct (scan_dot_speed s dt n acc d w Hok (Forall_inv Hds) Hs Ha) as [H1 H2].
    apply IH; [exact (Forall_inv_tail Hds) | exact H1 | exact H2].
Qed.

Lemma spawn_dot_speed (s : Simulation) (w : World) :
  speed_inv s -> speed_inv (fst (spawn_dot s w)).
Proof.
  intros (H1 & H2 & H3). unfold spawn_dot, bind, uniform, random_color, randint, bind, ret.
  cbn [fst]. unfold speed_inv. cbn [current_shape_data shape_definitions dots].
  split; [exact H1 |]. split; [exact H2 |].
  apply Forall_app. split; [exact H3 |]. repeat constructor.
  unfold Dot_init. cbn [vel].
  match goal with |- length (mkVec (vx ?v) (vy ?v)) = _ =>
    replace (mkVec (vx v) (vy v)) with v by (destruct v; reflexivity)
  end.
  apply from_polar_length, speed_nonneg.
Qed.

Lemma spawn_block_speed (s : Simulation) (t : Z) (w : World) :
  speed_inv s -> speed_inv (fst (spawn_block s t w)).
Proof.
  intros H. unfold spawn_block.
  destruct (negb (first_unpause s) && _)%bool; [| exact H].
  unfold bind.
  assert (Hs : speed_inv
                 (fst ((if (Z.of_nat (List.length (dots s)) <? dot_limit s)%Z
                        then spawn_dot s else ret s) w))).
  { destruct (_ <? _)%Z; [apply spawn_dot_speed; exact H | exact H]. }
  destruct ((if (Z.of_nat (List.length (dots s)) <? dot_limit s)%Z
             then spawn_dot s else ret s) w) as [s1 w1].
  exact Hs.
Qed.

Lemma update_speed (s : Simulation) (dt : R) (w : World) :
  speed_inv s -> speed_inv (fst (update s dt w)).
Proof.
  intros H. unfold update. destruct (paused s); [exact H |].
  unfold bind. destruct (get_ticks w) as [t w0].
  pose proof (spawn_block_speed s t w0 H) as (H1 & H2 & H3).
  destruct (spawn_block s t w0) as [s1 w1]. cbn [fst] in *.
  destruct (scan_dots_speed s1 dt (List.length (dots s1)) (dots s1) H1
              (mkScan [] [] []) w1 H3 (Forall_nil _) (Forall_nil _)) as [Hs Ha].
  destruct (scan_dots s1 dt _ _ (dots s1) w1) as [acc w2]. cbn [fst] in *.
  unfold ret. cbn [fst]. unfold limit_check.
  destruct (_ && _)%bool; unfold speed_inv; cbn [current_shape_data shape_definitions dots set_dots];
    (split; [exact H1 |]; split; [exact H2 |]; apply Forall_app; split; assumption).
Qed.

Lemma shape_lookup_ok (defs : list (string * ShapeData)) (k : string) (v : ShapeData) :
  Forall (fun entry => shape_ok (snd entry)) defs ->
  shape_lookup defs k = Some v -> shape_ok v.
Proof.
  induction defs as [| [k' v'] defs IH]; intros H E; simpl in E; [discriminate |].
  destruct (String.eqb k k').
  - inversion E; subst. exact (Forall_inv H).
  - apply IH; [exact (Forall_inv_tail H) | exact E].
Qed.

Lemma handle_event_speed (s : Simulation) (e : Event) (w : World) :
  speed_inv s -> speed_inv (fst (handle_event s e w)).
Proof.
  intros H. pose proof H as (H1 & H2 & H3).
  destruct e as [| [] | text |]; simpl; try exact H.
  - unfold press_space. destruct (paused s); [| exact H].
    unfold bind.
    assert (Hb : speed_inv (fst (first_unpause_block s w))).
    { unfold first_unpause_block. destruct (first_unpause s); [| exact H].
      unfold bind.
      assert (Hs : speed_inv
                     (fst ((if ((0 <? dot_limit s)%Z && (List.length (dots s) =? 0)%nat)%bool
                            then spawn_dot s else ret s) w))).
      { destruct (_ && _)%bool; [apply spawn_dot_speed; exact H | exact H]. }
      destruct ((if ((0 <? dot_limit s)%Z && (List.length (dots s) =? 0)%nat)%bool
                 then spawn_dot s else ret s) w) as [s1 w1].
      exact Hs. }
    destruct (first_unpause_block s w) as [s1 w1]. cbn [fst] in *.
    unfold ret. cbn [fst]. unfold limit_increase_block.
    destruct (limit_reached_paused s1); exact Hb.
  - split; [exact H1 |]. split; [exact H2 | constructor].
  - unfold shape_changed. destruct (negb _); [| exact H].
    destruct (shape_lookup (shape_definitions s) text) as [data |] eqn:E.
    + split; [exact (shape_lookup_ok _ _ _ H2 E) |]. split; [exact H2 | constructor].
    + exact H.
Qed.

Lemma define_shapes_ok (noise2 : Z -> R -> R -> R) (w : World) :
  Forall (fun entry => shape_ok (snd entry)) (fst (define_shapes noise2 w)).
Proof.
  unfold define_shapes, bind, randint, ret. cbn [fst].
  repeat constructor; apply polygon_shape_ok.
Qed.

Lemma Simulation_init_speed (noise2 : Z -> R -> R -> R) (w : World) :
  speed_inv (fst (Simulation_init noise2 w)).
Proof.
  unfold Simulation_init, bind.
  pose proof (define_shapes_ok noise2 w) as Hd.
  destruct (define_shapes noise2 w) as [defs w1]. cbn [fst] in Hd.
  unfold reset, bind, get_ticks, ret. cbn [fst].
  unfold speed_inv. cbn [current_shape_data shape_definitions dots].
  split; [| split; [exact Hd | constructor]].
  destruct (shape_lookup defs _) as [data |] eqn:E;
    [exact (shape_lookup_ok _ _ _ Hd E) | exact I].
Qed.

(** X7 — In every state the program reaches, every dot moves at exactly
    the configured initial speed: spawned dots and split children start at
    that speed, free movement keeps the velocity, and every bounce, on the
    circle and on the polygons that [define_shapes] builds, is a mirror
    reflection about a unit normal. *)
Theorem speed_is_constant (noise2 : Z -> R -> R -> R)
    (frames : list (list Event * R)) (w : World) :
  Forall (fun d => length (vel d) = Config.INITIAL_DOT_SPEED)
         (dots (fst (run noise2 frames w))).
Proof.
  unfold run, bind.
  pose proof (Simulation_init_speed noise2 w) as H.
  destruct (Simulation_init noise2 w) as [s0 w0].
  exact (proj2 (proj2 (run_ticks_preserves speed_inv handle_event_speed update_speed
                         frames s0 w0 H))).
Qed.

(** ** simulation.py: what [update] does to the population *)

Lemma scan_dot_children (s : Simulation) (dt : R) (n : nat) (acc : Scan)
    (d : Dot) (w : World) :
  List.length (dots_to_add acc) = (2 * List.length (dots_to_remove acc))%nat ->
  let acc' := fst (scan_dot s dt n acc d w) in
  List.length (dots_to_add acc') = (2 * List.length (dots_to_remove acc'))%nat.
Proof.
  intros H. cbv zeta.
  destruct (scan_dot_outcome s dt n acc d w)
    as [(_ & _ & _ & c1 & c2 & p & Ea & Er & _)
       | [(_ & _ & _ & Ea & Er) | (_ & Ea & Er)]];
    rewrite Ea, Er; rewrite ?length_app; simpl; lia.
Qed.

Lemma scan_dots_children (s : Simulation) (dt : R) (n : nat) (ds : list Dot) :
  forall (acc : Scan) (w : World),
    List.length (dots_to_add acc) = (2 * List.length (dots_to_remove acc))%nat ->
    let acc' := fst (scan_dots s dt n acc ds w) in
    List.length (dots_to_add acc') = (2 * List.length (dots_to_remove acc'))%nat.
Proof.
  induction ds as [| d ds IH]; intros acc w H.
  - exact H.
  - cbv zeta. rewrite scan_dots_cons. apply IH. apply scan_dot_children. exact H.
Qed.

(** One update pass, in full: the spawn block, the scan, the limit check. *)
Lemma update_unfold (s : Simulation) (dt : R) (w : World) :
  paused s = false ->
  exists t w0 w1,
    let s1 := fst (spawn_block s t w0) in
    let acc := fst (scan_dots s1 dt (List.length (dots s1)) (mkScan [] [] [])
                      (dots s1) w1) in
    t = clock w (clock_calls w)
    /\ fst (update s dt w) = limit_check (set_dots s1 (survivors acc ++ dots_to_add acc)).
Proof.
  intros Hp. unfold update. rewrite Hp. unfold bind.
  destruct (get_ticks w) as [t w0] eqn:Et.
  exists t, w0, (snd (spawn_block s t w0)). cbv zeta.
  destruct (spawn_block s t w0) as [s1 w1]. cbn [fst snd].
  destruct (scan_dots s1 dt _ _ (dots s1) w1) as [acc w2]. unfold ret. cbn [fst].
  split; [| reflexivity].
  unfold get_ticks in Et. inversion Et. reflexivity.
Qed.

Lemma spawn_dot_new (s : Simulation) (w : World) :
  exists d,
    dots (fst (spawn_dot s w)) = dots s ++ [d]
    /\ pos d = center_pos
    /\ length (vel d) = Config.INITIAL_DOT_SPEED
    /\ needs_split d = false
    /\ last_collision_normal d = None
    /\ clock (snd (spawn_dot s w)) = clock w
    /\ clock_calls (snd (spawn_dot s w)) = clock_calls w.
Proof.
  unfold spawn_dot, bind, uniform, random_color, randint, bind, ret. cbn [fst snd].
  eexists. split; [reflexivity |]. cbn [dots pos vel needs_split last_collision_normal
                                         Dot_init clock clock_calls].
  split; [reflexivity |]. split; [| repeat split; reflexivity].
  match goal with |- length (mkVec (vx ?v) (vy ?v)) = _ =>
    replace (mkVec (vx v) (vy v)) with v by (destruct v; reflexivity)
  end.
  apply from_polar_length, speed_nonneg.
Qed.

(** One iteration of the scan queues one parent for removal and two
    children exactly when it executes a split; otherwise it keeps the dot
    and queues nothing. *)
Lemma scan_dot_splits (s : Simulation) (dt : R) (n : nat) (acc : Scan)
    (d : Dot) (w : World) :
  let acc' := fst (scan_dot s dt n acc d w) in
  let k := if executes_split s dt n acc d w then 1%nat else 0%nat in
  List.length (dots_to_remove acc') = (List.length (dots_to_remove acc) + k)%nat
  /\ List.length (dots_to_add acc') = (List.length (dots_to_add acc) + 2 * k)%nat
  /\ (List.length (survivors acc') + k = S (List.length (survivors acc)))%nat.
Proof.
  cbv zeta. unfold scan_dot, executes_split, bind.
  destruct (collide_or_move s dt d w) as [d2 w1]. cbn [fst snd].
  destruct (should_split d2 w1) as [sp w2]. cbn [fst snd].
  fold (queued n acc).
  destruct sp; cbn [andb].
  - destruct (queued n acc <? dot_limit s)%Z.
    + rewrite split_children. cbv zeta. unfold ret.
      cbn [fst snd survivors dots_to_add dots_to_remove].
      rewrite !length_app. simpl List.length. lia.
    + unfold ret. cbn [fst survivors dots_to_add dots_to_remove].
      rewrite length_app. simpl List.length. lia.
  - unfold ret. cbn [fst survivors dots_to_add dots_to_remove].
    rewrite length_app. simpl List.length. lia.
Qed.

Lemma scan_dots_splits (s : Simulation) (dt : R) (n : nat) (ds : list Dot) :
  forall (acc : Scan) (w : World),
    let acc' := fst (scan_dots s dt n acc ds w) in
    let k := count_splits s dt n acc ds w in
    List.length (dots_to_remove acc') = (List.length (dots_to_remove acc) + k)%nat
    /\ List.length (dots_to_add acc') = (List.length (dots_to_add acc) + 2 * k)%nat
    /\ (List.length (survivors acc') + k
        = List.length ds + List.length (survivors acc))%nat.
Proof.
  induction ds as [| d ds IH]; intros acc w.
  - cbn. lia.
  - cbv zeta. rewrite scan_dots_cons. cbn [count_splits].
    destruct (scan_dot_splits s dt n acc d w) as (H1 & H2 & H3). cbv zeta in H1, H2, H3.
    destruct (IH (fst (scan_dot s dt n acc d w)) (snd (scan_dot s dt n acc d w)))
      as (H4 & H5 & H6). cbv zeta in H4, H5, H6.
    simpl List.length. lia.
Qed.

(** The spawn block on the clock reading of the pass. *)
Lemma after_spawn_dots (s : Simulation) (w : World) :
  let s1 := fst (after_spawn s w) in
  dot_limit s1 = dot_limit s
  /\ (spawned s w = 0%nat -> dots s1 = dots s)
  /\ (spawned s w = 1%nat ->
      exists d, dots s1 = dots s ++ [d]
                /\ pos d = center_pos
                /\ length (vel d) = Config.INITIAL_DOT_SPEED
                /\ needs_split d = false).
Proof.
  cbv zeta. unfold after_spawn, bind, get_ticks, spawned, spawn_block.
  cbn [fst snd]. unfold count.
  destruct (negb (first_unpause s)
            && (Config.REGULAR_SPAWN_INTERVAL_MS
                <=? clock w (clock_calls w) - last_spawn_time s)%Z)%bool;
    cbn [andb].
  - destruct (Z.of_nat (List.length (dots s)) <? dot_limit s)%Z.
    + unfold bind.
      match goal with |- context [spawn_dot s ?w0] =>
        destruct (spawn_dot_new s w0) as (d & Ed & Hp & Hv & Hn & _);
        pose proof (spawn_dot_fields s w0) as Hl;
        destruct (spawn_dot s w0) as [s1 w1]
      end.
      cbn [fst snd] in *. unfold ret. cbn [fst dots dot_limit].
      split; [exact (proj1 Hl) |]. split; [discriminate |].
      intros _. exists d. repeat split; assumption.
    + unfold bind, ret. cbn [fst dots dot_limit].
      split; [reflexivity |]. split; [reflexivity | discriminate].
  - unfold ret. cbn [fst]. split; [reflexivity |]. split; [reflexivity | discriminate].
Qed.

(** X8 — What an update pass does to the population.  A paused pass
    changes nothing.  A running pass first spawns [spawned] dots: one,
    appended at the centre with the configured speed, when the simulation
    was started before, the spawn interval has elapsed and the population
    is below the cap, none otherwise.  Its scan then executes
    [splits_executed] splits, one for every iteration whose dot is due to
    split while the population with the splits queued so far is below the
    cap; each executed split queues one parent for removal and two
    children, every other dot is kept.  The new population is the kept
    dots followed by the children, so the new count is the old count plus
    the dots spawned plus the splits executed; and if a split was executed
    the new count is within the cap. *)
Theorem update_population_grows (s : Simulation) (dt : R) (w : World) :
  let s1 := fst (after_spawn s w) in
  let acc := pass_scan s dt w in
  let s' := fst (update s dt w) in
  (paused s = true -> update s dt w = (s, w))
  /\ (paused s = false ->
      (spawned s w = 0%nat \/ spawned s w = 1%nat)
      /\ (spawned s w = 1%nat <->
          first_unpause s = false
          /\ (Config.REGULAR_SPAWN_INTERVAL_MS
              <= clock w (clock_calls w) - last_spawn_time s)%Z
          /\ (count s < dot_limit s)%Z)
      /\ (spawned s w = 0%nat -> dots s1 = dots s)
      /\ (spawned s w = 1%nat ->
          exists d, dots s1 = dots s ++ [d]
                    /\ pos d = center_pos
                    /\ length (vel d) = Config.INITIAL_DOT_SPEED
                    /\ needs_split d = false)
      /\ count s1 = (count s + Z.of_nat (spawned s w))%Z
      /\ List.length (dots_to_remove acc) = splits_executed s dt w
      /\ List.length (dots_to_add acc) = (2 * splits_executed s dt w)%nat
      /\ (List.length (survivors acc) + splits_executed s dt w
          = List.length (dots s1))%nat
      /\ dots s' = survivors acc ++ dots_to_add acc
      /\ count s'
         = (count s + Z.of_nat (spawned s w) + Z.of_nat (splits_executed s dt w))%Z
      /\ ((0 < splits_executed s dt w)%nat -> (count s' <= dot_limit s)%Z)).
Proof.
  cbv zeta. split; [apply update_paused |]. intros Hp.
  destruct (after_spawn_dots s w) as (Hlim & H0 & H1). cbv zeta in Hlim, H0, H1.
  assert (Hsp : spawned s w = 0%nat \/ spawned s w = 1%nat).
  { unfold spawned. destruct (_ && _ && _)%bool; auto. }
  assert (Hiff : spawned s w = 1%nat <->
                 first_unpause s = false
                 /\ (Config.REGULAR_SPAWN_INTERVAL_MS
                     <= clock w (clock_calls w) - last_spawn_time s)%Z
                 /\ (count s < dot_limit s)%Z).
  { unfold spawned.
    destruct (first_unpause s); cbn [negb andb].
    - split; [discriminate | intros [H _]; discriminate].
    - destruct (Z.leb_spec Config.REGULAR_SPAWN_INTERVAL_MS
                  (clock w (clock_calls w) - last_spawn_time s)); cbn [andb].
      + destruct (Z.ltb_spec (count s) (dot_limit s)).
        * split; [intros _; repeat split; assumption | reflexivity].
        * split; [discriminate | intros (_ & _ & H'); lia].
      + split; [discriminate | intros (_ & H' & _); lia]. }
  assert (Hc1 : count (fst (after_spawn s w)) = (count s + Z.of_nat (spawned s w))%Z).
  { unfold count. destruct Hsp as [E | E].
    - rewrite (H0 E), E. simpl. lia.
    - destruct (H1 E) as (d & Ed & _). rewrite Ed, E, length_app. simpl. lia. }
  set (s1 := fst (after_spawn s w)) in *.
  pose proof (scan_dots_splits s1 dt (List.length (dots s1)) (dots s1)
                (mkScan [] [] []) (snd (after_spawn s w))) as Hs.
  cbv zeta in Hs. fold s1 in Hs.
  change (fst (scan_dots s1 dt (List.length (dots s1)) (mkScan [] [] []) (dots s1)
                 (snd (after_spawn s w)))) with (pass_scan s dt w) in Hs.
  change (count_splits s1 dt (List.length (dots s1)) (mkScan [] [] []) (dots s1)
            (snd (after_spawn s w))) with (splits_executed s dt w) in Hs.
  cbn [survivors dots_to_add dots_to_remove List.length] in Hs.
  destruct Hs as (Hr & Ha & Hk).
  pose proof (scan_dots_count s1 dt (List.length (dots s1)) (dots s1)
                (mkScan [] [] []) (snd (after_spawn s w))) as [_ Hq].
  change (fst (scan_dots s1 dt (List.length (dots s1)) (mkScan [] [] []) (dots s1)
                 (snd (after_spawn s w)))) with (pass_scan s dt w) in Hq.
  unfold queued in Hq. cbn [dots_to_add dots_to_remove List.length] in Hq.
  set (acc := pass_scan s dt w) in *.
  set (k := splits_executed s dt w) in *.
  assert (Ed : dots (fst (update s dt w)) = survivors acc ++ dots_to_add acc).
  { unfold update. rewrite Hp. unfold bind.
    unfold acc, pass_scan. fold s1. unfold s1, after_spawn, bind.
    destruct (get_ticks w) as [t w0].
    destruct (spawn_block s t w0) as [s2 w2]. cbn [fst snd].
    destruct (scan_dots s2 dt _ _ (dots s2) w2) as [acc2 w3]. unfold ret. cbn [fst].
    rewrite (proj1 (limit_check_fields _)). reflexivity. }
  assert (Ec : count (fst (update s dt w))
               = (count s + Z.of_nat (spawned s w) + Z.of_nat k)%Z).
  { rewrite <- Hc1. unfold count. rewrite Ed, length_app. lia. }
  split; [exact Hsp |]. split; [exact Hiff |]. split; [exact H0 |].
  split; [exact H1 |]. split; [exact Hc1 |]. split; [lia |]. split; [lia |].
  split; [lia |]. split; [exact Ed |]. split; [exact Ec |].
  intros Hpos. rewrite Ec, <- Hc1. rewrite Hlim in Hq. unfold count. lia.
Qed.

(** ** simulation.py: the space bar and the spawn timer *)

(** X9 — The first press of the space bar after a reset, on an empty
    simulation with a positive cap, starts the simulation with exactly one
    dot: unmarked, at the centre, at the configured speed; the spawn timer
    is set to the current clock reading and the first-unpause flag is
    cleared.  A later unpause spawns nothing. *)
Theorem first_unpause_spawns_one (s : Simulation) (w : World) :
  paused s = true ->
  let s' := fst (press_space s w) in
  (first_unpause s = true -> dots s = [] -> (0 < dot_limit s)%Z ->
   (exists d,
      dots s' = [d] /\ pos d = center_pos
      /\ length (vel d) = Config.INITIAL_DOT_SPEED
      /\ needs_split d = false)
   /\ paused s' = false
   /\ first_unpause s' = false
   /\ last_spawn_time s' = clock w (clock_calls w))
  /\ (first_unpause s = false ->
      dots s' = dots s /\ paused s' = false
      /\ last_spawn_time s' = last_spawn_time s).
Proof.
  intros Hp. cbv zeta. unfold press_space. rewrite Hp. unfold bind.
  split.
  - intros Hf Hd Hl. unfold first_unpause_block. rewrite Hf, Hd.
    rewrite (proj2 (Z.ltb_lt _ _) Hl). cbn [List.length Nat.eqb andb]. unfold bind.
    destruct (spawn_dot_new s w) as (d & Ed & Hpos & Hv & Hn & _ & Hck & Hcc).
    rewrite Hd in Ed. cbn [app] in Ed.
    destruct (spawn_dot s w) as [s1 w1]. cbn [fst snd] in *.
    unfold get_ticks, ret. cbn [fst]. unfold limit_increase_block.
    cbn [limit_reached_paused].
    destruct (limit_reached_paused s1);
      cbn [set_paused dots paused first_unpause last_spawn_time];
      rewrite Ed, Hck, Hcc; (split; [exists d; auto | auto]).
  - intros Hf. unfold first_unpause_block. rewrite Hf. unfold ret. cbn [fst].
    unfold limit_increase_block.
    destruct (limit_reached_paused s); cbn [set_paused dots paused last_spawn_time]; auto.
Qed.

Lemma first_unpause_spawns_one_witness :
  paused fresh_sim = true
  /\ exists d,
       dots (fst (press_space fresh_sim (const_world 0 0))) = [d]
       /\ pos d = center_pos
       /\ length (vel d) = Config.INITIAL_DOT_SPEED.
Proof.
  split; [reflexivity |].
  assert (Hl : (0 < dot_limit fresh_sim)%Z) by reflexivity.
  destruct (proj1 (first_unpause_spawns_one fresh_sim (const_world 0 0) eq_refl)
              eq_refl eq_refl Hl) as ((d & Hd & Hp & Hv & _) & _).
  exists d. split; [exact Hd |]. split; [exact Hp | exact Hv].
Defined.

(** X10 — On a running simulation that has been started and whose
    cap-reached flag is clear, pausing and unpausing with the space bar
    gives back the very same state, and reads neither the clock nor the
    random generator. *)
Theorem pause_unpause_roundtrip (s : Simulation) (w : World) :
  paused s = false ->
  first_unpause s = false ->
  limit_reached_paused s = false ->
  paused (fst (press_space s w)) = true
  /\ bind (press_space s) press_space w = (s, w).
Proof.
  intros Hp Hf Hl. destruct s. simpl in Hp, Hf, Hl. subst.
  split; reflexivity.
Qed.

Lemma pause_unpause_roundtrip_witness :
  bind (press_space wall_sim) press_space (const_world 0 0)
  = (wall_sim, const_world 0 0).
Proof.
  exact (proj2 (pause_unpause_roundtrip wall_sim (const_world 0 0)
                  eq_refl eq_refl eq_refl)).
Defined.

(** X11 — The spawn block of [update] does nothing before the first
    unpause or while the spawn interval has not elapsed.  Once the interval
    has elapsed it restarts the timer at the current time whether or not a
    dot is spawned: one dot is added when the population is below the cap,
    none when the cap is reached. *)
Theorem spawn_timer (s : Simulation) (t : Z) (w : World) :
  let s' := fst (spawn_block s t w) in
  (first_unpause s = true
   \/ (t - last_spawn_time s < Config.REGULAR_SPAWN_INTERVAL_MS)%Z ->
   spawn_block s t w = (s, w))
  /\ (first_unpause s = false ->
      (Config.REGULAR_SPAWN_INTERVAL_MS <= t - last_spawn_time s)%Z ->
      last_spawn_time s' = t
      /\ ((count s < dot_limit s)%Z -> count s' = (count s + 1)%Z)
      /\ ((dot_limit s <= count s)%Z -> dots s' = dots s)).
Proof.
  cbv zeta. unfold spawn_block. split.
  - intros [Hf | Ht].
    + rewrite Hf. reflexivity.
    + rewrite (proj2 (Z.leb_gt _ _) Ht). rewrite andb_false_r. reflexivity.
  - intros Hf Ht. rewrite Hf, (proj2 (Z.leb_le _ _) Ht). cbn [negb andb].
    unfold bind, count.
    destruct (Z.of_nat (List.length (dots s)) <? dot_limit s)%Z eqn:E.
    + apply Z.ltb_lt in E.
      destruct (spawn_dot_new s w) as (d & Ed & _).
      destruct (spawn_dot s w) as [s1 w1]. cbn [fst] in *. unfold ret.
      cbn [fst last_spawn_time dots]. rewrite Ed, length_app. simpl List.length.
      repeat split; intros; lia.
    + apply Z.ltb_ge in E. unfold ret. cbn [fst last_spawn_time dots].
      repeat split; intros; try reflexivity; lia.
Qed.

Lemma spawn_timer_witness :
  last_spawn_time (fst (spawn_block wall_sim 12000 (const_world 0 0))) = 12000%Z
  /\ count (fst (spawn_block wall_sim 12000 (const_world 0 0))) = 2%Z.
Proof.
  assert (Ht : (Config.REGULAR_SPAWN_INTERVAL_MS <= 12000 - last_spawn_time wall_sim)%Z)
    by (unfold Config.REGULAR_SPAWN_INTERVAL_MS; simpl; lia).
  assert (Hc : (count wall_sim < dot_limit wall_sim)%Z)
    by (unfold count, Config.INITIAL_DOT_LIMIT; simpl; unfold Config.INITIAL_DOT_LIMIT; lia).
  destruct (proj2 (spawn_timer wall_sim 12000 (const_world 0 0)) eq_refl Ht)
    as (H1 & H2 & _).
  split; [exact H1 | exact (H2 Hc)].
Defined.

(** ** simulation.py: the split timer along the scan *)

(** X12 — A dot that is already marked for split goes through the whole
    collide-or-move statement, bounce or not, with its flag, its timer
    start and its stored normal unchanged, and without a clock read: a
    second bounce does not postpone the split. *)
Theorem pending_split_survives_bounce (s : Simulation) (dt : R) (d : Dot) (w : World) :
  needs_split d = true ->
  let d' := fst (collide_or_move s dt d w) in
  needs_split d' = true
  /\ split_timer_start d' = split_timer_start d
  /\ last_collision_normal d' = last_collision_normal d
  /\ snd (collide_or_move s dt d w) = w.
Proof.
  intros H. cbv zeta.
  destruct (collide_or_move_marked s dt d w H) as (H1 & H2 & H3 & H4). auto.
Qed.

Lemma pending_split_survives_bounce_witness :
  split_timer_start (fst (collide_or_move fresh_sim (1 / 60) marked_dot (const_world 70 0)))
  = 0%Z
  /\ snd (collide_or_move fresh_sim (1 / 60) marked_dot (const_world 70 0))
     = const_world 70 0.
Proof.
  destruct (pending_split_survives_bounce fresh_sim (1 / 60) marked_dot
              (const_world 70 0) eq_refl) as (_ & H1 & _ & H2).
  split; [exact H1 | exact H2].
Defined.

(** X13 — A dot that is not marked when its iteration of the scan starts
    is never split in that iteration, bounce or not, as long as the clock
    advances by less than the split delay between the reading taken when
    the bounce marks the dot and the reading taken by the split check: the
    dot is kept and nothing is queued. *)
Theorem no_split_in_the_tick_of_the_bounce (s : Simulation) (dt : R) (n : nat)
    (acc : Scan) (d : Dot) (w : World) :
  needs_split d = false ->
  (clock w (S (clock_calls w)) - clock w (clock_calls w) < Config.SPLIT_DELAY)%Z ->
  split_not_due acc (fst (scan_dot s dt n acc d w)) (fst (collide_or_move s dt d w)).
Proof.
  intros Hd Hck. unfold scan_dot, bind.
  destruct (collide_or_move_cases s dt d w) as [E | (d' & w' & E & Hr)]; rewrite E.
  - cbn [fst]. unfold should_split. cbn [move needs_split]. rewrite Hd.
    unfold ret. cbn [fst]. repeat split; reflexivity.
  - cbn [fst]. destruct Hr as (p & nn & m & Hm).
    destruct (reflect_vel_fields (set_pos d p) nn) as (Hf & _).
    unfold mark_for_split in Hm. rewrite Hf in Hm. cbn [set_pos needs_split] in Hm.
    rewrite Hd in Hm. cbn [negb] in Hm. unfold bind, get_ticks, ret in Hm.
    inversion Hm; subst d' w'; clear Hm.
    unfold should_split. cbn [needs_split]. unfold bind, get_ticks, ret.
    cbn [clock clock_calls split_timer_start].
    rewrite (proj2 (Z.leb_gt _ _) Hck). cbn [fst].
    repeat split; reflexivity.
Qed.

Lemma no_split_in_the_tick_of_the_bounce_witness :
  dots_to_add (fst (scan_dot wall_sim (1 / 10) 1 (mkScan [] [] []) slow_dot
                      (const_world 70 0))) = [].
Proof.
  assert (H : (clock (const_world 70 0) (S (clock_calls (const_world 70 0)))
               - clock (const_world 70 0) (clock_calls (const_world 70 0))
               < Config.SPLIT_DELAY)%Z) by reflexivity.
  exact (proj1 (proj2 (no_split_in_the_tick_of_the_bounce wall_sim (1 / 10) 1
                         (mkScan [] [] []) slow_dot (const_world 70 0) eq_refl H))).
Defined.

(** ** simulation.py: what the engine and the update leave alone *)

Lemma reflect_vel_color (d : Dot) (n : Vector2) : color (reflect_vel d n) = color d.
Proof. unfold reflect_vel. destruct (epsilon <? _); reflexivity. Qed.

Lemma mark_for_split_world (d : Dot) (m : Vector2) (w : World) :
  let w' := snd (mark_for_split d m w) in
  clock w' = clock w /\ rand w' = rand w /\ randi w' = randi w
  /\ rand_calls w' = rand_calls w /\ randi_calls w' = randi_calls w
  /\ (clock_calls w' = clock_calls w \/ clock_calls w' = S (clock_calls w)).
Proof.
  unfold mark_for_split. destruct (negb (needs_split d)); simpl; auto 10.
Qed.

(** X14 — [handle_collisions] never draws from the random generator,
    reads the clock at most once, and never changes the colour of the dot;
    the oracles themselves are untouched. *)
Theorem handle_collisions_frame (s : Simulation) (d : Dot) (dt : R) (w : World) :
  let d' := snd (fst (handle_collisions s d dt w)) in
  let w' := snd (handle_collisions s d dt w) in
  color d' = color d
  /\ rand_calls w' = rand_calls w /\ randi_calls w' = randi_calls w
  /\ clock w' = clock w /\ rand w' = rand w /\ randi w' = randi w
  /\ (clock_calls w' = clock_calls w \/ clock_calls w' = S (clock_calls w)).
Proof.
  cbv zeta.
  destruct (handle_collisions_outcome s d dt w) as [E | (_ & p & n & m & Hm)].
  - rewrite E. simpl. auto 10.
  - pose proof (mark_for_split_world (reflect_vel (set_pos d p) n) m w) as Hw.
    pose proof (mark_for_split_motion (reflect_vel (set_pos d p) n) m w) as (_ & _ & Hc).
    rewrite Hm in Hw, Hc. cbv zeta in Hw. cbn [fst snd] in Hw, Hc.
    rewrite reflect_vel_color in Hc. cbn [set_pos color] in Hc.
    destruct Hw as (H1 & H2 & H3 & H4 & H5 & H6). auto 10.
Qed.

Lemma limit_check_frame (x : Simulation) :
  shape_definitions (limit_check x) = shape_definitions x
  /\ current_shape_name (limit_check x) = current_shape_name x
  /\ current_shape_data (limit_check x) = current_shape_data x
  /\ dot_limit (limit_check x) = dot_limit x
  /\ running (limit_check x) = running x
  /\ first_unpause (limit_check x) = first_unpause x
  /\ last_spawn_time (limit_check x) = last_spawn_time x
  /\ (paused (limit_check x) = false -> paused x = false).
Proof.
  unfold limit_check. destruct (_ && _)%bool; simpl; auto 10.
  repeat split; try reflexivity. discriminate.
Qed.

Lemma spawn_block_frame (s : Simulation) (t : Z) (w : World) :
  let s' := fst (spawn_block s t w) in
  shape_definitions s' = shape_definitions s
  /\ current_shape_name s' = current_shape_name s
  /\ current_shape_data s' = current_shape_data s
  /\ dot_limit s' = dot_limit s
  /\ running s' = running s
  /\ first_unpause s' = first_unpause s
  /\ paused s' = paused s
  /\ (last_spawn_time s' = last_spawn_time s \/ last_spawn_time s' = t).
Proof.
  unfold spawn_block.
  destruct (negb (first_unpause s) && _)%bool; [| simpl; auto 10].
  destruct (Z.of_nat (List.length (dots s)) <? dot_limit s)%Z; simpl; auto 10.
Qed.

Lemma update_fields (s : Simulation) (dt : R) (w : World) :
  let s' := fst (update s dt w) in
  shape_definitions s' = shape_definitions s
  /\ current_shape_name s' = current_shape_name s
  /\ current_shape_data s' = current_shape_data s
  /\ dot_limit s' = dot_limit s
  /\ running s' = running s
  /\ first_unpause s' = first_unpause s
  /\ (last_spawn_time s' = last_spawn_time s
      \/ last_spawn_time s' = clock w (clock_calls w))
  /\ (paused s' = false -> paused s = false).
Proof.
  cbv zeta. destruct (paused s) eqn:Hp.
  - rewrite update_paused by exact Hp. cbn [fst]. rewrite Hp. auto 10.
  - destruct (update_unfold s dt w Hp) as (t & w0 & w1 & Et & E). cbv zeta in E.
    rewrite E. clear E.
    destruct (spawn_block_frame s t w0) as (H1 & H2 & H3 & H4 & H5 & H6 & H7 & H8).
    cbv zeta in *.
    set (s1 := fst (spawn_block s t w0)) in *.
    set (x := set_dots s1 _).
    destruct (limit_check_frame x) as (L1 & L2 & L3 & L4 & L5 & L6 & L7 & L8).
    rewrite L1, L2, L3, L4, L5, L6, L7. unfold x. cbn [set_dots shape_definitions
      current_shape_name current_shape_data dot_limit running first_unpause
      last_spawn_time].
    rewrite <- Et.
    repeat split; try assumption; try reflexivity.
Qed.

(** X15 — An update pass changes the particles, the spawn timer and
    possibly the pause and cap-reached flags, and nothing else: the table of
    shapes, the active shape, the population cap, the run flag and the
    first-unpause flag are as before; the spawn timer is the old one or the
    clock reading taken at the start of the pass; and a pass never unpauses
    a paused simulation. *)
Theorem update_frame (s : Simulation) (dt : R) (w : World) :
  let s' := fst (update s dt w) in
  shape_definitions s' = shape_definitions s
  /\ current_shape_name s' = current_shape_name s
  /\ current_shape_data s' = current_shape_data s
  /\ dot_limit s' = dot_limit s
  /\ running s' = running s
  /\ first_unpause s' = first_unpause s
  /\ (last_spawn_time s' = last_spawn_time s
      \/ last_spawn_time s' = clock w (clock_calls w))
  /\ (paused s' = false -> paused s = false).
Proof. exact (update_fields s dt w). Qed.

(** ** dot.py: [split] without a stored normal *)

Lemma split_normal_unit (d : Dot) :
  last_collision_normal d = None ->
  length_squared (split_normal d) = 1
  /\ (1 / 1000000000 < length_squared (center_pos -v pos d)%vec ->
      split_normal d = normalize (center_pos -v pos d)%vec)
  /\ (length_squared (center_pos -v pos d)%vec <= 1 / 1000000000 ->
      split_normal d = mkVec 0 (-1)).
Proof.
  intros H. unfold split_normal. rewrite H. fold center_pos.
  destruct (Rlt_dec (1 / 1000000000) (length_squared (center_pos -v pos d)%vec))
    as [Hl | Hl].
  - rewrite (proj2 (Rltb_true_iff _ _) Hl).
    split; [apply normalize_length_squared; lra |].
    split; [reflexivity | intros; lra].
  - rewrite (proj2 (Rltb_false_iff _ _)) by lra.
    split; [unfold length_squared, vdot; simpl; ring |].
    split; [intros; lra | reflexivity].
Qed.

Lemma split_children_angles (d : Dot) (w : World) :
  (forall k, 0 <= rand w k <= 1) ->
  let n := split_normal d in
  let normal_angle := degrees (atan2 (vy n) (vx n)) in
  exists c1 c2,
    snd (fst (split d w)) = [c1; c2]
    /\ Forall (fun c =>
         (exists a,
            Rabs (a - normal_angle) <= Config.SPLIT_ANGLE_RANGE / 2
            /\ vel c = from_polar Config.INITIAL_DOT_SPEED a)
         /\ pos c = (pos d +v normalize (vel c) *v (Config.DOT_RADIUS * (11 / 10)))%vec
         /\ needs_split c = false /\ last_collision_normal c = None)
       [c1; c2].
Proof.
  intros Hr. cbv zeta. rewrite split_children. cbv zeta. cbn [fst snd].
  rewrite stored_normal_angle_eq.
  set (na := degrees (atan2 (vy (split_normal d)) (vx (split_normal d)))).
  set (w1 := snd (split_child (pos d) na w)).
  destruct (split_child_spec (pos d) na w) as (Hv1 & Hp1 & Hn1 & Hl1 & Hr1 & _).
  destruct (split_child_spec (pos d) na w1) as (Hv2 & Hp2 & Hn2 & Hl2 & _).
  fold w1 in Hr1.
  eexists; eexists; split; [reflexivity |].
  repeat constructor; try assumption.
  - eexists; split; [| exact Hv1].
    replace (na + child_offset (rand w (rand_calls w)) - na)
      with (child_offset (rand w (rand_calls w))) by ring.
    apply child_offset_range, Hr.
  - eexists; split; [| exact Hv2].
    replace (na + child_offset (rand w1 (rand_calls w1)) - na)
      with (child_offset (rand w1 (rand_calls w1))) by ring.
    apply child_offset_range. rewrite Hr1. apply Hr.
Qed.

(** X16 — [split] on a dot without a stored normal does not fail: it
    uses the unit vector from the dot towards the window centre, or
    [(0, -1)] when the dot is within 1e-9 (squared) of the centre, and still
    returns two unmarked children whose velocities lie within
    [SPLIT_ANGLE_RANGE / 2] of the angle of that direction, while the
    parent comes back unmarked with no stored normal. *)
Theorem split_without_normal (d : Dot) (w : World) :
  last_collision_normal d = None ->
  (forall k, 0 <= rand w k <= 1) ->
  let n := split_normal d in
  let normal_angle := degrees (atan2 (vy n) (vx n)) in
  length_squared n = 1
  /\ from_polar 1 normal_angle = n
  /\ (1 / 1000000000 < length_squared (center_pos -v pos d)%vec ->
      n = normalize (center_pos -v pos d)%vec)
  /\ (length_squared (center_pos -v pos d)%vec <= 1 / 1000000000 -> n = mkVec 0 (-1))
  /\ (exists c1 c2,
        snd (fst (split d w)) = [c1; c2]
        /\ Forall (fun c =>
             (exists a,
                Rabs (a - normal_angle) <= Config.SPLIT_ANGLE_RANGE / 2
                /\ vel c = from_polar Config.INITIAL_DOT_SPEED a)
             /\ pos c = (pos d +v normalize (vel c) *v (Config.DOT_RADIUS * (11 / 10)))%vec
             /\ needs_split c = false /\ last_collision_normal c = None)
           [c1; c2])
  /\ needs_split (fst (fst (split d w))) = false
  /\ last_collision_normal (fst (fst (split d w))) = None.
Proof.
  intros Hn Hr. cbv zeta.
  destruct (split_normal_unit d Hn) as (H1 & H2 & H3).
  split; [exact H1 |].
  split; [apply from_polar_normal_angle; exact H1 |].
  split; [exact H2 |]. split; [exact H3 |].
  split; [exact (split_children_angles d w Hr) |].
  apply split_clears.
Qed.

Lemma split_without_normal_witness :
  split_normal slow_dot = normalize (center_pos -v pos slow_dot)%vec
  /\ length_squared (split_normal slow_dot) = 1.
Proof.
  assert (Hr : forall k, 0 <= rand (const_world 0 (1 / 2)) k <= 1)
    by (intros k; simpl; lra).
  assert (Hfar : 1 / 1000000000 < length_squared (center_pos -v pos slow_dot)%vec).
  { unfold center_pos. change (IZR Config.CENTER_X) with 540.
    change (IZR Config.CENTER_Y) with 540.
    unfold length_squared, vdot, vsub. simpl. lra. }
  destruct (split_without_normal slow_dot (const_world 0 (1 / 2)) eq_refl Hr)
    as (H1 & _ & H2 & _).
  split; [exact (H2 Hfar) | exact H1].
Defined.

(** ** simulation.py: start-up *)

Lemma define_shapes_names (noise2 : Z -> R -> R -> R) (w : World) :
  map fst (fst (define_shapes noise2 w)) = Config.AVAILABLE_SHAPES
  /\ shape_lookup (fst (define_shapes noise2 w)) "Circle"
     = Some (CircleShape max_extent_radius).
Proof.
  unfold define_shapes, bind, randint, ret. cbn [fst map]. split; reflexivity.
Qed.

Lemma shape_lookup_in_names (defs : list (string * ShapeData)) (k : string) :
  In k (map fst defs) -> shape_lookup defs k <> None.
Proof.
  induction defs as [| [k' v] defs IH]; simpl; [intros [] |].
  intros [E | Hi].
  - subst k'. rewrite String.eqb_refl. discriminate.
  - destruct (String.eqb k k'); [discriminate | apply IH; exact Hi].
Qed.

(** X17 — Whatever the noise function and the random seed, the
    simulation starts with the five available shapes defined, in the order
    of [AVAILABLE_SHAPES], so that every name the dropdown offers has a
    shape; the active shape is the circle of radius 486, there are no dots,
    the simulation is paused and waits for its first unpause, the cap is
    the initial one and the spawn timer holds the clock reading taken by
    [reset]. *)
Theorem initial_state (noise2 : Z -> R -> R -> R) (w : World) :
  let s := fst (Simulation_init noise2 w) in
  map fst (shape_definitions s) = Config.AVAILABLE_SHAPES
  /\ (forall name, In name Config.AVAILABLE_SHAPES ->
        shape_lookup (shape_definitions s) name <> None)
  /\ current_shape_name s = "Circle"%string
  /\ current_shape_data s = CircleShape 486
  /\ dots s = []
  /\ paused s = true /\ running s = true
  /\ first_unpause s = true /\ limit_reached_paused s = false
  /\ dot_limit s = Config.INITIAL_DOT_LIMIT
  /\ last_spawn_time s = clock w (clock_calls w).
Proof.
  cbv zeta. unfold Simulation_init, bind.
  destruct (define_shapes_names noise2 w) as [Hn Hl].
  assert (Hck : clock (snd (define_shapes noise2 w)) = clock w
                /\ clock_calls (snd (define_shapes noise2 w)) = clock_calls w)
    by (unfold define_shapes, bind, randint, ret; cbn [snd]; split; reflexivity).
  destruct (define_shapes noise2 w) as [defs w1]. cbn [fst snd] in *.
  change (hd ""%string Config.AVAILABLE_SHAPES) with "Circle"%string.
  rewrite Hl. rewrite Hl.
  unfold reset, bind, get_ticks, ret. cbn [fst shape_definitions current_shape_name
    current_shape_data dots paused running first_unpause limit_reached_paused
    dot_limit last_spawn_time].
  destruct Hck as [-> ->].
  split; [exact Hn |].
  split; [intros name Hi; apply shape_lookup_in_names; rewrite Hn; exact Hi |].
  repeat split; reflexivity.
Qed.

(** ** simulation.py: the events of one frame *)

Lemma handle_input_app (es1 es2 : list Event) :
  forall s w,
    handle_input s (es1 ++ es2) w
    = handle_input (fst (handle_input s es1 w)) es2 (snd (handle_input s es1 w)).
Proof.
  induction es1 as [| e es IH]; intros s w.
  - reflexivity.
  - simpl. unfold bind. destruct (handle_event s e w) as [s' w']. apply IH.
Qed.

(** X18 — Events are handled in order, so within one frame the last word
    counts: a frame that ends with a quit request (window close or Escape)
    leaves the simulation stopped and its update is skipped, while a reset
    key that follows a quit request in the same frame revives the
    simulation, with no dots and paused. *)
Theorem last_event_decides (s : Simulation) (es : list Event) (dt : R) (w : World) :
  running (fst (handle_input s (es ++ [QUIT]) w)) = false
  /\ running (fst (handle_input s (es ++ [KEYDOWN K_ESCAPE]) w)) = false
  /\ tick s (es ++ [QUIT], dt) w = handle_input s (es ++ [QUIT]) w
  /\ running (fst (handle_input s (es ++ [QUIT; KEYDOWN K_r]) w)) = true
  /\ dots (fst (handle_input s (es ++ [QUIT; KEYDOWN K_r]) w)) = []
  /\ paused (fst (handle_input s (es ++ [QUIT; KEYDOWN K_r]) w)) = true.
Proof.
  assert (Hq : running (fst (handle_input s (es ++ [QUIT]) w)) = false).
  { rewrite handle_input_app. reflexivity. }
  split; [exact Hq |].
  split; [rewrite handle_input_app; reflexivity |].
  split.
  - unfold tick, bind.
    destruct (handle_input s (es ++ [QUIT]) w) as [s1 w1]. cbn [fst] in Hq.
    rewrite Hq. reflexivity.
  - rewrite handle_input_app. repeat split; reflexivity.
Qed.

(** ** simulation.py: the active shape *)

Lemma reset_shape (s : Simulation) (w : World) :
  shape_definitions (fst (reset s w)) = shape_definitions s
  /\ current_shape_name (fst (reset s w)) = current_shape_name s
  /\ current_shape_data (fst (reset s w)) = current_shape_data s.
Proof. repeat split; reflexivity. Qed.

Lemma press_space_shape (s : Simulation) (w : World) :
  shape_definitions (fst (press_space s w)) = shape_definitions s
  /\ current_shape_name (fst (press_space s w)) = current_shape_name s
  /\ current_shape_data (fst (press_space s w)) = current_shape_data s.
Proof.
  unfold press_space. destruct (paused s); [| repeat split; reflexivity].
  unfold bind, first_unpause_block.
  destruct (first_unpause s).
  - unfold bind.
    destruct ((0 <? dot_limit s)%Z && (List.length (dots s) =? 0)%nat)%bool;
      unfold limit_increase_block; simpl;
      destruct (limit_reached_paused s); repeat split; reflexivity.
  - unfold limit_increase_block, ret. simpl.
    destruct (limit_reached_paused s); repeat split; reflexivity.
Qed.

Lemma handle_event_shape (defs : list (string * ShapeData)) (s : Simulation)
    (e : Event) (w : World) :
  (forall name, In name Config.AVAILABLE_SHAPES -> shape_lookup defs name <> None) ->
  event_from_dropdown e ->
  shape_definitions s = defs /\ shape_consistent s ->
  shape_definitions (fst (handle_event s e w)) = defs
  /\ shape_consistent (fst (handle_event s e w)).
Proof.
  intros Hdefs He [Hd Hc]. unfold shape_consistent in *.
  destruct e as [| [] | text |]; simpl; try (split; assumption).
  - destruct (press_space_shape s w) as (-> & -> & ->). split; assumption.
  - unfold shape_changed. destruct (negb _); [| split; assumption].
    destruct (shape_lookup (shape_definitions s) text) as [data |] eqn:E.
    + simpl. split; [exact Hd | exact E].
    + exfalso. simpl in He. rewrite Hd in E. exact (Hdefs text He E).
Qed.

Lemma handle_input_shape (defs : list (string * ShapeData)) (es : list Event) :
  (forall name, In name Config.AVAILABLE_SHAPES -> shape_lookup defs name <> None) ->
  Forall event_from_dropdown es ->
  forall s w,
    shape_definitions s = defs /\ shape_consistent s ->
    shape_definitions (fst (handle_input s es w)) = defs
    /\ shape_consistent (fst (handle_input s es w)).
Proof.
  intros Hdefs. induction es as [| e es IH]; intros Hes s w H.
  - exact H.
  - simpl. unfold bind.
    pose proof (handle_event_shape defs s e w Hdefs (Forall_inv Hes) H) as He.
    destruct (handle_event s e w) as [s' w']. apply IH.
    + exact (Forall_inv_tail Hes).
    + exact He.
Qed.

Lemma run_ticks_cons (s : Simulation) (f : list Event * R)
    (fs : list (list Event * R)) (w : World) :
  run_ticks s (f :: fs) w = run_ticks (fst (tick s f w)) fs (snd (tick s f w)).
Proof. simpl. unfold bind. destruct (tick s f w). reflexivity. Qed.

Lemma run_ticks_shape (defs : list (string * ShapeData))
    (frames : list (list Event * R)) :
  (forall name, In name Config.AVAILABLE_SHAPES -> shape_lookup defs name <> None) ->
  Forall (fun frame => Forall event_from_dropdown (fst frame)) frames ->
  forall s w,
    shape_definitions s = defs /\ shape_consistent s ->
    shape_definitions (fst (run_ticks s frames w)) = defs
    /\ shape_consistent (fst (run_ticks s frames w)).
Proof.
  intros Hdefs. induction frames as [| [es dt_raw] fs IH]; intros Hfs s w H.
  - exact H.
  - rewrite run_ticks_cons.
    assert (Ht : shape_definitions (fst (tick s (es, dt_raw) w)) = defs
                 /\ shape_consistent (fst (tick s (es, dt_raw) w))).
    { unfold tick, bind.
      pose proof (handle_input_shape defs es Hdefs (Forall_inv Hfs) s w H) as Hi.
      destruct (handle_input s es w) as [s1 w1]. cbn [fst] in Hi.
      destruct (running s1); [| exact Hi].
      destruct Hi as [Hd Hc]. unfold shape_consistent in *.
      destruct (update_fields s1 (if 1 / 10 <? dt_raw then 1 / 10 else dt_raw) w1)
        as (-> & -> & -> & _).
      split; assumption. }
    apply IH; [exact (Forall_inv_tail Hfs) | exact Ht].
Qed.

Lemma Simulation_init_shape (noise2 : Z -> R -> R -> R) (w : World) :
  let s := fst (Simulation_init noise2 w) in
  (forall name, In name Config.AVAILABLE_SHAPES ->
     shape_lookup (shape_definitions s) name <> None)
  /\ shape_consistent s.
Proof.
  cbv zeta. unfold Simulation_init, bind.
  destruct (define_shapes_names noise2 w) as [Hn Hl].
  destruct (define_shapes noise2 w) as [defs w1]. cbn [fst] in *.
  change (hd ""%string Config.AVAILABLE_SHAPES) with "Circle"%string.
  rewrite Hl. rewrite Hl.
  unfold reset, bind, get_ticks, ret, shape_consistent.
  cbn [fst shape_definitions current_shape_name current_shape_data].
  split; [| exact Hl].
  intros name Hi. apply shape_lookup_in_names. rewrite Hn. exact Hi.
Qed.

(** X19 — As long as the shape-selection events carry names offered by
    the dropdown (the available shapes), the table of shapes built at
    start-up is never changed and, in every state the program reaches, the
    active boundary data is the entry of the recorded shape name in that
    table. *)
Theorem active_shape_is_consistent (noise2 : Z -> R -> R -> R)
    (frames : list (list Event * R)) (w : World) :
  Forall (fun frame => Forall event_from_dropdown (fst frame)) frames ->
  let s0 := fst (Simulation_init noise2 w) in
  let s := fst (run noise2 frames w) in
  shape_definitions s = shape_definitions s0
  /\ shape_lookup (shape_definitions s) (current_shape_name s)
     = Some (current_shape_data s).
Proof.
  intros Hf. cbv zeta. unfold run, bind.
  destruct (Simulation_init_shape noise2 w) as [Hdefs Hc]. cbv zeta in *.
  destruct (Simulation_init noise2 w) as [s0 w0]. cbn [fst] in *.
  exact (run_ticks_shape (shape_definitions s0) frames Hdefs Hf s0 w0
           (conj eq_refl Hc)).
Qed.

Lemma active_shape_is_consistent_witness :
  let frames := [ ([UI_DROP_DOWN_MENU_CHANGED "Square"; KEYDOWN K_SPACE], 1 / 60) ] in
  let s := fst (run (fun _ _ _ => 0) frames (const_world 0 0)) in
  shape_lookup (shape_definitions s) (current_shape_name s)
  = Some (current_shape_data s).
Proof.
  cbv zeta.
  assert (Hf : Forall (fun frame : list Event * R => Forall event_from_dropdown (fst frame))
                 [ ([UI_DROP_DOWN_MENU_CHANGED "Square"; KEYDOWN K_SPACE], 1 / 60) ]).
  { constructor; [| constructor]. cbn [fst].
    constructor; [right; left; reflexivity |].
    constructor; [exact I | constructor]. }
  exact (proj2 (active_shape_is_consistent (fun _ _ _ => 0) _ (const_world 0 0) Hf)).
Defined.

(** ** simulation.py: the 'Square' boundary *)

Lemma half_side_bounds : 243 <= half_side <= 486.
Proof.
  unfold half_side. rewrite max_extent_radius_eq.
  assert (H1 : 1 <= sqrt 2).
  { rewrite <- sqrt_1 at 1. apply sqrt_le_1; lra. }
  assert (H2 : sqrt 2 <= 2).
  { replace 2 with (sqrt (2 * 2)) at 2 by (apply sqrt_square; lra).
    apply sqrt_le_1; lra. }
  split.
  - apply (Rmult_le_reg_r (sqrt 2)); [lra |].
    replace (486 / sqrt 2 * sqrt 2) with 486 by (field; lra). nra.
  - apply (Rmult_le_reg_r (sqrt 2)); [lra |].
    replace (486 / sqrt 2 * sqrt 2) with 486 by (field; lra). nra.
Qed.

Lemma build_segment_kept (verts : list Vector2) (i : nat) :
  let a := nth i verts (mkVec 0 0) in
  let b := nth (Nat.modulo (i + 1) (List.length verts)) verts (mkVec 0 0) in
  1 / 1000000000 <= length_squared (b -v a)%vec ->
  build_segment verts i
  = [ mkSeg a b (b -v a)%vec (length_squared (b -v a)%vec)
            (mkVec (vy (b -v a)%vec / length (b -v a)%vec)
                   (- vx (b -v a)%vec / length (b -v a)%vec)) ].
Proof.
  cbv zeta. intros H. unfold build_segment.
  rewrite (proj2 (Rltb_false_iff _ _) H).
  unfold normalize. unfold length at 1 2.
  rewrite rotate_neg90_length_squared, rotate_neg90. reflexivity.
Qed.

Lemma horizontal_length (x : R) : 0 < x -> sqrt (x * x + 0 * 0) = x.
Proof.
  intros H. replace (x * x + 0 * 0) with (x * x) by ring. apply sqrt_square. lra.
Qed.

Lemma square_segments (cx cy h : R) :
  1 <= h ->
  map (fun seg => (v_start seg, v_end seg, seg_normal_outward seg))
      (build_segments (square_vertices cx cy h))
  = [ (mkVec (cx - h) (cy - h), mkVec (cx + h) (cy - h), mkVec 0 (-1));
      (mkVec (cx + h) (cy - h), mkVec (cx + h) (cy + h), mkVec 1 0);
      (mkVec (cx + h) (cy + h), mkVec (cx - h) (cy + h), mkVec 0 1);
      (mkVec (cx - h) (cy + h), mkVec (cx - h) (cy - h), mkVec (-1) 0) ].
Proof.
  intros Hh. unfold build_segments, square_vertices.
  cbn [List.length seq flat_map].
  assert (Hl : forall x, x = 2 * h \/ x = - (2 * h) ->
                         1 / 1000000000 <= x * x + 0 * 0 /\ 1 / 1000000000 <= 0 * 0 + x * x)
    by (intros x [-> | ->]; nra).
  assert (H2 : sqrt ((2 * h) * (2 * h)) = 2 * h) by (apply sqrt_square; lra).
  rewrite (build_segment_kept _ 0), (build_segment_kept _ 1),
    (build_segment_kept _ 2), (build_segment_kept _ 3);
    cbn [nth Nat.modulo Nat.divmod Nat.add List.length fst snd Nat.sub];
    unfold length_squared, vdot, vsub; cbn [vx vy];
    try (match goal with |- _ <= _ => nra end).
  cbn [app map v_start v_end seg_normal_outward].
  unfold length, length_squared, vdot. cbn [vx vy].
  replace ((cx + h - (cx - h)) * (cx + h - (cx - h)) + (cy - h - (cy - h)) * (cy - h - (cy - h)))
    with ((2 * h) * (2 * h)) by ring.
  replace ((cx + h - (cx + h)) * (cx + h - (cx + h)) + (cy + h - (cy - h)) * (cy + h - (cy - h)))
    with ((2 * h) * (2 * h)) by ring.
  replace ((cx - h - (cx + h)) * (cx - h - (cx + h)) + (cy + h - (cy + h)) * (cy + h - (cy + h)))
    with ((2 * h) * (2 * h)) by ring.
  replace ((cx - h - (cx - h)) * (cx - h - (cx - h)) + (cy - h - (cy + h)) * (cy - h - (cy + h)))
    with ((2 * h) * (2 * h)) by ring.
  rewrite H2.
  repeat (f_equal; try (apply vec_eq; cbn [vx vy]; field; lra)).
Qed.

Lemma square_entry (noise2 : Z -> R -> R -> R) (w : World) :
  shape_lookup (fst (define_shapes noise2 w)) "Square"
  = Some (polygon (square_vertices (IZR Config.CENTER_X) (IZR Config.CENTER_Y) half_side)).
Proof.
  unfold define_shapes, bind, randint, ret. cbn [fst]. reflexivity.
Qed.

(** X20 — The 'Square' boundary of [define_shapes] has four edges, top,
    right, bottom and left in this order, whose normals are the axis
    directions (0,-1), (1,0), (0,1) and (-1,0): each normal points away from
    the window centre, which lies [half_side] behind every edge line, no
    vertex of the square lies in front of any edge, and with the inward
    offset of -10 configured for the square the centre is inside every
    collision line. *)
Theorem square_normals_point_outward (noise2 : Z -> R -> R -> R) (w : World) :
  let verts := square_vertices (IZR Config.CENTER_X) (IZR Config.CENTER_Y) half_side in
  shape_lookup (fst (define_shapes noise2 w)) "Square"
  = Some (PolygonShape verts (build_segments verts))
  /\ map seg_normal_outward (build_segments verts)
     = [mkVec 0 (-1); mkVec 1 0; mkVec 0 1; mkVec (-1) 0]
  /\ forall seg, In seg (build_segments verts) ->
       vdot (center_pos -v v_start seg)%vec (seg_normal_outward seg) = - half_side
       /\ (forall v, In v verts ->
             vdot (v -v v_start seg)%vec (seg_normal_outward seg) <= 0)
       /\ signed_overlap center_pos seg
            (Config.dict_get Config.COLLISION_BOUNDS_INWARD_OFFSET "Square" 0)
          < - epsilon.
Proof.
  cbv zeta. pose proof half_side_bounds as Hh.
  assert (H1 : 1 <= half_side) by lra.
  pose proof (square_segments (IZR Config.CENTER_X) (IZR Config.CENTER_Y) half_side H1)
    as Hs.
  split; [apply square_entry |].
  split.
  - apply (f_equal (map (fun t : Vector2 * Vector2 * Vector2 => snd t))) in Hs.
    rewrite map_map in Hs. exact Hs.
  - intros seg Hi.
    apply (in_map (fun seg => (v_start seg, v_end seg, seg_normal_outward seg))) in Hi.
    rewrite Hs in Hi.
    change (Config.dict_get Config.COLLISION_BOUNDS_INWARD_OFFSET "Square" 0) with (-10).
    unfold signed_overlap, center_pos, square_vertices,
      Config.BOUNDARY_THICKNESS, Config.DOT_RADIUS, epsilon.
    set (cx := IZR Config.CENTER_X) in *. set (cy := IZR Config.CENTER_Y) in *.
    set (h := half_side) in *.
    destruct Hi as [E | [E | [E | [E | []]]]]; inversion E as [[Ea Eb En]];
      unfold vdot, vsub; cbn [vx vy];
      (split; [ring |]; split;
       [intros v [<- | [<- | [<- | [<- | []]]]]; cbn [vx vy]; lra | lra]).
Qed.
